(** * Real-time collaboration transport: connection manager and session

    A shallow embedding of [src/services/simpleWebSocketService.ts] (the
    latest revision, the one that keeps [reconnectAttempts]) and of
    [src/services/collaborationService.ts], with the properties the
    specification states about them.

    Conventions of the embedding.
    - A JavaScript [Map] is a [gmap]; the only iteration in the modelled
      code ([forEach] over entries that are closed or cleared) acts on
      pairwise distinct sockets and timers, so iteration order is not
      observable in the state.
    - Host objects with identity (WebSocket instances, timers) live in
      two stores, [sockets] and [timers]; a handle is the index in the
      store.  The closures that [connect] installs on a socket are
      represented by the variables they capture.
    - Host inputs are explicit arguments: [Date.now()] is [now],
      [Math.random()] is [rnd], a close event carries [code] and
      [wasClean].  The events that a WebSocket host can deliver are
      singled out by [Transport.receivable].
    - The reconnect delay is computed in double precision: [JS.binary64]
      rounds a rational to the nearest double, ties to even.
    - Subscribers of the session's event bus may call [on] and [off]
      while [emit] walks their array: module [Bus] models the array as
      [forEach] sees it; [Session.emit] is its restriction to
      subscribers that leave the registrations alone.
    - The caller's callbacks in [options] are opaque: their invocation is
      recorded, and they are assumed not to re-enter the service
      synchronously (this is the case for the only caller in the
      repository, [CollaborationService.connect]). *)

From stdpp Require Import gmap strings list fin_maps pretty.
From Stdlib Require Import Ascii QArith Qround Qabs Qpower Lqa.

Close Scope Q_scope.

Set Warnings "-register-all".
Set Default Proof Using "Type".

Local Open Scope string_scope.

(** ** JavaScript values *)

Module JS.

(** Values that reach the modelled code: what [JSON.parse] produces, plus
    [undefined] and [NaN].  Numbers are the integral ones (epoch
    milliseconds, counters); objects and arrays carry the address [ref]
    that decides [===] between them. *)
Inductive JSValue :=
  | JUndefined
  | JNull
  | JBool (b : bool)
  | JNaN
  | JNum (z : Z)
  | JStr (s : string)
  | JArr (ref : N) (elts : list JSValue)
  | JObj (ref : N) (props : gmap string JSValue).

(** Abrupt completion: the modelled code only ever meets [TypeError]
    (property read on [null]/[undefined]) and the [SyntaxError] of the
    [WebSocket] constructor. *)
Inductive Error := TypeError | SyntaxError.

Inductive Completion (A : Type) :=
  | Normal (a : A)
  | Throw (e : Error).
Arguments Normal {A} a.
Arguments Throw {A} e.

Definition is_normal {A} (c : Completion A) : bool :=
  match c with Normal _ => true | Throw _ => false end.

(** [ToBoolean]. *)
Definition truthy (v : JSValue) : bool :=
  match v with
  | JUndefined | JNull | JNaN => false
  | JBool b => b
  | JNum z => negb (z =? 0)%Z
  | JStr s => negb (String.eqb s "")
  | JArr _ _ | JObj _ _ => true
  end.

Definition typeof (v : JSValue) : string :=
  match v with
  | JUndefined => "undefined"
  | JNull | JArr _ _ | JObj _ _ => "object"
  | JBool _ => "boolean"
  | JNaN | JNum _ => "number"
  | JStr _ => "string"
  end.

(** The characters of a string as one-character strings. *)
Fixpoint chars (s : string) : list JSValue :=
  match s with
  | EmptyString => []
  | String c rest => JStr (String c EmptyString) :: chars rest
  end.

Definition indexed (l : list JSValue) : gmap string JSValue :=
  list_to_map (imap (λ i v, (pretty i, v)) l).

(** Own enumerable properties, as copied by an object spread [{...v}]. *)
Definition ownProps (v : JSValue) : gmap string JSValue :=
  match v with
  | JObj _ props => props
  | JArr _ elts => indexed elts
  | JStr s => indexed (chars s)
  | _ => ∅
  end.

(** Property read [v.k] for the keys the code uses (none of them is
    inherited from a prototype): [TypeError] on [null] and [undefined],
    [undefined] for a missing property. *)
Definition get (v : JSValue) (k : string) : Completion JSValue :=
  match v with
  | JUndefined | JNull => Throw TypeError
  | JArr _ elts =>
      if String.eqb k "length" then Normal (JNum (Z.of_nat (length elts)))
      else Normal (default JUndefined (indexed elts !! k))
  | JStr s =>
      if String.eqb k "length" then Normal (JNum (Z.of_nat (String.length s)))
      else Normal (default JUndefined (indexed (chars s) !! k))
  | JObj _ props => Normal (default JUndefined (props !! k))
  | _ => Normal JUndefined
  end.

(** Strict equality [===]: by value on primitives ([NaN] differs from
    itself), by address on objects and arrays. *)
Definition strictEq (a b : JSValue) : bool :=
  match a, b with
  | JUndefined, JUndefined => true
  | JNull, JNull => true
  | JBool x, JBool y => Bool.eqb x y
  | JNum x, JNum y => (x =? y)%Z
  | JStr x, JStr y => String.eqb x y
  | JArr r _, JArr r' _ => (r =? r')%N
  | JObj r _, JObj r' _ => (r =? r')%N
  | _, _ => false
  end.

(** *** Double-precision arithmetic *)

(** Numbers that are not integral arise in one place, the jitter of the
    reconnect delay.  The doubles are rationals; an arithmetic operation
    gives the double nearest to the exact result, ties going to the even
    significand. *)

(** The integer nearest to [q], ties to the even one. *)
Definition roundHalfEven (q : Q) : Z :=
  let f := Qfloor q in
  match (q - inject_Z f ?= 1 # 2)%Q with
  | Lt => f
  | Gt => (f + 1)%Z
  | Eq => if Z.even f then f else (f + 1)%Z
  end.

(** The exponent [e] with [2^e <= x < 2^(e+1)], for [x > 0]: the
    difference of the bit lengths of numerator and denominator, or one
    less. *)
Definition binade (x : Q) : Z :=
  let e := (Z.log2 (Qnum x) - Z.log2 (Zpos (Qden x)))%Z in
  if Qle_bool (2 ^ e) x then e else (e - 1)%Z.

(** The binary64 value nearest to [x]: 53 significant bits, the least
    exponent of a normal number being -1022; spacing [2^(e - 52)] in the
    binade of [x], and [2^-1074] below.  Magnitudes from [2^1024] on,
    which overflow, do not arise: the delay stays below [2^16]. *)
Definition binary64 (x : Q) : Q :=
  if Qeq_bool x 0 then 0%Q
  else
    let a := Qabs x in
    let ulp := (2 ^ (Z.max (binade a) (-1022) - 52))%Q in
    let m := inject_Z (roundHalfEven (a / ulp)) in
    Qred (if Qle_bool 0 x then m * ulp else - (m * ulp))%Q.

End JS.

(** ** Outbound envelopes *)

Module Wire.
Import JS.

(** The object literals that [CollaborationService] hands to
    [JSON.stringify]; one constructor per [type] discriminator, fields in
    the order of the literal.  Caller-supplied payloads stay opaque. *)
Inductive Envelope :=
  | UserJoin (userId username schemaId : string)
  | UserLeave (userId : string) (schemaId : option string)
  | CursorUpdate (userId username : string) (position : JSValue)
      (color lastSeen : string)
  | SchemaChangeMsg (changeType : string) (data : JSValue)
      (userId timestamp : string)
  | UserSelection (userId : string) (selection : JSValue) (timestamp : string)
  | PresenceUpdate (userId status : string) (currentAction : option string)
      (timestamp : string).

(** The [type] field of the literal. *)
Definition envelope_type (e : Envelope) : string :=
  match e with
  | UserJoin _ _ _ => "user_join"
  | UserLeave _ _ => "user_leave"
  | CursorUpdate _ _ _ _ _ => "cursor_update"
  | SchemaChangeMsg _ _ _ _ => "schema_change"
  | UserSelection _ _ _ => "user_selection"
  | PresenceUpdate _ _ _ _ => "presence_update"
  end.

End Wire.

(** ** Connection manager: [SimpleWebSocketService] *)

Module Transport.
Import JS Wire.

(** *** String helpers of [connect] *)

(** [s.split(sep)] for a one-character separator; never empty. *)
Fixpoint split (sep : ascii) (s : string) : list string :=
  match s with
  | EmptyString => [EmptyString]
  | String c rest =>
      if Ascii.eqb c sep then EmptyString :: split sep rest
      else match split sep rest with
           | [] => [String c EmptyString]
           | w :: ws => String c w :: ws
           end
  end.

(** [url.split('/').slice(-2).join('/')] *)
Definition urlPath (url : string) : string :=
  let parts := split "/"%char url in
  String.concat "/" (drop (length parts - 2) parts).

(** [id.split('_')[0]] *)
Definition idPath (id : string) : string :=
  default "" (head (split "_"%char id)).

(** [`${urlPath}_${Date.now()}`] *)
Definition mkConnectionId (path : string) (now : N) : string :=
  path ++ "_" ++ pretty now.

(** *** State *)

Inductive ReadyState := CONNECTING | OPEN | CLOSING | CLOSED.

Global Instance ReadyState_eq_dec : EqDecision ReadyState.
Proof. solve_decision. Defined.

(** The [options] argument of [connect].  A callback is the reference of
    the caller's function; an absent field is [None]. *)
Record Options := {
  onOpen : option N;
  onMessage : option N;
  onClose : option N;
  onError : option N;
  enableReconnect : option bool
}.

(** A [WebSocket] instance together with what the handlers installed by
    [connect] capture ([url], [options], [connectionId]). *)
Record Socket := {
  sock_url : string;
  readyState : ReadyState;
  closeArgs : option (Z * string);
  sent : list Envelope;
  sock_connectionId : string;
  sock_options : Options
}.

Inductive TimerStatus := Pending | Cleared | Fired.

Global Instance TimerStatus_eq_dec : EqDecision TimerStatus.
Proof. solve_decision. Defined.

(** A timer created by [setTimeout] in the [onclose] handler, with the
    variables its callback captures. *)
Record Timer := {
  t_status : TimerStatus;
  t_delay : Q;
  t_url : string;
  t_options : Options;
  t_connectionId : string;
  t_attempts : nat
}.

(** Invocations of the caller's callbacks, in order. *)
Inductive Callback :=
  | CbOpen (f : N)
  | CbMessage (f : N) (data : JSValue)
  | CbClose (f : N)
  | CbError (f : N).

Record Service := {
  connections : gmap string nat;
  reconnectTimeouts : gmap string nat;
  reconnectAttempts : gmap string nat;
  sockets : list Socket;
  timers : list Timer;
  callbacks : list Callback
}.

Definition maxReconnectAttempts : nat := 5.
Definition baseReconnectDelay : Z := 2000.

(** [getInstance()] on first use. *)
Definition initial : Service :=
  {| connections := ∅; reconnectTimeouts := ∅; reconnectAttempts := ∅;
     sockets := []; timers := []; callbacks := [] |}.

Definition set_connections (f : gmap string nat → gmap string nat) (st : Service) : Service :=
  {| connections := f (connections st); reconnectTimeouts := reconnectTimeouts st;
     reconnectAttempts := reconnectAttempts st; sockets := sockets st;
     timers := timers st; callbacks := callbacks st |}.

Definition set_reconnectTimeouts (f : gmap string nat → gmap string nat) (st : Service) : Service :=
  {| connections := connections st; reconnectTimeouts := f (reconnectTimeouts st);
     reconnectAttempts := reconnectAttempts st; sockets := sockets st;
     timers := timers st; callbacks := callbacks st |}.

Definition set_reconnectAttempts (f : gmap string nat → gmap string nat) (st : Service) : Service :=
  {| connections := connections st; reconnectTimeouts := reconnectTimeouts st;
     reconnectAttempts := f (reconnectAttempts st); sockets := sockets st;
     timers := timers st; callbacks := callbacks st |}.

Definition set_sockets (f : list Socket → list Socket) (st : Service) : Service :=
  {| connections := connections st; reconnectTimeouts := reconnectTimeouts st;
     reconnectAttempts := reconnectAttempts st; sockets := f (sockets st);
     timers := timers st; callbacks := callbacks st |}.

Definition set_timers (f : list Timer → list Timer) (st : Service) : Service :=
  {| connections := connections st; reconnectTimeouts := reconnectTimeouts st;
     reconnectAttempts := reconnectAttempts st; sockets := sockets st;
     timers := f (timers st); callbacks := callbacks st |}.

Definition invoke (cb : option Callback) (st : Service) : Service :=
  match cb with
  | Some c =>
      {| connections := connections st; reconnectTimeouts := reconnectTimeouts st;
         reconnectAttempts := reconnectAttempts st; sockets := sockets st;
         timers := timers st; callbacks := callbacks st ++ [c] |}
  | None => st
  end.

(** *** Host operations *)

Definition with_readyState (rs : ReadyState) (s : Socket) : Socket :=
  {| sock_url := sock_url s; readyState := rs; closeArgs := closeArgs s;
     sent := sent s; sock_connectionId := sock_connectionId s;
     sock_options := sock_options s |}.

(** [socket.close(code, reason)]: starts the closing handshake unless the
    socket is already closing or closed. *)
Definition ws_close (code : Z) (reason : string) (s : Socket) : Socket :=
  match readyState s with
  | CLOSING | CLOSED => s
  | _ =>
      {| sock_url := sock_url s; readyState := CLOSING;
         closeArgs := Some (code, reason); sent := sent s;
         sock_connectionId := sock_connectionId s;
         sock_options := sock_options s |}
  end.

(** [socket.send(text)] on an open socket. *)
Definition ws_send (m : Envelope) (s : Socket) : Socket :=
  {| sock_url := sock_url s; readyState := readyState s; closeArgs := closeArgs s;
     sent := sent s ++ [m]; sock_connectionId := sock_connectionId s;
     sock_options := sock_options s |}.

Definition with_status (ts : TimerStatus) (t : Timer) : Timer :=
  {| t_status := ts; t_delay := t_delay t; t_url := t_url t;
     t_options := t_options t; t_connectionId := t_connectionId t;
     t_attempts := t_attempts t |}.

(** [clearTimeout(t)]: a pending timer will not fire; otherwise nothing. *)
Definition clearTimeout (t : nat) (st : Service) : Service :=
  set_timers (alter (λ tm, match t_status tm with
                           | Pending => with_status Cleared tm
                           | _ => tm
                           end) t) st.

Definition closeSocket (h : nat) (code : Z) (reason : string) (st : Service) : Service :=
  set_sockets (alter (ws_close code reason) h) st.

(** *** The service *)

Section Service.

(** Whether [new WebSocket(url)] accepts [url]; it throws a [SyntaxError]
    otherwise.  Decided by the host's URL parser. *)
Variable validUrl : string → bool.

(** One iteration of [existingConnections.forEach]. *)
Definition closeExisting (st : Service) (entry : string * nat) : Service :=
  let '(id, socket) := entry in
  let st := closeSocket socket 1000 "Replacing with new connection" st in
  let st := set_connections (delete id) st in
  let st := match reconnectTimeouts st !! id with
            | Some timeout =>
                set_reconnectTimeouts (delete id) (clearTimeout timeout st)
            | None => st
            end in
  set_reconnectAttempts (delete id) st.

Definition newSocket (url connectionId : string) (options : Options) : Socket :=
  {| sock_url := url; readyState := CONNECTING; closeArgs := None; sent := [];
     sock_connectionId := connectionId; sock_options := options |}.

(** [connect(url, options)]; the second component is the returned
    connection id, or the error rethrown from the [catch]. *)
Definition connect (now : N) (url : string) (options : Options) (st : Service)
  : Service * Completion string :=
  let urlPath := urlPath url in
  let connectionId := mkConnectionId urlPath now in
  let existingConnections :=
    filter (λ entry, idPath entry.1 = urlPath) (map_to_list (connections st)) in
  let st := foldl closeExisting st existingConnections in
  if validUrl url then
    let socket := length (sockets st) in
    let st := set_sockets (λ l, (l ++ [newSocket url connectionId options])%list) st in
    let st := set_reconnectAttempts <[connectionId := 0]> st in
    let st := set_connections <[connectionId := socket]> st in
    (st, Normal connectionId)
  else (st, Throw SyntaxError).

(** [socket.onopen]: the host moves the socket to [OPEN] and runs the
    handler. *)
Definition socket_onopen (h : nat) (st : Service) : Service :=
  match sockets st !! h with
  | Some s =>
      match readyState s with
      | CONNECTING =>
          let st := set_sockets <[h := with_readyState OPEN s]> st in
          let st := set_reconnectAttempts <[sock_connectionId s := 0]> st in
          invoke (CbOpen <$> onOpen (sock_options s)) st
      | _ => st
      end
  | None => st
  end.

(** [socket.onmessage]: [parsed] is the result of [JSON.parse(event.data)],
    [None] when it throws.  The [console.log] reads [data.type] inside the
    [try], so a [null] message never reaches the callback. *)
Definition socket_onmessage (h : nat) (parsed : option JSValue) (st : Service) : Service :=
  match sockets st !! h, parsed with
  | Some s, Some data =>
      match get data "type" with
      | Normal _ => invoke ((λ f, CbMessage f data) <$> onMessage (sock_options s)) st
      | Throw _ => st
      end
  | _, _ => st
  end.

(** [socket.onerror] *)
Definition socket_onerror (h : nat) (st : Service) : Service :=
  match sockets st !! h with
  | Some s => invoke (CbError <$> onError (sock_options s)) st
  | None => st
  end.

Definition shouldReconnect (options : Options) (code : Z) (wasClean : bool) : bool :=
  default false (enableReconnect options)
  && negb (code =? 1000)%Z
  && negb (code =? 1001)%Z
  && negb (code =? 1006)%Z
  && negb wasClean.

(** [Math.min(baseDelay * Math.pow(2, attempts), 30000) + jitter], with
    [jitter = Math.random() * 2000]; [rnd] is the double that
    [Math.random()] returns.  The capped power is an integer below
    [2^53], hence exact; the product and the sum are rounded. *)
Definition reconnectDelay (attempts : nat) (rnd : Q) : Q :=
  let baseDelay := baseReconnectDelay in
  let exponentialDelay := Z.min (baseDelay * 2 ^ Z.of_nat attempts) 30000 in
  let jitter := binary64 (rnd * 2000)%Q in
  binary64 (inject_Z exponentialDelay + jitter)%Q.

Definition newTimer (delay : Q) (s : Socket) (attempts : nat) : Timer :=
  {| t_status := Pending; t_delay := delay; t_url := sock_url s;
     t_options := sock_options s; t_connectionId := sock_connectionId s;
     t_attempts := attempts |}.

(** [socket.onclose]: the host moves the socket to [CLOSED] (the event
    fires once per socket) and runs the handler. *)
Definition socket_onclose (h : nat) (code : Z) (wasClean : bool) (rnd : Q)
    (st : Service) : Service :=
  match sockets st !! h with
  | Some s =>
      if decide (readyState s = CLOSED) then st else
      let connectionId := sock_connectionId s in
      let options := sock_options s in
      let st := set_sockets <[h := with_readyState CLOSED s]> st in
      let st := set_connections (delete connectionId) st in
      let st := match reconnectTimeouts st !! connectionId with
                | Some existingTimeout =>
                    set_reconnectTimeouts (delete connectionId)
                      (clearTimeout existingTimeout st)
                | None => st
                end in
      let st := invoke (CbClose <$> onClose options) st in
      if shouldReconnect options code wasClean then
        let attempts := default 0 (reconnectAttempts st !! connectionId) in
        if decide (attempts < maxReconnectAttempts) then
          let delay := reconnectDelay attempts rnd in
          let timeout := length (timers st) in
          let st := set_timers (λ l, (l ++ [newTimer delay s attempts])%list) st in
          set_reconnectTimeouts <[connectionId := timeout]> st
        else set_reconnectAttempts (delete connectionId) st
      else set_reconnectAttempts (delete connectionId) st
  | None => st
  end.

(** The callback passed to [setTimeout]; a failure of [connect] is caught
    and logged. *)
Definition retryCallback (now : N) (tm : Timer) (st : Service) : Service :=
  let connectionId := t_connectionId tm in
  if decide (is_Some (reconnectAttempts st !! connectionId)) then
    let st := set_reconnectAttempts <[connectionId := t_attempts tm + 1]> st in
    (connect now (t_url tm) (t_options tm) st).1
  else st.

(** The host fires a pending timer. *)
Definition timer_fire (t : nat) (now : N) (st : Service) : Service :=
  match timers st !! t with
  | Some tm =>
      match t_status tm with
      | Pending => retryCallback now tm (set_timers <[t := with_status Fired tm]> st)
      | _ => st
      end
  | None => st
  end.

(** [disconnect(connectionId)] *)
Definition disconnect (connectionId : string) (st : Service) : Service :=
  let st := match connections st !! connectionId with
            | Some socket =>
                set_connections (delete connectionId)
                  (closeSocket socket 1000 "Manual disconnect" st)
            | None => st
            end in
  let st := match reconnectTimeouts st !! connectionId with
            | Some timeout =>
                set_reconnectTimeouts (delete connectionId) (clearTimeout timeout st)
            | None => st
            end in
  set_reconnectAttempts (delete connectionId) st.

(** [disconnectAll()] *)
Definition disconnectAll (st : Service) : Service :=
  let st := map_fold (λ _ socket acc, closeSocket socket 1000 "Manual disconnect all" acc)
              st (connections st) in
  let st := set_connections (λ _, ∅) st in
  let st := map_fold (λ _ timeout acc, clearTimeout timeout acc)
              st (reconnectTimeouts st) in
  let st := set_reconnectTimeouts (λ _, ∅) st in
  set_reconnectAttempts (λ _, ∅) st.

(** [isConnected(connectionId)] *)
Definition isConnected (connectionId : string) (st : Service) : bool :=
  match connections st !! connectionId with
  | Some socket =>
      match sockets st !! socket with
      | Some s => bool_decide (readyState s = OPEN)
      | None => false
      end
  | None => false
  end.

(** [sendMessage(connectionId, message)]: transmits on an open socket,
    otherwise only warns. *)
Definition sendMessage (connectionId : string) (message : Envelope) (st : Service) : Service :=
  match connections st !! connectionId with
  | Some socket =>
      match sockets st !! socket with
      | Some s =>
          if decide (readyState s = OPEN)
          then set_sockets <[socket := ws_send message s]> st
          else st
      | None => st
      end
  | None => st
  end.

(** *** Runs *)

Inductive Event :=
  | EvConnect (now : N) (url : string) (options : Options)
  | EvOpen (h : nat)
  | EvMessage (h : nat) (parsed : option JSValue)
  | EvError (h : nat)
  | EvClose (h : nat) (code : Z) (wasClean : bool) (rnd : Q)
  | EvTimer (t : nat) (now : N)
  | EvDisconnect (connectionId : string)
  | EvDisconnectAll
  | EvSend (connectionId : string) (message : Envelope).

Definition step (st : Service) (e : Event) : Service :=
  match e with
  | EvConnect now url options => (connect now url options st).1
  | EvOpen h => socket_onopen h st
  | EvMessage h parsed => socket_onmessage h parsed st
  | EvError h => socket_onerror h st
  | EvClose h code wasClean rnd => socket_onclose h code wasClean rnd st
  | EvTimer t now => timer_fire t now st
  | EvDisconnect id => disconnect id st
  | EvDisconnectAll => disconnectAll st
  | EvSend id message => sendMessage id message st
  end.

Definition run (es : list Event) (st : Service) : Service := foldl step st es.

(** The endpoint key of a tracked connection: the last two path segments
    of the URL its socket was opened on. *)
Definition endpointKey (st : Service) (socket : nat) : option string :=
  (λ s, urlPath (sock_url s)) <$> sockets st !! socket.

End Service.

(** The URLs the host accepts in the examples: the [ws:] and [wss:]
    schemes. *)
Definition wsScheme (url : string) : bool :=
  String.prefix "ws://" url || String.prefix "wss://" url.

(** *** The events a host delivers *)



(** *** Observations used in the statements *)

(** The timers created between two states: [setTimeout] only appends. *)
Definition newTimers (st st' : Service) : list Timer :=
  drop (length (timers st)) (timers st').

(** The state in which the [onclose] handler decides about a retry: the
    socket is closed, its map entry and any timer under its id are gone,
    the caller's [onClose] has run. *)
Definition afterCleanup (h : nat) (s : Socket) (st : Service) : Service :=
  let connectionId := sock_connectionId s in
  let st := set_sockets <[h := with_readyState CLOSED s]> st in
  let st := set_connections (delete connectionId) st in
  let st := match reconnectTimeouts st !! connectionId with
            | Some existingTimeout =>
                set_reconnectTimeouts (delete connectionId)
                  (clearTimeout existingTimeout st)
            | None => st
            end in
  invoke (CbClose <$> onClose (sock_options s)) st.

Fixpoint hasChar (c : ascii) (s : string) : bool :=
  match s with
  | EmptyString => false
  | String c' rest => Ascii.eqb c' c || hasChar c rest
  end.

(** URLs whose endpoint key contains no underscore. *)
Definition plainKey (url : string) : Prop :=
  hasChar "_"%char (urlPath url) = false.

Definition plainEvent (e : Event) : Prop :=
  match e with
  | EvConnect _ url _ => plainKey url
  | _ => True
  end.

(** At most one tracked connection per endpoint key. *)
Definition singlePerEndpoint (st : Service) : Prop :=
  ∀ id1 id2 h1 h2 key,
    connections st !! id1 = Some h1 → connections st !! id2 = Some h2 →
    endpointKey st h1 = Some key → endpointKey st h2 = Some key →
    id1 = id2.

(** [st'] tracks no more connections than [st], on the same sockets and
    timers up to their status. *)
Definition shrinks (st st' : Service) : Prop :=
  connections st' ⊆ connections st
  ∧ sock_url <$> sockets st' = sock_url <$> sockets st
  ∧ t_url <$> timers st' = t_url <$> timers st.

(** A timer that was cleared in [st] is still there, cleared, in [st']. *)
Definition clearedKept (st st' : Service) : Prop :=
  ∀ t tm, timers st !! t = Some tm → t_status tm = Cleared →
    ∃ tm', timers st' !! t = Some tm' ∧ t_status tm' = Cleared.

(** What holds of the states reached with plain keys: every id in the map
    starts with the endpoint key of its socket, and two ids in the map
    never start with the same key. *)
Record keyedByEndpoint (st : Service) : Prop := {
  socketsPlain : Forall (λ s, plainKey (sock_url s)) (sockets st);
  timersPlain : Forall (λ t, plainKey (t_url t)) (timers st);
  keyed : ∀ id h, connections st !! id = Some h →
            ∃ s, sockets st !! h = Some s ∧ idPath id = urlPath (sock_url s);
  distinctKeys : ∀ id1 id2 h1 h2,
            connections st !! id1 = Some h1 → connections st !! id2 = Some h2 →
            idPath id1 = idPath id2 → id1 = id2
}.

(** *** Example inputs *)

Definition reconnecting : Options :=
  {| onOpen := None; onMessage := None; onClose := None; onError := None;
     enableReconnect := Some true |}.

Definition roomUrl : string := "ws://localhost:5000/ws/collaboration/r1".

Definition schemaUrl : string := "ws://localhost:5000/ws/collaboration/schema_1".

(** The same endpoint connected twice, one second apart. *)
Definition connectedTwice (url : string) : Service :=
  run wsScheme [EvConnect 1000 url reconnecting; EvConnect 2000 url reconnecting]
    initial.






(** A fresh connection whose socket has opened. *)
Definition openedOnce : Service :=
  run wsScheme [EvConnect 1000 roomUrl reconnecting; EvOpen 0] initial.

Definition openedSocket : Socket :=
  {| sock_url := roomUrl; readyState := OPEN; closeArgs := None; sent := [];
     sock_connectionId := "collaboration/r1_1000"; sock_options := reconnecting |}.

(** A socket closed unexpectedly on a fresh connection. *)
Definition closedOnce : Service :=
  run wsScheme [EvConnect 1000 roomUrl reconnecting; EvOpen 0;
                EvClose 0 1011 false (1 # 2)] initial.

(** The retry timer pending in [closedOnce]. *)
Definition pendingRetry : Timer :=
  {| t_status := Pending; t_delay := reconnectDelay 0 (1 # 2); t_url := roomUrl;
     t_options := reconnecting; t_connectionId := "collaboration/r1_1000";
     t_attempts := 0 |}.





(** *** Further observations *)

(** Every pending timer is the one registered under the connection id its
    callback captured. *)
Definition pendingRegistered (st : Service) : Prop :=
  ∀ t tm, timers st !! t = Some tm → t_status tm = Pending →
    reconnectTimeouts st !! t_connectionId tm = Some t.

(** A URL the host rejects, with the endpoint key of [roomUrl]. *)
Definition badSchemeUrl : string := "ftp://localhost:5000/ws/collaboration/r1".

(** Options whose [onMessage] is the caller's function 7, and a fresh
    connection with them whose socket has opened. *)
Definition withOnMessage : Options :=
  {| onOpen := None; onMessage := Some 7%N; onClose := None; onError := None;
     enableReconnect := Some true |}.

Definition openedListening : Service :=
  run wsScheme [EvConnect 1000 roomUrl withOnMessage; EvOpen 0] initial.

(** A greeting envelope used in the examples. *)
Definition hello : Envelope := UserJoin "u1" "alice" "r1".

End Transport.

(** ** Collaboration session: [CollaborationService] *)

(** The session object with the connection manager singleton it imports.
    Subscribers are opaque functions: a call is recorded, it may throw
    (the [catch] in [emit] logs it), and here it does not subscribe or
    unsubscribe while [emit] iterates; the bus with subscribers that do
    is [Bus] below.  The statements quantify over every session state;
    the promise-based [connect] and [disconnect] are in [Lifecycle]. *)

Module Session.
Import JS Wire.

(** *** A small error monad for abrupt completions *)

Definition bind {A B} (m : Completion A) (k : A → Completion B) : Completion B :=
  match m with
  | Normal a => k a
  | Throw e => Throw e
  end.

Notation "x ←! m ; k" := (bind m (λ x, k))
  (at level 100, m at next level, right associativity, only parsing).

(** *** Data *)

Inductive Role := admin | editor | viewer.

Record CollaborationUser := {
  id : string;
  username : string;
  role : Role;
  avatar : option string;
  color : string
}.

Inductive ChangeType :=
  | table_created | table_updated | table_deleted
  | relationship_added | relationship_removed.

Definition changeTypeName (t : ChangeType) : string :=
  match t with
  | table_created => "table_created"
  | table_updated => "table_updated"
  | table_deleted => "table_deleted"
  | relationship_added => "relationship_added"
  | relationship_removed => "relationship_removed"
  end.

Record SchemaChange := {
  sc_type : ChangeType;
  sc_data : JSValue;
  sc_userId : string;
  sc_timestamp : JSValue
}.

Inductive Presence := online | away | busy.

Definition presenceName (p : Presence) : string :=
  match p with online => "online" | away => "away" | busy => "busy" end.

(** A subscriber: the reference of the function (what [indexOf] compares)
    and whether a call on a given payload throws. *)
Record Handler := {
  fn_ref : N;
  fn_throws : JSValue → bool
}.

Inductive Level := LLog | LWarn | LError.

(** The session object, the connection manager it imports, and what it
    does to the outside: subscriber calls and console lines (the fixed
    text of the first argument, without the pictograph). *)
Record Collab := {
  connectionId : option string;
  currentUser : option CollaborationUser;
  schemaId : option string;
  eventHandlers : gmap string (list Handler);
  isConnected : bool;
  isIntentionalDisconnect : bool;
  service : Transport.Service;
  calls : list (string * N * JSValue);
  console : list (Level * string)
}.

(** [new CollaborationService()] *)
Definition fresh : Collab :=
  {| connectionId := None; currentUser := None; schemaId := None;
     eventHandlers := ∅; isConnected := false; isIntentionalDisconnect := false;
     service := Transport.initial; calls := []; console := [] |}.

Definition print (l : Level) (text : string) (c : Collab) : Collab :=
  {| connectionId := connectionId c; currentUser := currentUser c;
     schemaId := schemaId c; eventHandlers := eventHandlers c;
     isConnected := isConnected c;
     isIntentionalDisconnect := isIntentionalDisconnect c;
     service := service c; calls := calls c;
     console := (console c ++ [(l, text)])%list |}.

Definition record_call (event : string) (h : Handler) (data : JSValue) (c : Collab) : Collab :=
  {| connectionId := connectionId c; currentUser := currentUser c;
     schemaId := schemaId c; eventHandlers := eventHandlers c;
     isConnected := isConnected c;
     isIntentionalDisconnect := isIntentionalDisconnect c;
     service := service c; calls := (calls c ++ [(event, fn_ref h, data)])%list;
     console := console c |}.

Definition set_eventHandlers (f : gmap string (list Handler) → gmap string (list Handler))
    (c : Collab) : Collab :=
  {| connectionId := connectionId c; currentUser := currentUser c;
     schemaId := schemaId c; eventHandlers := f (eventHandlers c);
     isConnected := isConnected c;
     isIntentionalDisconnect := isIntentionalDisconnect c;
     service := service c; calls := calls c; console := console c |}.

Definition set_service (f : Transport.Service → Transport.Service) (c : Collab) : Collab :=
  {| connectionId := connectionId c; currentUser := currentUser c;
     schemaId := schemaId c; eventHandlers := eventHandlers c;
     isConnected := isConnected c;
     isIntentionalDisconnect := isIntentionalDisconnect c;
     service := f (service c); calls := calls c; console := console c |}.

(** [initialize(user, schemaId)] *)
Definition initialize (user : CollaborationUser) (schema : string) (c : Collab) : Collab :=
  print LLog "CollaborationService initialized:"
    {| connectionId := connectionId c; currentUser := Some user;
       schemaId := Some schema; eventHandlers := eventHandlers c;
       isConnected := isConnected c;
       isIntentionalDisconnect := isIntentionalDisconnect c;
       service := service c; calls := calls c; console := console c |}.

(** *** Event bus *)

(** [on(event, handler)] *)
Definition on (event : string) (handler : Handler) (c : Collab) : Collab :=
  set_eventHandlers
    (λ m, <[event := (default [] (m !! event) ++ [handler])%list]> m) c.

(** [handlers.indexOf(handler)] followed by [splice(index, 1)] when found:
    the first entry that is the same function is removed. *)
Fixpoint spliceFirst (handler : Handler) (handlers : list Handler) : list Handler :=
  match handlers with
  | [] => []
  | h :: rest =>
      if (fn_ref h =? fn_ref handler)%N then rest
      else h :: spliceFirst handler rest
  end.

(** [off(event, handler)] *)
Definition off (event : string) (handler : Handler) (c : Collab) : Collab :=
  match eventHandlers c !! event with
  | Some handlers =>
      set_eventHandlers <[event := spliceFirst handler handlers]> c
  | None => c
  end.

(** One iteration of [handlers.forEach] in [emit]: the call, and the
    [console.error] of the [catch] when it throws. *)
Definition callHandler (event : string) (data : JSValue) (c : Collab) (h : Handler) : Collab :=
  let c := record_call event h data c in
  if fn_throws h data then print LError "Error in event handler for" c else c.

(** [emit(event, data)] *)
Definition emit (event : string) (data : JSValue) (c : Collab) : Collab :=
  match eventHandlers c !! event with
  | Some (h :: rest) => foldl (callHandler event data) c (h :: rest)
  | _ => c
  end.

(** *** Inbound messages *)

Definition warnInvalidCursor : Collab → Collab :=
  print LWarn "Invalid cursor_update message structure:".

(** [handleMessage(message)] *)
Definition handleMessage (message : JSValue) (c : Collab) : Completion Collab :=
  type ←! get message "type";
  let c := print LLog "Received collaboration message:" c in
  match type with
  | JStr "connection_established" =>
      Normal (print LLog "Connection established with server, clientId:" c)
  | JStr "user_joined" =>
      user ←! get message "user";
      Normal (emit "user_joined" user (print LLog "User joined:" c))
  | JStr "user_left" =>
      userId ←! get message "userId";
      Normal (emit "user_left" userId (print LLog "User left:" c))
  | JStr "cursor_update" =>
      cursorData ←! get message "data";
      if truthy cursorData && String.eqb (typeof cursorData) "object" then
        userId ←! get cursorData "userId";
        if truthy userId && String.eqb (typeof userId) "string" then
          Normal (emit "cursor_update" cursorData
                    (print LLog "Valid cursor update received:" c))
        else Normal (warnInvalidCursor c)
      else Normal (warnInvalidCursor c)
  | JStr "schema_change" =>
      Normal (emit "schema_change" message (print LLog "Schema changed:" c))
  | JStr "user_selection" =>
      data ←! get message "data";
      Normal (emit "user_selection" data c)
  | JStr "presence_update" =>
      data ←! get message "data";
      Normal (emit "presence_update" data c)
  | JStr "pong" =>
      Normal (print LLog "Heartbeat pong received" c)
  | _ => Normal (print LLog "Unknown message type:" c)
  end.

(** *** Outbound messages *)

(** [sendMessage(message)] *)
Definition sendMessage (message : Envelope) (c : Collab) : Collab :=
  match connectionId c with
  | Some cid =>
      if negb (String.eqb cid "") && isConnected c
         && Transport.isConnected cid (service c)
      then set_service (Transport.sendMessage cid message) c
      else print LWarn "WebSocket not connected or ready, message not sent:" c
  | None => print LWarn "WebSocket not connected or ready, message not sent:" c
  end.

(** [sendCursorUpdate(position)]; [lastSeen] is [new Date().toISOString()]. *)
Definition sendCursorUpdate (position : JSValue) (lastSeen : string) (c : Collab)
  : Completion Collab :=
  match currentUser c with
  | None => Normal (print LWarn "Cannot send cursor update: no current user" c)
  | Some user =>
      let cursorMessage :=
        CursorUpdate (id user) (username user) position (color user) lastSeen in
      Normal (sendMessage cursorMessage (print LLog "Sending cursor update:" c))
  end.

(** Reading [this.currentUser!.id]: the assertion is erased at run time. *)
Definition currentUserId (c : Collab) : Completion string :=
  match currentUser c with
  | Some user => Normal (id user)
  | None => Throw TypeError
  end.

(** [sendSchemaChange(change)] *)
Definition sendSchemaChange (change : SchemaChange) (timestamp : string) (c : Collab)
  : Completion Collab :=
  userId ←! currentUserId c;
  Normal (sendMessage
            (SchemaChangeMsg (changeTypeName (sc_type change)) (sc_data change)
               userId timestamp) c).

(** [sendUserSelection(selection)] *)
Definition sendUserSelection (selection : JSValue) (timestamp : string) (c : Collab)
  : Completion Collab :=
  userId ←! currentUserId c;
  Normal (sendMessage (UserSelection userId selection timestamp) c).

(** [updatePresence(status, currentAction?)] *)
Definition updatePresence (status : Presence) (currentAction : option string)
    (timestamp : string) (c : Collab) : Completion Collab :=
  userId ←! currentUserId c;
  Normal (sendMessage
            (PresenceUpdate userId (presenceName status) currentAction timestamp) c).

(** *** Conflict resolution *)

(** [resolveConflict(localChange, remoteChange)] *)
Definition resolveConflict (localChange remoteChange : JSValue) : JSValue :=
  remoteChange.

Section Merge.

(** [new Date(v).getTime()] of the host: the epoch milliseconds, [None]
    for [NaN] (an invalid date). *)
Variable getTime : JSValue → option Z.

(** [Math.max(a, b)] on such results. *)
Definition mathMax (a b : option Z) : JSValue :=
  match a, b with
  | Some x, Some y => JNum (Z.max x y)
  | _, _ => JNaN
  end.

(** [mergeTableOperations(op1, op2)]; the two object literals are
    allocated at [alloc] and [alloc + 1]. *)
Definition mergeTableOperations (alloc : N) (op1 op2 : JSValue) : Completion JSValue :=
  data1 ←! get op1 "data";
  data2 ←! get op2 "data";
  timestamp1 ←! get op1 "timestamp";
  timestamp2 ←! get op2 "timestamp";
  let data :=
    <["lastModified" := mathMax (getTime timestamp1) (getTime timestamp2)]>
      (ownProps data2 ∪ ownProps data1) in
  Normal (JObj alloc (<["data" := JObj (alloc + 1) data]> (ownProps op1))).

(** [transformOperation(operation, otherOperation)] *)
Definition transformOperation (alloc : N) (operation otherOperation : JSValue)
  : Completion JSValue :=
  type ←! get operation "type";
  if strictEq type (JStr "table_update") then
    otherType ←! get otherOperation "type";
    if strictEq otherType (JStr "table_update") then
      tableId ←! get operation "tableId";
      otherTableId ←! get otherOperation "tableId";
      if strictEq tableId otherTableId
      then mergeTableOperations alloc operation otherOperation
      else Normal operation
    else Normal operation
  else Normal operation.

End Merge.

(** Timestamps given as numbers: [new Date(n).getTime()] is [n] within the
    range of time values, [NaN] outside; other timestamps are left to the
    host. *)
Definition numericTime (v : JSValue) : option Z :=
  match v with
  | JNum z => if (Z.abs z <=? 8640000000000000)%Z then Some z else None
  | _ => None
  end.

(** *** Observations used in the statements *)

(** The subscribers of a topic, in subscription order. *)
Definition handlersOf (event : string) (c : Collab) : list Handler :=
  default [] (eventHandlers c !! event).

(** How many times [handler] is subscribed to [event]. *)
Definition registrations (event : string) (handler : Handler) (c : Collab) : nat :=
  length (filter (λ h, fn_ref h = fn_ref handler) (handlersOf event c)).

(** Spec-side reading of a well-formed cursor payload: an object with a
    non-empty string [userId]. *)
Definition hasStringUserId (data : JSValue) : Prop :=
  ∃ r props uid,
    data = JObj r props ∧ props !! "userId" = Some (JStr uid) ∧ uid ≠ "".

(** Decimal numerals, the keys of array and string indices. *)
Definition isDigit (c : ascii) : bool :=
  let n := nat_of_ascii c in (48 <=? n)%nat && (n <=? 57)%nat.

Fixpoint allDigits (s : string) : bool :=
  match s with
  | EmptyString => true
  | String c rest => isDigit c && allDigits rest
  end.

(** *** Example inputs *)

Definition alice : CollaborationUser :=
  {| id := "u1"; username := "alice"; role := editor; avatar := None;
     color := "#FF5733" |}.

Definition obj (ref : N) (fields : list (string * JSValue)) : JSValue :=
  JObj ref (list_to_map fields).

(** [{type: 'cursor_update', data: {userId: 42}}] *)
Definition cursorWithNumericUser : JSValue :=
  obj 1 [("type", JStr "cursor_update"); ("data", obj 2 [("userId", JNum 42)])].

(** Two updates of table [t1]; the first argument carries the later
    timestamp. *)
Definition dataLater : JSValue := obj 11 [("name", JStr "new")].
Definition dataEarlier : JSValue := obj 21 [("name", JStr "old")].

Definition opLater : JSValue :=
  obj 10 [("type", JStr "table_update"); ("tableId", JStr "t1");
          ("timestamp", JNum 2000); ("data", dataLater)].

Definition opEarlier : JSValue :=
  obj 20 [("type", JStr "table_update"); ("tableId", JStr "t1");
          ("timestamp", JNum 1000); ("data", dataEarlier)].

(** A subscriber that never throws, and a session where it listens for
    cursor updates. *)
Definition cursorOverlay : Handler := {| fn_ref := 1; fn_throws := λ _, false |}.

Definition listening : Collab := on "cursor_update" cursorOverlay fresh.


(** *** Further operations *)

(** What [getWebSocketUrl] reads from the host: [import.meta.env.DEV] and
    [window.location]. *)
Record Env := {
  DEV : bool;
  location_protocol : string;
  location_host : string
}.

(** [getWebSocketUrl(schemaId)] *)
Definition getWebSocketUrl (env : Env) (schema : string) : string :=
  if DEV env then "ws://localhost:5000/ws/collaboration/" ++ schema
  else
    let protocol :=
      if String.eqb (location_protocol env) "https:" then "wss:" else "ws:" in
    let host := location_host env in
    protocol ++ "//" ++ host ++ "/ws/collaboration/" ++ schema.

(** [isConnectedState()] *)
Definition isConnectedState (c : Collab) : bool :=
  isConnected c
  && match connectionId c with
     | Some cid => Transport.isConnected cid (service c)
     | None => false
     end.

(** [getConnectionState()] *)
Definition getConnectionState (c : Collab) : string :=
  match connectionId c with
  | Some cid =>
      if String.eqb cid "" then "CLOSED"
      else if isConnectedState c then "OPEN" else "CLOSED"
  | None => "CLOSED"
  end.

(** The [case] labels of [handleMessage]. *)
Definition knownTypes : list string :=
  ["connection_established"; "user_joined"; "user_left"; "cursor_update";
   "schema_change"; "user_selection"; "presence_update"; "pong"].

(** The labels whose payload is handed to subscribers. *)
Definition forwardedTypes : list string :=
  ["user_joined"; "user_left"; "cursor_update"; "schema_change";
   "user_selection"; "presence_update"].

(** The calls a step added to the record of subscriber calls. *)
Definition newCalls (c c' : Collab) : list (string * N * JSValue) :=
  drop (length (calls c)) (calls c').

(** [c'] differs from [c] at most in what was reported: the recorded
    subscriber calls and the console. *)
Definition onlyReports (c c' : Collab) : Prop :=
  connectionId c' = connectionId c ∧ currentUser c' = currentUser c
  ∧ schemaId c' = schemaId c ∧ eventHandlers c' = eventHandlers c
  ∧ isConnected c' = isConnected c
  ∧ isIntentionalDisconnect c' = isIntentionalDisconnect c
  ∧ service c' = service c.

(** A subscriber that throws on every payload. *)
Definition brokenHandler : Handler := {| fn_ref := 2; fn_throws := λ _, true |}.

(** A production host served over TLS. *)
Definition tlsHost : Env :=
  {| DEV := false; location_protocol := "https:"; location_host := "example.org" |}.


End Session.

(** ** The event bus of the session with subscribers that use it *)

(** [Session.on], [off] and [emit] above take subscribers that leave the
    bus alone.  A subscriber is a function of the application and may
    call [on] and [off] of the session while [emit] is calling it; [off]
    then splices the very array that [forEach] is walking.  This module
    is the bus with such subscribers; [Session]'s functions are its
    restriction to subscribers that make no such call. *)

Module Bus.
Import JS Session.

(** A call that a subscriber makes on the session while it runs. *)
Inductive Call (S : Type) :=
  | CallOn (event : string) (handler : S)
  | CallOff (event : string) (handler : N).
Arguments CallOn {S} event handler.
Arguments CallOff {S} event handler.

(** A subscriber: the reference of the function (what [indexOf]
    compares), whether a call on a payload ends by throwing, and the
    calls of [on] and [off] it makes during that call. *)
Inductive Subscriber :=
  | Sub (ref : N) (throws : JSValue → bool) (does : JSValue → list (Call Subscriber)).

Definition sub_ref (s : Subscriber) : N := match s with Sub ref _ _ => ref end.
Definition sub_throws (s : Subscriber) : JSValue → bool :=
  match s with Sub _ throws _ => throws end.
Definition sub_does (s : Subscriber) : JSValue → list (Call Subscriber) :=
  match s with Sub _ _ does => does end.

(** [this.eventHandlers], with the subscriber calls and the console
    lines of [emit]. *)
Record State := {
  handlers : gmap string (list Subscriber);
  calls : list (string * N * JSValue);
  console : list (Level * string)
}.

Definition empty : State := {| handlers := ∅; calls := []; console := [] |}.

Definition set_handlers (f : gmap string (list Subscriber) → gmap string (list Subscriber))
    (b : State) : State :=
  {| handlers := f (handlers b); calls := calls b; console := console b |}.

(** The array of a topic; a topic without array has no subscriber. *)
Definition subscribers (event : string) (b : State) : list Subscriber :=
  default [] (handlers b !! event).

(** [on(event, handler)] *)
Definition on (event : string) (handler : Subscriber) (b : State) : State :=
  set_handlers (λ m, <[event := (default [] (m !! event) ++ [handler])%list]> m) b.

(** [handlers.indexOf(handler)] *)
Fixpoint indexOf (handler : N) (l : list Subscriber) : option nat :=
  match l with
  | [] => None
  | s :: rest =>
      if (sub_ref s =? handler)%N then Some 0 else S <$> indexOf handler rest
  end.

(** [off(event, handler)]; [delete index] is [splice(index, 1)]. *)
Definition off (event : string) (handler : N) (b : State) : State :=
  match handlers b !! event with
  | Some l =>
      match indexOf handler l with
      | Some index => set_handlers <[event := delete index l]> b
      | None => b
      end
  | None => b
  end.

Definition perform (b : State) (c : Call Subscriber) : State :=
  match c with
  | CallOn event handler => on event handler b
  | CallOff event handler => off event handler b
  end.

(** The callback of [forEach] on one subscriber: the call, what the
    subscriber does to the bus, and the [console.error] of the [catch]
    when it throws. *)
Definition invoke (event : string) (data : JSValue) (s : Subscriber) (b : State) : State :=
  let b := {| handlers := handlers b;
              calls := (calls b ++ [(event, sub_ref s, data)])%list;
              console := console b |} in
  let b := foldl perform b (sub_does s data) in
  if sub_throws s data
  then {| handlers := handlers b; calls := calls b;
          console := (console b ++ [(LError, "Error in event handler for")])%list |}
  else b.

(** [handlers.forEach(callback)] from index [k], [len] indices to go:
    the length is read once, before the first call; an index is visited
    when the array still has it, with the element it holds then. *)
Fixpoint forEach (len k : nat) (event : string) (data : JSValue) (b : State) : State :=
  match len with
  | 0 => b
  | S len' =>
      let b := match subscribers event b !! k with
               | Some s => invoke event data s b
               | None => b
               end in
      forEach len' (S k) event data b
  end.

(** [emit(event, data)] *)
Definition emit (event : string) (data : JSValue) (b : State) : State :=
  match handlers b !! event with
  | Some (s :: rest) => forEach (length (s :: rest)) 0 event data b
  | _ => b
  end.

(** *** Observations used in the statements *)

(** How often the function [handler] is subscribed to the topic. *)
Definition registrations (event : string) (handler : N) (b : State) : nat :=
  length (filter (λ s, sub_ref s = handler) (subscribers event b)).

(** How often the function [handler] was called for the topic. *)
Definition callsTo (event : string) (handler : N)
    (l : list (string * N * JSValue)) : nat :=
  length (filter (λ e, e.1.1 = event ∧ e.1.2 = handler) l).

(** The subscriber makes no call of [on] or [off] on this payload. *)
Definition quiet (data : JSValue) (s : Subscriber) : Prop := sub_does s data = [].

(** A subscriber of [Session] seen as one of the bus, and a session seen
    as a bus. *)
Definition lift (h : Handler) : Subscriber :=
  Sub (fn_ref h) (fn_throws h) (λ _, []).

Definition busOf (c : Collab) : State :=
  {| handlers := (λ l : list Handler, lift <$> l) <$> eventHandlers c;
     calls := Session.calls c;
     console := Session.console c |}.

(** *** Example inputs *)

(** A subscriber of [cursor_update] that unsubscribes itself when it is
    called. *)
Definition once : Subscriber :=
  Sub 7 (λ _, false) (λ _, [CallOff "cursor_update" 7%N]).

(** The overlay of the layout, which makes no call. *)
Definition overlay : Subscriber := lift cursorOverlay.

End Bus.

(** ** Subscribers of the layout: the list of remote cursors *)

(** The two revisions of [MainLayout.tsx] keep the remote cursors in a
    React state updated through functional updaters [prev => next]; the
    updaters are the functions below. *)

Module Layout.
Import JS.

(** [CursorData] as the handlers build it. *)
Record CursorData := {
  userId : JSValue;
  username : JSValue;
  position : JSValue;
  color : JSValue;
  lastSeen : JSValue
}.

(** [a || b] *)
Definition orElse (a b : JSValue) : JSValue := if truthy a then a else b.

(** First revision, [handleCursorUpdate]: the updater drops the entries
    of the user and appends the new one, with defaults for missing
    fields.  [alloc] is the address of the default position literal and
    [now] is [new Date().toISOString()]. *)
Definition handleCursorUpdate (alloc : N) (now : string) (cursor : JSValue)
    (prev : list CursorData) : list CursorData :=
  if truthy cursor then
    match get cursor "userId", get cursor "username", get cursor "position",
          get cursor "color", get cursor "lastSeen" with
    | Normal uid, Normal name, Normal pos, Normal col, Normal seen =>
        if truthy uid then
          let filtered := filter (λ c, strictEq (userId c) uid = false) prev in
          (filtered ++ [{| userId := uid;
                           username := orElse name (JStr "Unknown");
                           position :=
                             orElse pos
                               (JObj alloc (<["x" := JNum 0]> (<["y" := JNum 0]> ∅)));
                           color := orElse col (JStr "#3B82F6");
                           lastSeen := orElse seen (JStr now) |}])%list
        else prev
    | _, _, _, _, _ => prev
    end
  else prev.

(** [handleUserLeft]: the updater drops the entries of the user. *)
Definition handleUserLeft (uid : JSValue) (prev : list CursorData) : list CursorData :=
  filter (λ c, strictEq (userId c) uid = false) prev.

(** [prev.findIndex(c => c.userId === uid)] *)
Fixpoint findIndex (uid : JSValue) (l : list CursorData) : option nat :=
  match l with
  | [] => None
  | c :: rest =>
      if strictEq (userId c) uid then Some 0
      else S <$> findIndex uid rest
  end.

Section SecondRevision.

(** [new Date(v)] of the host, as an opaque value. *)
Variable newDate : JSValue → JSValue.

(** Second revision, the subscriber of [cursor_update]: the entry of the
    user is replaced in place, or appended when the user has none.  The
    property reads throw on [null] and [undefined]. *)
Definition onCursorUpdate (cursor : JSValue) (prev : list CursorData)
  : Completion (list CursorData) :=
  match get cursor "userId", get cursor "username", get cursor "position",
        get cursor "color", get cursor "lastSeen" with
  | Normal uid, Normal name, Normal pos, Normal col, Normal seen =>
      let cd := {| userId := uid; username := name; position := pos;
                   color := col; lastSeen := newDate seen |} in
      match findIndex uid prev with
      | Some i => Normal (<[i := cd]> prev)
      | None => Normal (prev ++ [cd])%list
      end
  | _, _, _, _, _ => Throw TypeError
  end.

End SecondRevision.

(** No two entries of the list belong to the same user. *)
Fixpoint distinctUsers (l : list CursorData) : Prop :=
  match l with
  | [] => True
  | c :: rest =>
      Forall (λ c', strictEq (userId c) (userId c') = false) rest
      ∧ distinctUsers rest
  end.

(** How many entries the user has. *)
Definition entriesOf (uid : JSValue) (l : list CursorData) : nat :=
  length (filter (λ c, strictEq (userId c) uid = true) l).

(** The entries of everybody else, in order. *)
Definition others (uid : JSValue) (l : list CursorData) : list CursorData :=
  filter (λ c, strictEq (userId c) uid = false) l.

(** Example inputs. *)
Definition cursorOf (ref : N) (uid : string) (x : Z) : JSValue :=
  JObj ref (<["userId" := JStr uid]> (<["position" := JNum x]> ∅)).

Definition bobCursor : CursorData :=
  {| userId := JStr "bob"; username := JStr "Unknown"; position := JNum 1;
     color := JStr "#3B82F6"; lastSeen := JStr "t0" |}.

End Layout.

(** ** The session on top of the connection manager: [connect()] and
    [disconnect()] *)

(** [CollaborationService.connect] passes four closures to the connection
    manager and returns a promise; [disconnect] and the [onOpen] closure
    set timers.  The closures capture [this] and the [resolve] and
    [reject] of their promise, so they are functions of the session and
    of the number [k] of that promise.  None of them calls the connection
    manager synchronously, so running a closure when the handler of the
    connection manager that invoked it has finished gives the state the
    source reaches.  The session is the only caller of the connection
    manager, as it is in the repository. *)

Module Lifecycle.
Import JS Wire Session.

Definition set_connectionId (v : option string) (c : Collab) : Collab :=
  {| connectionId := v; currentUser := currentUser c;
     schemaId := schemaId c; eventHandlers := eventHandlers c;
     isConnected := isConnected c;
     isIntentionalDisconnect := isIntentionalDisconnect c;
     service := service c; calls := calls c; console := console c |}.

Definition set_isConnected (b : bool) (c : Collab) : Collab :=
  {| connectionId := connectionId c; currentUser := currentUser c;
     schemaId := schemaId c; eventHandlers := eventHandlers c;
     isConnected := b;
     isIntentionalDisconnect := isIntentionalDisconnect c;
     service := service c; calls := calls c; console := console c |}.

Definition set_isIntentionalDisconnect (b : bool) (c : Collab) : Collab :=
  {| connectionId := connectionId c; currentUser := currentUser c;
     schemaId := schemaId c; eventHandlers := eventHandlers c;
     isConnected := isConnected c;
     isIntentionalDisconnect := b;
     service := service c; calls := calls c; console := console c |}.

(** [this.connectionId] where the code tests it for truthiness: [null]
    and the empty string do not pass. *)
Definition heldId (c : Collab) : option string :=
  match connectionId c with
  | Some cid => if String.eqb cid "" then None else Some cid
  | None => None
  end.

(** The timers of the session: the 200 ms timer that [onOpen] sets for
    the join message and the 100 ms timer that [disconnect] sets before
    it lets go of the connection. *)
Inductive TimerKind := JoinTimer | LeaveTimer.

(** A call of [resolve] or of [reject]. *)
Inductive Settle := Resolve | Reject.

Global Instance Settle_eq_dec : EqDecision Settle.
Proof. solve_decision. Defined.

(** The session, its timers (with whether each has fired), the number of
    promises [connect()] has returned, and the calls of their [resolve]
    and [reject], in order. *)
Record World := {
  session : Collab;
  timeouts : list (TimerKind * bool);
  promises : nat;
  settled : list (N * Settle)
}.

Definition fresh : World :=
  {| session := Session.fresh; timeouts := []; promises := 0; settled := [] |}.

Definition with_session (f : Collab → Collab) (w : World) : World :=
  {| session := f (session w); timeouts := timeouts w; promises := promises w;
     settled := settled w |}.

(** [setTimeout(callback, delay)] *)
Definition setTimeout (kind : TimerKind) (w : World) : World :=
  {| session := session w; timeouts := (timeouts w ++ [(kind, false)])%list;
     promises := promises w; settled := settled w |}.

(** [resolve()] or [reject(error)] of promise [k]. *)
Definition settle (k : N) (s : Settle) (w : World) : World :=
  {| session := session w; timeouts := timeouts w; promises := promises w;
     settled := (settled w ++ [(k, s)])%list |}.

(** [new Promise(...)]: the executor runs with the next number. *)
Definition newPromise (w : World) : World :=
  {| session := session w; timeouts := timeouts w; promises := S (promises w);
     settled := settled w |}.

(** A promise keeps its first settlement. *)
Definition outcome (k : N) (w : World) : option Settle :=
  snd <$> head (filter (λ e, e.1 = k) (settled w)).

(** The [options] literal of [connect()]. *)
Definition sessionOptions (k : N) (c : Collab) : Transport.Options :=
  {| Transport.onOpen := Some k; Transport.onMessage := Some k;
     Transport.onClose := Some k; Transport.onError := Some k;
     Transport.enableReconnect := Some (negb (isIntentionalDisconnect c)) |}.

(** *** The closures of [connect()] *)

(** [onOpen] *)
Definition onOpen (k : N) (w : World) : World :=
  let w := with_session
             (λ c, set_isConnected true
                     (print LLog "Collaboration WebSocket connected successfully" c))
             w in
  let w := setTimeout JoinTimer w in
  let w := with_session (emit "connected" JUndefined) w in
  settle k Resolve w.

(** [onMessage].  [handleMessage] throws only when it reads [type] from
    [null] or [undefined], before it has done anything; the exception
    goes to the [catch] of the message event. *)
Definition onMessage (message : JSValue) (w : World) : World :=
  match handleMessage message (session w) with
  | Normal c => with_session (λ _, c) w
  | Throw _ => w
  end.

(** [onClose] *)
Definition onClose (w : World) : World :=
  with_session
    (λ c, emit "disconnected" JUndefined
            (set_isConnected false
               (print LLog "Collaboration WebSocket disconnected" c)))
    w.

(** [onError]; [error] is the event object of the host. *)
Definition onError (k : N) (error : JSValue) (w : World) : World :=
  settle k Reject
    (with_session
       (λ c, emit "error" error (print LError "Collaboration WebSocket error:" c))
       w).

(** The callback of the join timer.  With no user bound the read of
    [this.currentUser!.id] throws in the timer, before anything is done.
    A join message whose [schemaId] is [null] has no [Envelope]: the
    result is [None] there, a case that no run from a new session meets. *)
Definition joinCallback (c : Collab) : option Collab :=
  if isConnected c && bool_decide (is_Some (heldId c)) then
    match currentUser c with
    | Some user =>
        schema ← schemaId c;
        Some (sendMessage (UserJoin (id user) (username user) schema) c)
    | None => Some c
    end
  else Some c.

(** The callback of the leave timer. *)
Definition leaveCallback (c : Collab) : Collab :=
  match heldId c with
  | Some cid => set_connectionId None (set_service (Transport.disconnect cid) c)
  | None => c
  end.

Section Lifecycle.

Variable validUrl : string → bool.
Variable env : Env.

(** [connect()]: the executor of the promise. *)
Definition connect (now : N) (w : World) : World :=
  let k := N.of_nat (promises w) in
  let w := newPromise w in
  let c := session w in
  match currentUser c, schemaId c with
  | Some _, Some schema =>
      if String.eqb schema "" then
        settle k Reject (with_session (print LError "Connection failed:") w)
      else if isConnected c && bool_decide (is_Some (heldId c)) then
        settle k Resolve (with_session (print LLog "WebSocket already connected") w)
      else
        let url := getWebSocketUrl env schema in
        let c := print LLog "Connecting to WebSocket via SimpleWebSocketService:" c in
        match Transport.connect validUrl now url (sessionOptions k c) (service c) with
        | (st, Normal cid) =>
            with_session (λ _, set_connectionId (Some cid) (set_service (λ _, st) c)) w
        | (st, Throw _) =>
            settle k Reject
              (with_session
                 (λ _, print LError "Failed to create WebSocket:"
                         (set_service (λ _, st) c))
                 w)
        end
  | _, _ => settle k Reject (with_session (print LError "Connection failed:") w)
  end.

(** [disconnect()] *)
Definition disconnect (w : World) : World :=
  let w := with_session (set_isIntentionalDisconnect true) w in
  let c := session w in
  let w :=
    match heldId c with
    | Some cid =>
        match currentUser c with
        | Some user =>
            if isConnected c then
              setTimeout LeaveTimer
                (with_session (sendMessage (UserLeave (id user) (schemaId c))) w)
            else with_session leaveCallback w
        | None => with_session leaveCallback w
        end
    | None => w
    end in
  with_session
    (λ c, print LLog "Disconnected from Collaboration WebSocket"
            (set_isConnected false c))
    w.

(** *** The host *)

(** The callbacks a handler of the connection manager invoked. *)
Definition invoked (st st' : Transport.Service) : list Transport.Callback :=
  drop (length (Transport.callbacks st)) (Transport.callbacks st').

(** The closure behind a callback of the session's options. *)
Definition deliver (error : JSValue) (w : World) (cb : Transport.Callback) : World :=
  match cb with
  | Transport.CbOpen k => onOpen k w
  | Transport.CbMessage _ data => onMessage data w
  | Transport.CbClose _ => onClose w
  | Transport.CbError k => onError k error w
  end.

(** A handler [f] of the connection manager runs, with the closures it
    invokes. *)
Definition handler (error : JSValue) (f : Transport.Service → Transport.Service)
    (w : World) : World :=
  let st := service (session w) in
  let st' := f st in
  foldl (deliver error) (with_session (set_service (λ _, st')) w) (invoked st st').

(** The host fires timer [i] of the session. *)
Definition fire (i : nat) (w : World) : option World :=
  match timeouts w !! i with
  | Some (kind, false) =>
      let w := {| session := session w; timeouts := <[i := (kind, true)]> (timeouts w);
                  promises := promises w; settled := settled w |} in
      match kind with
      | JoinTimer => c ← joinCallback (session w); Some (with_session (λ _, c) w)
      | LeaveTimer => Some (with_session leaveCallback w)
      end
  | _ => Some w
  end.

(** A call that throws to its caller before it has done anything. *)
Definition attempt (r : Completion Collab) (w : World) : World :=
  match r with
  | Normal c => with_session (λ _, c) w
  | Throw _ => w
  end.

(** What happens to a session: the calls of its users and the events of
    the host on the sockets and timers made for it. *)
Inductive Act :=
  | Initialize (user : CollaborationUser) (schema : string)
  | Connect (now : N)
  | Disconnect
  | On (event : string) (handler : Handler)
  | Off (event : string) (handler : Handler)
  | SendCursorUpdate (position : JSValue) (lastSeen : string)
  | SendSchemaChange (change : SchemaChange) (timestamp : string)
  | SendUserSelection (selection : JSValue) (timestamp : string)
  | UpdatePresence (status : Presence) (currentAction : option string)
      (timestamp : string)
  | SocketOpen (h : nat)
  | SocketMessage (h : nat) (parsed : option JSValue)
  | SocketError (h : nat) (error : JSValue)
  | SocketClose (h : nat) (code : Z) (wasClean : bool) (rnd : Q)
  | RetryTimer (t : nat) (now : N)
  | SessionTimer (i : nat).

Definition step (a : Act) (w : World) : option World :=
  match a with
  | Initialize user schema => Some (with_session (initialize user schema) w)
  | Connect now => Some (connect now w)
  | Disconnect => Some (disconnect w)
  | On event h => Some (with_session (on event h) w)
  | Off event h => Some (with_session (off event h) w)
  | SendCursorUpdate position lastSeen =>
      Some (attempt (sendCursorUpdate position lastSeen (session w)) w)
  | SendSchemaChange change timestamp =>
      Some (attempt (sendSchemaChange change timestamp (session w)) w)
  | SendUserSelection selection timestamp =>
      Some (attempt (sendUserSelection selection timestamp (session w)) w)
  | UpdatePresence status currentAction timestamp =>
      Some (attempt (updatePresence status currentAction timestamp (session w)) w)
  | SocketOpen h => Some (handler JUndefined (Transport.socket_onopen h) w)
  | SocketMessage h parsed =>
      Some (handler JUndefined (Transport.socket_onmessage h parsed) w)
  | SocketError h error => Some (handler error (Transport.socket_onerror h) w)
  | SocketClose h code wasClean rnd =>
      Some (handler JUndefined (Transport.socket_onclose h code wasClean rnd) w)
  | RetryTimer t now =>
      Some (handler JUndefined (Transport.timer_fire validUrl t now) w)
  | SessionTimer i => fire i w
  end.

Fixpoint run (acts : list Act) (w : World) : option World :=
  match acts with
  | [] => Some w
  | a :: rest => w' ← step a w; run rest w'
  end.

End Lifecycle.

(** *** Observations used in the statements *)

(** A user and a non-empty schema id are bound. *)
Definition bound (c : Collab) : Prop :=
  is_Some (currentUser c) ∧ ∃ schema, schemaId c = Some schema ∧ schema ≠ "".

(** [c'] has the user, the schema id and the disconnect flag of [c]. *)
Definition sameBinding (c c' : Collab) : Prop :=
  currentUser c' = currentUser c ∧ schemaId c' = schemaId c
  ∧ isIntentionalDisconnect c' = isIntentionalDisconnect c.

(** The same of the sessions of two worlds. *)
Definition keeps (w w' : World) : Prop := sameBinding (session w) (session w').

(** A user and a schema id are set. *)
Definition attached (c : Collab) : Prop :=
  is_Some (currentUser c) ∧ is_Some (schemaId c).

(** Nothing has been opened for the session. *)
Definition idle (c : Collab) : Prop :=
  Transport.sockets (service c) = [] ∧ Transport.timers (service c) = []
  ∧ isConnected c = false.

(** *** Example inputs *)

Definition devHost : Env :=
  {| DEV := true; location_protocol := "http:"; location_host := "localhost:5173" |}.

(** The session after the connection manager has retried on its own:
    the first socket fails, the retry timer fires, the second opens. *)
Definition retriedActs : list Act :=
  [Initialize alice "r1"; Connect 1000; SocketOpen 0;
   SocketClose 0 1011 false (1 # 2); RetryTimer 0 5000; SocketOpen 1].

Definition retried : World :=
  default fresh (run Transport.wsScheme devHost retriedActs fresh).

(** [alice] leaves room [r1] and enters room [r2] at once; then the
    leave timer of [disconnect()] fires (timer 0 is the join timer). *)
Definition changedRoomActs : list Act :=
  [Initialize alice "r1"; Connect 1000; SocketOpen 0; Disconnect;
   Initialize alice "r2"; Connect 2000; SessionTimer 1].

End Lifecycle.

(** * Properties of the session *)

Module SessionProps.
Import JS Wire Session.
Local Open Scope list_scope.

(** ** Event bus *)

Lemma calls_foldl_callHandler event data hs c :
  calls (foldl (callHandler event data) c hs)
  = (calls c ++ map (λ h, (event, fn_ref h, data)) hs)%list.
Proof.
  revert c. induction hs as [|h hs IH]; intros c; simpl.
  - by rewrite app_nil_r.
  - rewrite IH. unfold callHandler.
    destruct (fn_throws h data); simpl; by rewrite <- app_assoc.
Qed.

Lemma calls_emit event data c :
  calls (emit event data c)
  = (calls c ++ map (λ h, (event, fn_ref h, data)) (handlersOf event c))%list.
Proof.
  unfold emit, handlersOf.
  destruct (eventHandlers c !! event) as [[|h hs]|] eqn:E.
  - simpl. by rewrite app_nil_r.
  - exact (calls_foldl_callHandler event data (h :: hs) c).
  - simpl. by rewrite app_nil_r.
Qed.

Lemma handlersOf_on event handler c :
  handlersOf event (on event handler c) = (handlersOf event c ++ [handler])%list.
Proof. unfold handlersOf, on. simpl. by rewrite lookup_insert_eq. Qed.

Lemma handlersOf_off event handler c :
  handlersOf event (off event handler c) = spliceFirst handler (handlersOf event c).
Proof.
  unfold handlersOf, off.
  destruct (eventHandlers c !! event) as [hs|] eqn:E; simpl.
  - by rewrite lookup_insert_eq.
  - by rewrite E.
Qed.

(** On a new session: two registrations, two calls per [emit]; after one
    [off], one call per [emit]. *)
Example subscribed_twice_called_twice :
  let c2 := on "cursor_update" cursorOverlay listening in
  calls (emit "cursor_update" JNull c2)
  = [("cursor_update", 1%N, JNull); ("cursor_update", 1%N, JNull)]
  ∧ calls (emit "cursor_update" JNull (off "cursor_update" cursorOverlay c2))
    = [("cursor_update", 1%N, JNull)].
Proof. split; reflexivity. Qed.

(** ** Inbound [cursor_update] *)

Lemma isDigit_pretty_N_char x : isDigit (pretty_N_char x) = true.
Proof. unfold pretty_N_char. by repeat case_match. Qed.

Lemma allDigits_pretty_N_go x s :
  allDigits s = true → allDigits (pretty_N_go x s) = true.
Proof.
  revert s. induction (N.lt_wf_0 x) as [x _ IH]; intros s Hs.
  assert (x = 0 ∨ 0 < x)%N as [->|Hx] by lia.
  - by rewrite pretty_N_go_0.
  - rewrite pretty_N_go_step by done. apply IH.
    + by apply N.div_lt.
    + simpl. by rewrite isDigit_pretty_N_char, Hs.
Qed.

Lemma allDigits_pretty_nat (i : nat) : allDigits (pretty i) = true.
Proof.
  unfold pretty, pretty_nat, pretty, pretty_N.
  case_decide; [done|]. by apply allDigits_pretty_N_go.
Qed.

(** Array and string indices are decimal numerals: no other key is an
    own property. *)
Lemma indexed_lookup_name (l : list JSValue) (k : string) :
  allDigits k = false → indexed l !! k = None.
Proof.
  intros Hk. unfold indexed. apply not_elem_of_list_to_map.
  intros Hin. apply list_elem_of_fmap in Hin as [[k' v] [-> Hin]].
  apply elem_of_lookup_imap in Hin as (i & x & Heq & _).
  simpl in Hk. injection Heq as -> _.
  by rewrite allDigits_pretty_nat in Hk.
Qed.

(** Only an object literal has a named own property. *)
Lemma get_named_Some (v r : JSValue) (k : string) :
  allDigits k = false → String.eqb k "length" = false →
  r ≠ JUndefined → get v k = Normal r →
  ∃ ref props, v = JObj ref props ∧ props !! k = Some r.
Proof.
  intros Hk Hlen Hr Hget. destruct v; cbn [get] in Hget; try congruence.
  - rewrite Hlen in Hget. rewrite (indexed_lookup_name _ _ Hk) in Hget.
    simpl in Hget. congruence.
  - rewrite Hlen in Hget. rewrite (indexed_lookup_name _ _ Hk) in Hget.
    simpl in Hget. congruence.
  - eexists _, _. split; [done|].
    destruct (props !! k); simpl in Hget; congruence.
Qed.

Lemma emit_console_calls_warn c :
  calls (warnInvalidCursor (print LLog "Received collaboration message:" c)) = calls c
  ∧ console (warnInvalidCursor (print LLog "Received collaboration message:" c))
    = console c ++ [(LLog, "Received collaboration message:");
                    (LWarn, "Invalid cursor_update message structure:")].
Proof. split; [done|]. simpl. by rewrite <- app_assoc. Qed.

(** C6. On an inbound envelope whose [type] is [cursor_update] the
    handler completes normally.  When the [data] payload is an object with
    a non-empty string [userId], it is handed to every [cursor_update]
    subscriber, in subscription order, and to nobody else; when it is not,
    no subscriber of any topic is called and the envelope is only reported
    with a warning. *)
Theorem cursor_update_guard (c : Collab) (message : JSValue) :
  get message "type" = Normal (JStr "cursor_update") →
  ∃ data c',
    get message "data" = Normal data
    ∧ handleMessage message c = Normal c'
    ∧ ((hasStringUserId data
        ∧ calls c' = calls c ++ map (λ h, ("cursor_update", fn_ref h, data))
                                  (handlersOf "cursor_update" c))
       ∨ (¬ hasStringUserId data
          ∧ calls c' = calls c
          ∧ console c' = console c ++
              [(LLog, "Received collaboration message:");
               (LWarn, "Invalid cursor_update message structure:")])).
Proof.
  intros Htype.
  destruct (get_named_Some message (JStr "cursor_update") "type"
              eq_refl eq_refl ltac:(done) Htype)
    as (ref & props & -> & Hprops).
  exists (default JUndefined (props !! "data")).
  unfold handleMessage. rewrite Htype. cbn [bind get].
  set (data := default JUndefined (props !! "data")).
  set (c0 := print LLog "Received collaboration message:" c).
  assert (Hbad : ¬ hasStringUserId data →
    ∃ c', Normal (warnInvalidCursor c0) = Normal c' ∧
      ((hasStringUserId data
        ∧ calls c' = calls c ++ map (λ h, ("cursor_update", fn_ref h, data))
                                  (handlersOf "cursor_update" c))
       ∨ (¬ hasStringUserId data ∧ calls c' = calls c
          ∧ console c' = console c ++
              [(LLog, "Received collaboration message:");
               (LWarn, "Invalid cursor_update message structure:")]))).
  { intros Hno. eexists. split; [done|]. right. split; [done|].
    apply emit_console_calls_warn. }
  assert (Hnotobj : (∀ r p, data ≠ JObj r p) → ¬ hasStringUserId data).
  { intros Hne (r & p & uid & Hd & _). by eapply Hne. }
  destruct data as [| |b| |z|s|r elts|r dprops] eqn:Hdata.
  1-6: (destruct (Hbad ltac:(by apply Hnotobj)) as (c' & Hc' & Hres);
        exists c'; split; [done|]; split; [|done];
        cbn; try destruct b; try destruct (z =? 0)%Z;
        try destruct (String.eqb s ""); cbn; exact Hc').
  - (* an array has no [userId] *)
    destruct (Hbad ltac:(by apply Hnotobj)) as (c' & Hc' & Hres).
    exists c'. split; [done|]. split; [|done].
    cbn -[indexed]. rewrite indexed_lookup_name by done. cbn. exact Hc'.
  - cbn [truthy typeof String.eqb Ascii.eqb Bool.eqb andb get bind].
    destruct (dprops !! "userId") as [u|] eqn:Hu; cbn [default].
    + destruct u as [| |b| |z|uid|? ?|? ?].
      6: { destruct (String.eqb_spec uid "") as [->|Hne].
           - destruct Hbad as (c' & Hc' & Hres).
             { intros (r' & p' & uid' & [= <- <-] & Hu' & Hne').
               rewrite Hu in Hu'. by injection Hu' as <-. }
             exists c'. split; [done|]. split; [|done]. cbn. exact Hc'.
           - eexists. split; [done|]. split; [cbn; rewrite (proj2 (String.eqb_neq _ _) Hne); reflexivity|].
             left. split.
             + exists r, dprops, uid. done.
             + by rewrite calls_emit. }
      all: destruct Hbad as (c' & Hc' & Hres);
        [ intros (r' & p' & uid' & [= <- <-] & Hu' & Hne');
          rewrite Hu in Hu'; discriminate
        | exists c'; split; [done|]; split; [|done];
          cbn; try destruct b; try destruct (z =? 0)%Z; cbn; exact Hc' ].
    + destruct Hbad as (c' & Hc' & Hres).
      { intros (r' & p' & uid' & [= <- <-] & Hu' & Hne').
        rewrite Hu in Hu'; discriminate. }
      exists c'. split; [done|]. split; [|done]. cbn. exact Hc'.
Qed.

(** A [cursor_update] whose [userId] is a number, with a subscriber
    listening. *)
Lemma cursor_update_guard_witness :
  get cursorWithNumericUser "type" = Normal (JStr "cursor_update")
  ∧ ∃ data c',
      get cursorWithNumericUser "data" = Normal data
      ∧ handleMessage cursorWithNumericUser listening = Normal c'
      ∧ ((hasStringUserId data
          ∧ calls c' = calls listening
                       ++ map (λ h, ("cursor_update", fn_ref h, data))
                            (handlersOf "cursor_update" listening))
         ∨ (¬ hasStringUserId data
            ∧ calls c' = calls listening
            ∧ console c' = console listening ++
                [(LLog, "Received collaboration message:");
                 (LWarn, "Invalid cursor_update message structure:")])).
Proof.
  split; [reflexivity|].
  apply (cursor_update_guard listening cursorWithNumericUser). reflexivity.
Defined.

(** The payload [{userId: 42}] is dropped although a subscriber listens. *)
Example numeric_userId_dropped :
  ∃ c', handleMessage cursorWithNumericUser listening = Normal c'
        ∧ calls c' = [].
Proof. eexists. split; reflexivity. Qed.

(** ** Conflict resolution *)

(** C7. [resolveConflict] returns its second argument, the remote change,
    whatever the local change is. *)
Theorem resolveConflict_returns_remote (localChange remoteChange : JSValue) :
  resolveConflict localChange remoteChange = remoteChange.
Proof. reflexivity. Qed.


(** The value a key gets from an object literal with two spreads,
    [{...a, ...b}]: the one of [b] when [b] has the key. *)
Lemma spread_lookup (a b : JSValue) (k : string) :
  (ownProps b ∪ ownProps a) !! k
  = match ownProps b !! k with
    | Some v => Some v
    | None => ownProps a !! k
    end.
Proof.
  rewrite lookup_union. destruct (ownProps b !! k), (ownProps a !! k); done.
Qed.

Lemma strictEq_table_update (v : JSValue) :
  strictEq v (JStr "table_update") = true ↔ v = JStr "table_update".
Proof.
  split; [|by intros ->].
  destruct v; simpl; try done. intros H. f_equal. by apply String.eqb_eq.
Qed.

(** C8 (as amended). For two object operations, [transformOperation]
    merges exactly when both have [type] ['table_update'] and their
    [tableId]s are strictly equal.  The result is then a new object with
    the fields of the first operation and a new [data]: every key other
    than [lastModified] has the value of the second operation's data when
    that has the key (whatever the two timestamps are), and the value of
    the first operation's data otherwise; [lastModified] is the larger of
    the two epoch times when both timestamps are valid dates ([NaN]
    otherwise).  In every other case the first operation itself is
    returned. *)
Theorem transformOperation_second_wins
    (getTime : JSValue → option Z) (alloc r1 r2 : N)
    (p1 p2 : gmap string JSValue) :
  let field (p : gmap string JSValue) k := default JUndefined (p !! k) in
  let op1 := JObj r1 p1 in
  let op2 := JObj r2 p2 in
  (field p1 "type" = JStr "table_update"
   ∧ field p2 "type" = JStr "table_update"
   ∧ strictEq (field p1 "tableId") (field p2 "tableId") = true
   ∧ ∃ data,
       transformOperation getTime alloc op1 op2
       = Normal (JObj alloc (<["data" := JObj (alloc + 1) data]> p1))
       ∧ (∀ k, k ≠ "lastModified" →
            data !! k = match ownProps (field p2 "data") !! k with
                        | Some v => Some v
                        | None => ownProps (field p1 "data") !! k
                        end)
       ∧ data !! "lastModified"
         = Some (mathMax (getTime (field p1 "timestamp"))
                         (getTime (field p2 "timestamp")))
       ∧ ∀ t1 t2,
           getTime (field p1 "timestamp") = Some t1 →
           getTime (field p2 "timestamp") = Some t2 →
           data !! "lastModified" = Some (JNum (Z.max t1 t2)))
  ∨ (¬ (field p1 "type" = JStr "table_update"
        ∧ field p2 "type" = JStr "table_update"
        ∧ strictEq (field p1 "tableId") (field p2 "tableId") = true)
     ∧ transformOperation getTime alloc op1 op2 = Normal op1).
Proof.
  intros field op1 op2. unfold transformOperation, op1, op2. cbn [get bind].
  fold (field p1 "type") (field p2 "type") (field p1 "tableId") (field p2 "tableId").
  destruct (strictEq (field p1 "type") (JStr "table_update")) eqn:E1.
  2: { right. split; [|done]. intros (H & _).
       apply strictEq_table_update in H. congruence. }
  destruct (strictEq (field p2 "type") (JStr "table_update")) eqn:E2.
  2: { right. split; [|done]. intros (_ & H & _).
       apply strictEq_table_update in H. congruence. }
  destruct (strictEq (field p1 "tableId") (field p2 "tableId")) eqn:E3.
  2: { right. split; [|done]. intros (_ & _ & H). congruence. }
  left. apply strictEq_table_update in E1, E2.
  split_and!; try done.
  unfold mergeTableOperations. cbn [get bind ownProps].
  fold (field p1 "data") (field p2 "data")
       (field p1 "timestamp") (field p2 "timestamp").
  eexists. split; [reflexivity|]. split_and!.
  - intros k Hk. rewrite lookup_insert_ne by done. apply spread_lookup.
  - by rewrite lookup_insert_eq.
  - intros t1 t2 -> ->. by rewrite lookup_insert_eq.
Qed.

(** Counterexample to C8 as stated: the two operations update the same
    table, the first argument has the later timestamp (2000 against 1000)
    and sets [name] to ["new"], yet the merged [data] holds the earlier
    operation's ["old"]. *)
Lemma transformOperation_keeps_earlier_value :
  numericTime (JNum 2000) = Some 2000%Z
  ∧ numericTime (JNum 1000) = Some 1000%Z
  ∧ ownProps dataLater !! "name" = Some (JStr "new")
  ∧ ownProps dataEarlier !! "name" = Some (JStr "old")
  ∧ ∃ props data,
      transformOperation numericTime 30 opLater opEarlier = Normal (JObj 30 props)
      ∧ props !! "data" = Some (JObj 31 data)
      ∧ data !! "lastModified" = Some (JNum 2000)
      ∧ data !! "name" = Some (JStr "old")
      ∧ data !! "name" ≠ ownProps dataLater !! "name".
Proof.
  split_and!; try done.
  eexists _, _. split; [reflexivity|]. split_and!; done.
Qed.

(** ** Outbound messages *)

(** Once a user is bound, the four senders complete normally; when the
    session is not connected they leave everything but the console as it
    was. *)
Lemma senders_after_initialize (c : Collab) (user : CollaborationUser)
    (position selection : JSValue) (change : SchemaChange)
    (status : Presence) (action : option string) (ts : string) :
  currentUser c = Some user →
  is_normal (sendCursorUpdate position ts c) = true
  ∧ is_normal (sendSchemaChange change ts c) = true
  ∧ is_normal (sendUserSelection selection ts c) = true
  ∧ is_normal (updatePresence status action ts c) = true.
Proof.
  intros Hu. unfold sendCursorUpdate, sendSchemaChange, sendUserSelection,
    updatePresence, currentUserId. by rewrite Hu.
Qed.

Lemma sendMessage_disconnected (c : Collab) (message : Envelope) :
  isConnected c = false →
  service (sendMessage message c) = service c
  ∧ calls (sendMessage message c) = calls c
  ∧ console (sendMessage message c)
    = console c ++ [(LWarn, "WebSocket not connected or ready, message not sent:")].
Proof.
  intros Hc. unfold sendMessage. rewrite Hc.
  destruct (connectionId c) as [cid|]; [|done].
  by rewrite andb_false_r.
Qed.

(** C9 (the code departs from it). On a session that was never
    initialized, [sendSchemaChange], [sendUserSelection] and
    [updatePresence] raise a [TypeError] while building the envelope;
    only [sendCursorUpdate] checks for a bound user and returns after a
    warning. *)
Theorem senders_throw_before_initialize
    (position selection : JSValue) (change : SchemaChange)
    (status : Presence) (action : option string) (ts : string) :
  sendSchemaChange change ts fresh = Throw TypeError
  ∧ sendUserSelection selection ts fresh = Throw TypeError
  ∧ updatePresence status action ts fresh = Throw TypeError
  ∧ sendCursorUpdate position ts fresh
    = Normal (print LWarn "Cannot send cursor update: no current user" fresh).
Proof. done. Qed.

End SessionProps.

(** * Properties of the event bus *)

Module BusLaws.
Import JS Session.
Local Open Scope list_scope.

Lemma subscribers_on event s b :
  Bus.subscribers event (Bus.on event s b) = Bus.subscribers event b ++ [s].
Proof. unfold Bus.subscribers, Bus.on. simpl. by rewrite lookup_insert_eq. Qed.

Lemma subscribers_on_ne event event' s b :
  event' ≠ event →
  Bus.subscribers event' (Bus.on event s b) = Bus.subscribers event' b.
Proof.
  intros Hne. unfold Bus.subscribers, Bus.on. simpl.
  by rewrite lookup_insert_ne.
Qed.

(** [indexOf] finds the first entry that is the function. *)
Lemma indexOf_Some handler l i :
  Bus.indexOf handler l = Some i →
  ∃ pre x post,
    l = pre ++ x :: post ∧ length pre = i ∧ Bus.sub_ref x = handler
    ∧ Forall (λ y, Bus.sub_ref y ≠ handler) pre.
Proof.
  revert i. induction l as [|s l IH]; intros i; simpl; [done|].
  destruct (N.eqb_spec (Bus.sub_ref s) handler) as [Heq|Hne].
  - intros [= <-]. by exists [], s, l.
  - destruct (Bus.indexOf handler l) as [j|]; simpl; [|done].
    intros [= <-]. destruct (IH j eq_refl) as (pre & x & post & -> & <- & Hx & Hpre).
    exists (s :: pre), x, post. split_and!; try done. by constructor.
Qed.

Lemma indexOf_None handler l :
  Bus.indexOf handler l = None → Forall (λ y, Bus.sub_ref y ≠ handler) l.
Proof.
  induction l as [|s l IH]; simpl; [done|].
  destruct (N.eqb_spec (Bus.sub_ref s) handler) as [Heq|Hne]; [done|].
  destruct (Bus.indexOf handler l); simpl; [done|].
  intros _. constructor; [done|by apply IH].
Qed.

Lemma indexOf_first handler pre x post :
  Bus.sub_ref x = handler → Forall (λ y, Bus.sub_ref y ≠ handler) pre →
  Bus.indexOf handler (pre ++ x :: post) = Some (length pre).
Proof.
  intros Hx. induction 1 as [|y pre Hy Hpre IH]; simpl.
  - by rewrite (proj2 (N.eqb_eq _ _) Hx).
  - rewrite (proj2 (N.eqb_neq _ _) Hy), IH. done.
Qed.

Lemma subscribers_off event handler b :
  Bus.subscribers event (Bus.off event handler b)
  = match Bus.indexOf handler (Bus.subscribers event b) with
    | Some index => delete index (Bus.subscribers event b)
    | None => Bus.subscribers event b
    end.
Proof.
  unfold Bus.subscribers, Bus.off.
  destruct (Bus.handlers b !! event) as [l|] eqn:Hl; simpl; [|by rewrite Hl].
  destruct (Bus.indexOf handler l); simpl; [|by rewrite Hl].
  by rewrite lookup_insert_eq.
Qed.

Lemma subscribers_off_ne event event' handler b :
  event' ≠ event →
  Bus.subscribers event' (Bus.off event handler b) = Bus.subscribers event' b.
Proof.
  intros Hne. unfold Bus.subscribers, Bus.off.
  destruct (Bus.handlers b !! event) as [l|]; [|done].
  destruct (Bus.indexOf handler l); [|done]. simpl.
  by rewrite lookup_insert_ne.
Qed.

Lemma delete_middle {A} (pre post : list A) (x : A) :
  delete (length pre) (pre ++ x :: post) = pre ++ post.
Proof. induction pre as [|y pre IH]; simpl; [done|]. by rewrite IH. Qed.

(** While the subscribers of the topic are quiet, [forEach] calls the
    entries from [k] on, one after the other. *)
Lemma forEach_quiet event data len k b :
  Forall (Bus.quiet data) (Bus.subscribers event b) →
  let visited := take len (drop k (Bus.subscribers event b)) in
  let b' := Bus.forEach len k event data b in
  Bus.handlers b' = Bus.handlers b
  ∧ Bus.calls b'
    = Bus.calls b ++ map (λ s, (event, Bus.sub_ref s, data)) visited
  ∧ Bus.console b'
    = Bus.console b
      ++ map (λ _, (LError, "Error in event handler for"%string))
           (filter (λ s, Bus.sub_throws s data = true) visited).
Proof.
  revert k b. induction len as [|len IH]; intros k b Hq; cbv zeta.
  { simpl. by rewrite !app_nil_r. }
  simpl Bus.forEach.
  destruct (Bus.subscribers event b !! k) as [s|] eqn:Hk.
  - assert (Hs : Bus.quiet data s).
    { eapply (proj1 (Forall_forall _ _) Hq). by eapply list_elem_of_lookup_2. }
    unfold Bus.quiet in Hs.
    set (b1 := Bus.invoke event data s b).
    assert (Hh : Bus.handlers b1 = Bus.handlers b).
    { unfold b1, Bus.invoke. rewrite Hs. simpl. by destruct (Bus.sub_throws s data). }
    assert (Hsub : Bus.subscribers event b1 = Bus.subscribers event b).
    { unfold Bus.subscribers. by rewrite Hh. }
    assert (Hc : Bus.calls b1 = Bus.calls b ++ [(event, Bus.sub_ref s, data)]).
    { unfold b1, Bus.invoke. rewrite Hs. simpl. by destruct (Bus.sub_throws s data). }
    assert (Hl : Bus.console b1
                 = Bus.console b
                   ++ (if Bus.sub_throws s data
                       then [(LError, "Error in event handler for"%string)] else [])).
    { unfold b1, Bus.invoke. rewrite Hs. simpl.
      destruct (Bus.sub_throws s data); simpl; [done|by rewrite app_nil_r]. }
    destruct (IH (S k) b1) as (IH1 & IH2 & IH3); [by rewrite Hsub|].
    rewrite IH1, IH2, IH3, Hh, Hc, Hl, Hsub.
    rewrite (drop_S _ _ _ Hk). simpl. rewrite filter_cons.
    split; [done|]. split; [by rewrite <- app_assoc|].
    destruct (Bus.sub_throws s data) eqn:Ht.
    + rewrite decide_True by done. simpl. by rewrite <- app_assoc.
    + rewrite decide_False by done. simpl. by rewrite app_nil_r.
  - destruct (IH (S k) b Hq) as (IH1 & IH2 & IH3).
    rewrite IH1, IH2, IH3.
    apply lookup_ge_None in Hk.
    rewrite !drop_ge by lia. by rewrite !take_nil.
Qed.

Lemma emit_quiet event data b :
  Forall (Bus.quiet data) (Bus.subscribers event b) →
  Bus.handlers (Bus.emit event data b) = Bus.handlers b
  ∧ Bus.calls (Bus.emit event data b)
    = Bus.calls b
      ++ map (λ s, (event, Bus.sub_ref s, data)) (Bus.subscribers event b)
  ∧ Bus.console (Bus.emit event data b)
    = Bus.console b
      ++ map (λ _, (LError, "Error in event handler for"%string))
           (filter (λ s, Bus.sub_throws s data = true) (Bus.subscribers event b)).
Proof.
  intros Hq. unfold Bus.emit.
  destruct (Bus.handlers b !! event) as [[|s rest]|] eqn:Hl.
  - unfold Bus.subscribers. rewrite Hl. simpl. by rewrite !app_nil_r.
  - destruct (forEach_quiet event data (length (s :: rest)) 0 b Hq) as (H1 & H2 & H3).
    assert (Hsub : Bus.subscribers event b = s :: rest).
    { unfold Bus.subscribers. by rewrite Hl. }
    rewrite Hsub in H2, H3. rewrite drop_0, firstn_all in H2, H3.
    rewrite Hsub. done.
  - unfold Bus.subscribers. rewrite Hl. simpl. by rewrite !app_nil_r.
Qed.

Lemma callsTo_app event handler l1 l2 :
  Bus.callsTo event handler (l1 ++ l2)
  = Bus.callsTo event handler l1 + Bus.callsTo event handler l2.
Proof. unfold Bus.callsTo. by rewrite filter_app, length_app. Qed.

Lemma callsTo_map event handler data l :
  Bus.callsTo event handler (map (λ s, (event, Bus.sub_ref s, data)) l)
  = length (filter (λ s, Bus.sub_ref s = handler) l).
Proof.
  unfold Bus.callsTo. induction l as [|s l IH]; [done|]. simpl.
  rewrite !filter_cons. simpl.
  destruct (decide (Bus.sub_ref s = handler)) as [Heq|Hne].
  - rewrite decide_True by done. simpl. by rewrite IH.
  - rewrite decide_False by (intros [_ ?]; done). done.
Qed.

Lemma registrations_snoc event handler s b :
  Bus.sub_ref s = handler →
  Bus.registrations event handler (Bus.on event s b)
  = S (Bus.registrations event handler b).
Proof.
  intros Hs. unfold Bus.registrations. rewrite subscribers_on.
  rewrite filter_app, length_app, filter_cons, decide_True by done. simpl. lia.
Qed.

Lemma calls_perform b c :
  Bus.calls (Bus.perform b c) = Bus.calls b
  ∧ Bus.console (Bus.perform b c) = Bus.console b.
Proof.
  destruct c as [event s|event handler]; simpl; [done|].
  unfold Bus.off. destruct (Bus.handlers b !! event) as [l|]; [|done].
  by destruct (Bus.indexOf handler l).
Qed.

Lemma calls_foldl_perform cs b :
  Bus.calls (foldl Bus.perform b cs) = Bus.calls b
  ∧ Bus.console (foldl Bus.perform b cs) = Bus.console b.
Proof.
  revert b. induction cs as [|c cs IH]; intros b; [done|]. simpl.
  destruct (IH (Bus.perform b c)) as [-> ->]. apply calls_perform.
Qed.

Lemma calls_invoke event data s b :
  Bus.calls (Bus.invoke event data s b)
  = Bus.calls b ++ [(event, Bus.sub_ref s, data)]
  ∧ Bus.console (Bus.invoke event data s b)
    = Bus.console b
      ++ (if Bus.sub_throws s data
          then [(LError, "Error in event handler for"%string)] else []).
Proof.
  unfold Bus.invoke.
  set (b1 := {| Bus.handlers := Bus.handlers b;
                Bus.calls := Bus.calls b ++ [(event, Bus.sub_ref s, data)];
                Bus.console := Bus.console b |}).
  destruct (calls_foldl_perform (Bus.sub_does s data) b1) as [Hc Hl].
  destruct (Bus.sub_throws s data); simpl; rewrite Hc, Hl; simpl;
    by rewrite ?app_nil_r.
Qed.

(** Whatever the subscribers do, [forEach] makes at most [len] calls,
    and each call that throws adds one line to the console. *)
Lemma forEach_calls event data len k b :
  ∃ visited,
    (length visited ≤ len)%nat
    ∧ Bus.calls (Bus.forEach len k event data b)
      = Bus.calls b ++ map (λ s, (event, Bus.sub_ref s, data)) visited
    ∧ Bus.console (Bus.forEach len k event data b)
      = Bus.console b
        ++ map (λ _, (LError, "Error in event handler for"%string))
             (filter (λ s, Bus.sub_throws s data = true) visited).
Proof.
  revert k b. induction len as [|len IH]; intros k b.
  { exists []. simpl. by rewrite !app_nil_r. }
  simpl Bus.forEach.
  destruct (Bus.subscribers event b !! k) as [s|].
  - destruct (IH (S k) (Bus.invoke event data s b)) as (visited & Hlen & Hc & Hl).
    destruct (calls_invoke event data s b) as [Hc1 Hl1].
    exists (s :: visited). split; [simpl; lia|].
    rewrite Hc, Hl, Hc1, Hl1. simpl. rewrite filter_cons.
    split; [by rewrite <- app_assoc|].
    destruct (Bus.sub_throws s data).
    + rewrite decide_True by done. simpl. by rewrite <- app_assoc.
    + rewrite decide_False by done. simpl. by rewrite app_nil_r.
  - destruct (IH (S k) b) as (visited & Hlen & Hc & Hl).
    exists visited. split; [lia|done].
Qed.

(** ** [Session]'s bus is the bus of quiet subscribers *)

Lemma state_eq (b b' : Bus.State) :
  Bus.handlers b = Bus.handlers b' → Bus.calls b = Bus.calls b' →
  Bus.console b = Bus.console b' → b = b'.
Proof. destruct b, b'. simpl. by intros -> -> ->. Qed.

Lemma subscribers_busOf event c :
  Bus.subscribers event (Bus.busOf c) = Bus.lift <$> handlersOf event c.
Proof.
  unfold Bus.subscribers, Bus.busOf, handlersOf. simpl. rewrite lookup_fmap.
  by destruct (eventHandlers c !! event).
Qed.

Lemma on_lift event h c :
  Bus.on event (Bus.lift h) (Bus.busOf c) = Bus.busOf (Session.on event h c).
Proof.
  apply state_eq; try done. simpl. rewrite fmap_insert, lookup_fmap.
  f_equal. rewrite fmap_app. by destruct (eventHandlers c !! event).
Qed.

Lemma spliceFirst_indexOf h hs :
  Bus.lift <$> spliceFirst h hs
  = match Bus.indexOf (fn_ref h) (Bus.lift <$> hs) with
    | Some index => delete index (Bus.lift <$> hs)
    | None => Bus.lift <$> hs
    end.
Proof.
  induction hs as [|x hs IH]; [done|].
  rewrite fmap_cons. cbn [spliceFirst Bus.indexOf Bus.lift Bus.sub_ref].
  destruct (fn_ref x =? fn_ref h)%N; [done|].
  rewrite fmap_cons, IH.
  by destruct (Bus.indexOf (fn_ref h) (Bus.lift <$> hs)).
Qed.

Lemma off_lift event h c :
  Bus.off event (fn_ref h) (Bus.busOf c) = Bus.busOf (Session.off event h c).
Proof.
  unfold Bus.off, Session.off. simpl. rewrite lookup_fmap.
  destruct (eventHandlers c !! event) as [hs|] eqn:Hhs; simpl; [|done].
  pose proof (spliceFirst_indexOf h hs) as Hsp.
  destruct (Bus.indexOf (fn_ref h) (Bus.lift <$> hs)) as [index|].
  - apply state_eq; try done. simpl. rewrite fmap_insert. cbv beta.
    by rewrite Hsp.
  - apply state_eq; try done. simpl. rewrite fmap_insert. cbv beta.
    rewrite Hsp. rewrite insert_id; [done|]. by rewrite lookup_fmap, Hhs.
Qed.

Lemma invoke_lift event data h c :
  Bus.invoke event data (Bus.lift h) (Bus.busOf c)
  = Bus.busOf (callHandler event data c h).
Proof. unfold Bus.invoke, callHandler. simpl. by destruct (fn_throws h data). Qed.

Lemma forEach_lift event data len k c :
  Bus.forEach len k event data (Bus.busOf c)
  = Bus.busOf (foldl (callHandler event data) c
                 (take len (drop k (handlersOf event c)))).
Proof.
  revert k c. induction len as [|len IH]; intros k c; [done|].
  simpl Bus.forEach. rewrite subscribers_busOf, list_lookup_fmap.
  destruct (handlersOf event c !! k) as [h|] eqn:Hk; simpl.
  - rewrite invoke_lift, IH. rewrite (drop_S _ _ _ Hk). simpl.
    assert (Hsame : handlersOf event (callHandler event data c h)
                    = handlersOf event c).
    { unfold handlersOf, callHandler. by destruct (fn_throws h data). }
    by rewrite Hsame.
  - rewrite IH. apply lookup_ge_None in Hk.
    rewrite !drop_ge by lia. by rewrite !take_nil.
Qed.

Lemma emit_lift event data c :
  Bus.emit event data (Bus.busOf c) = Bus.busOf (Session.emit event data c).
Proof.
  unfold Bus.emit, Session.emit. simpl. rewrite lookup_fmap.
  destruct (eventHandlers c !! event) as [[|h rest]|] eqn:Hhs; simpl; try done.
  pose proof (forEach_lift event data (length (h :: rest)) 0 c) as H.
  unfold handlersOf in H. rewrite Hhs in H. simpl in H.
  rewrite firstn_all in H. simpl length. rewrite length_fmap.
  simpl Bus.forEach in H |- *. exact H.
Qed.

(** ** Double subscription *)

(** C10 (as amended). Let the function [s] be subscribed twice more to a
    topic.  An [emit] of the topic during which no subscriber of the
    topic calls [on] or [off] calls it two more times than it was
    subscribed before.  One [off] then removes exactly one registration,
    the first in subscription order: the entries before it are not the
    function and they and the entries after it stay as they are; the
    function is then called once more than it was subscribed before.
    No [off] shortens a subscriber list by more than one entry or
    touches the list of another topic. *)
Theorem double_subscription_single_off
    (b : Bus.State) (event : string) (s : Bus.Subscriber) (data : JSValue) :
  Forall (Bus.quiet data) (Bus.subscribers event b) →
  Bus.quiet data s →
  let handler := Bus.sub_ref s in
  let b2 := Bus.on event s (Bus.on event s b) in
  let b3 := Bus.off event handler b2 in
  Bus.callsTo event handler (Bus.calls (Bus.emit event data b2))
    = Bus.callsTo event handler (Bus.calls b2)
      + (Bus.registrations event handler b + 2)
  ∧ (∃ pre x post,
       Bus.subscribers event b2 = pre ++ x :: post
       ∧ Bus.sub_ref x = handler
       ∧ Forall (λ y, Bus.sub_ref y ≠ handler) pre
       ∧ Bus.subscribers event b3 = pre ++ post)
  ∧ Bus.registrations event handler b3 = Bus.registrations event handler b + 1
  ∧ Bus.callsTo event handler (Bus.calls (Bus.emit event data b3))
    = Bus.callsTo event handler (Bus.calls b3)
      + (Bus.registrations event handler b + 1)
  ∧ ∀ b' event' handler',
      (length (Bus.subscribers event' b')
       ≤ S (length (Bus.subscribers event' (Bus.off event' handler' b'))))%nat
      ∧ ∀ other, other ≠ event' →
          Bus.subscribers other (Bus.off event' handler' b')
          = Bus.subscribers other b'.
Proof.
  intros Hq Hs handler b2 b3.
  assert (H2 : Bus.subscribers event b2 = Bus.subscribers event b ++ [s; s]).
  { unfold b2. rewrite !subscribers_on. by rewrite <- app_assoc. }
  assert (Hq2 : Forall (Bus.quiet data) (Bus.subscribers event b2)).
  { rewrite H2. apply Forall_app. split; [done|]. by repeat constructor. }
  assert (R2 : Bus.registrations event handler b2
               = Bus.registrations event handler b + 2).
  { unfold b2. rewrite !registrations_snoc by done. lia. }
  destruct (Bus.indexOf handler (Bus.subscribers event b2)) as [i|] eqn:Hi.
  2:{ apply indexOf_None in Hi. rewrite H2 in Hi.
      apply Forall_app in Hi as [_ Hi]. by apply Forall_cons in Hi as [Hi _]. }
  destruct (indexOf_Some _ _ _ Hi) as (pre & x & post & Hl & Hlen & Hx & Hpre).
  assert (H3 : Bus.subscribers event b3 = pre ++ post).
  { unfold b3. rewrite subscribers_off, Hi, Hl, <- Hlen. apply delete_middle. }
  assert (R3 : Bus.registrations event handler b3
               = Bus.registrations event handler b + 1).
  { unfold Bus.registrations in *. rewrite H3. rewrite Hl in R2. revert R2.
    rewrite !filter_app, !length_app, filter_cons, decide_True by done.
    simpl. lia. }
  assert (Hq3 : Forall (Bus.quiet data) (Bus.subscribers event b3)).
  { rewrite H3. rewrite Hl in Hq2. apply Forall_app in Hq2 as [? Hq2].
    apply Forall_cons in Hq2 as [_ ?]. by apply Forall_app. }
  split_and!.
  - destruct (emit_quiet event data b2 Hq2) as (_ & -> & _).
    rewrite callsTo_app, callsTo_map. fold (Bus.registrations event handler b2).
    by rewrite R2.
  - by exists pre, x, post.
  - exact R3.
  - destruct (emit_quiet event data b3 Hq3) as (_ & -> & _).
    rewrite callsTo_app, callsTo_map. fold (Bus.registrations event handler b3).
    by rewrite R3.
  - intros b' event' handler'. split.
    + rewrite subscribers_off.
      destruct (Bus.indexOf handler' (Bus.subscribers event' b')) as [j|] eqn:Hj;
        [|lia].
      destruct (indexOf_Some _ _ _ Hj) as (pre' & x' & post' & -> & <- & _).
      rewrite delete_middle, !length_app. simpl. lia.
    + intros other Hne. by apply subscribers_off_ne.
Qed.

(** The overlay of the layout, subscribed twice on a new bus. *)
Lemma double_subscription_single_off_witness :
  let b2 := Bus.on "cursor_update" Bus.overlay
              (Bus.on "cursor_update" Bus.overlay Bus.empty) in
  Bus.callsTo "cursor_update" 1 (Bus.calls (Bus.emit "cursor_update" JNull b2))
  = Bus.callsTo "cursor_update" 1 (Bus.calls b2)
    + (Bus.registrations "cursor_update" 1 Bus.empty + 2).
Proof.
  pose proof (double_subscription_single_off Bus.empty "cursor_update"
                Bus.overlay JNull (Forall_nil_2 _) eq_refl) as H.
  cbv zeta in H. destruct H as (H & _). exact H.
Defined.

(** Counterexample to C10 as stated: the function [once] unsubscribes
    itself when it is called.  Subscribed twice, it is called once by
    the next [emit]: its first call splices the array that [forEach] is
    walking, and index 1 is gone when [forEach] gets there.  For the
    same reason a subscriber that comes after it is not called at all by
    that [emit]. *)
Lemma self_removing_called_once :
  let twice := Bus.on "cursor_update" Bus.once
                 (Bus.on "cursor_update" Bus.once Bus.empty) in
  let followed := Bus.on "cursor_update" Bus.overlay
                    (Bus.on "cursor_update" Bus.once Bus.empty) in
  Bus.registrations "cursor_update" 7 twice = 2
  ∧ Bus.calls (Bus.emit "cursor_update" JNull twice)
    = [("cursor_update"%string, 7%N, JNull)]
  ∧ Bus.subscribers "cursor_update" (Bus.emit "cursor_update" JNull twice)
    = [Bus.once]
  ∧ Bus.calls (Bus.emit "cursor_update" JNull followed)
    = [("cursor_update"%string, 7%N, JNull)].
Proof. by vm_compute. Qed.

(** ** Failures of subscribers *)

(** X16. Whatever the subscribers do, [emit] makes at most as many calls
    as the topic had subscribers when it started, all of them for that
    topic, and a call that throws costs one error line on the console
    and nothing else: the later calls are made all the same.  When no
    subscriber of the topic calls [on] or [off] during the [emit], every
    subscriber of the topic is called once, in subscription order, and
    the subscriber lists are as before. *)
Theorem emit_isolates_failures (b : Bus.State) (event : string) (data : JSValue) :
  let b' := Bus.emit event data b in
  let failure := (LError, "Error in event handler for"%string) in
  (∃ visited,
     (length visited ≤ length (Bus.subscribers event b))%nat
     ∧ Bus.calls b'
       = Bus.calls b ++ map (λ s, (event, Bus.sub_ref s, data)) visited
     ∧ Bus.console b'
       = Bus.console b
         ++ map (λ _, failure)
              (filter (λ s, Bus.sub_throws s data = true) visited))
  ∧ (Forall (Bus.quiet data) (Bus.subscribers event b) →
     Bus.calls b'
     = Bus.calls b
       ++ map (λ s, (event, Bus.sub_ref s, data)) (Bus.subscribers event b)
     ∧ Bus.console b'
       = Bus.console b
         ++ map (λ _, failure)
              (filter (λ s, Bus.sub_throws s data = true)
                 (Bus.subscribers event b))
     ∧ Bus.handlers b' = Bus.handlers b).
Proof.
  intros b' failure. split.
  - unfold b', Bus.emit, Bus.subscribers.
    destruct (Bus.handlers b !! event) as [[|s rest]|] eqn:Hl;
      try (exists []; simpl; rewrite !app_nil_r; split_and!; [lia|done|done]).
    apply forEach_calls.
  - intros Hq. destruct (emit_quiet event data b Hq) as (H1 & H2 & H3). done.
Qed.

End BusLaws.

(** * Properties of the connection manager *)

Module TransportProps.
Import JS Wire Transport.
Local Open Scope list_scope.

(** ** Bookkeeping of the stores *)

Lemma timers_clearTimeout t st :
  length (timers (clearTimeout t st)) = length (timers st).
Proof. unfold clearTimeout. simpl. by rewrite length_alter. Qed.

Lemma take_timers_clearTimeout t st :
  reconnectAttempts (clearTimeout t st) = reconnectAttempts st
  ∧ reconnectTimeouts (clearTimeout t st) = reconnectTimeouts st
  ∧ connections (clearTimeout t st) = connections st
  ∧ sockets (clearTimeout t st) = sockets st.
Proof. done. Qed.

Lemma afterCleanup_facts h s st :
  length (timers (afterCleanup h s st)) = length (timers st)
  ∧ reconnectAttempts (afterCleanup h s st) = reconnectAttempts st
  ∧ reconnectTimeouts (afterCleanup h s st) !! sock_connectionId s = None.
Proof.
  unfold afterCleanup.
  destruct (onClose (sock_options s)); simpl;
    destruct (reconnectTimeouts st !! sock_connectionId s) eqn:E; simpl;
    rewrite ?length_alter, ?lookup_delete_eq; done.
Qed.

Lemma socket_onclose_unfold h code wasClean rnd st s :
  sockets st !! h = Some s → readyState s ≠ CLOSED →
  socket_onclose h code wasClean rnd st
  = let st1 := afterCleanup h s st in
    let connectionId := sock_connectionId s in
    if shouldReconnect (sock_options s) code wasClean then
      let attempts := default 0 (reconnectAttempts st1 !! connectionId) in
      if decide (attempts < maxReconnectAttempts) then
        set_reconnectTimeouts <[connectionId := length (timers st1)]>
          (set_timers (λ l, l ++ [newTimer (reconnectDelay attempts rnd) s attempts]) st1)
      else set_reconnectAttempts (delete connectionId) st1
    else set_reconnectAttempts (delete connectionId) st1.
Proof.
  intros Hs Hopen. unfold socket_onclose. rewrite Hs.
  by rewrite decide_False by done.
Qed.

Lemma shouldReconnect_true options code wasClean :
  shouldReconnect options code wasClean = true ↔
  default false (enableReconnect options) = true
  ∧ code ≠ 1000%Z ∧ code ≠ 1001%Z ∧ code ≠ 1006%Z ∧ wasClean = false.
Proof.
  unfold shouldReconnect.
  rewrite !andb_true_iff, !negb_true_iff, !Z.eqb_neq. tauto.
Qed.

(** C2. Whatever the state and the options, when the [onclose] handler of
    a socket creates a retry timer then [enableReconnect] is set, the
    close code is none of 1000, 1001 and 1006, and the closure was not
    clean; conversely a closure with one of these codes, or a clean one,
    creates no timer and leaves none registered under the connection id. *)
Theorem reconnect_only_when_eligible
    (st : Service) (h : nat) (s : Socket) (code : Z) (wasClean : bool) (rnd : Q) :
  sockets st !! h = Some s →
  let st' := socket_onclose h code wasClean rnd st in
  (newTimers st st' ≠ [] →
     default false (enableReconnect (sock_options s)) = true
     ∧ code ≠ 1000%Z ∧ code ≠ 1001%Z ∧ code ≠ 1006%Z ∧ wasClean = false)
  ∧ (code = 1000%Z ∨ code = 1001%Z ∨ code = 1006%Z ∨ wasClean = true →
     newTimers st st' = []
     ∧ (readyState s ≠ CLOSED →
        reconnectTimeouts st' !! sock_connectionId s = None)).
Proof.
  intros Hs st'.
  destruct (decide (readyState s = CLOSED)) as [Hclosed|Hopen].
  { assert (st' = st) as ->.
    { unfold st', socket_onclose. rewrite Hs. by rewrite decide_True. }
    unfold newTimers. rewrite drop_all. split; [done|]. intros _. done. }
  pose proof (afterCleanup_facts h s st) as (Hlen & Hatt & Hto).
  unfold st'. rewrite (socket_onclose_unfold _ _ _ _ _ _ Hs Hopen). cbn zeta.
  destruct (shouldReconnect (sock_options s) code wasClean) eqn:Hsr.
  - apply shouldReconnect_true in Hsr. split; [done|].
    intros Hcode. destruct Hsr as (_ & ? & ? & ? & ?).
    destruct Hcode as [?|[?|[?|?]]]; congruence.
  - assert (Hnone : newTimers st
        (set_reconnectAttempts (delete (sock_connectionId s)) (afterCleanup h s st)) = []).
    { unfold newTimers. simpl. rewrite <- Hlen. apply drop_all. }
    split.
    + intros Hnew. by rewrite Hnone in Hnew.
    + intros _. split; [done|]. intros _. simpl. exact Hto.
Qed.

(** The rule at work: an open socket of a reconnecting connection closes
    with code 1011, not clean, and a timer is created. *)
Lemma reconnect_only_when_eligible_witness :
  sockets openedOnce !! 0%nat = Some openedSocket
  ∧ default false (enableReconnect (sock_options openedSocket)) = true
  ∧ 1011%Z ≠ 1000%Z ∧ 1011%Z ≠ 1001%Z ∧ 1011%Z ≠ 1006%Z ∧ false = false.
Proof.
  split; [reflexivity|].
  refine (proj1 (reconnect_only_when_eligible openedOnce 0 openedSocket
                   1011 false (1 # 2) _) _).
  - reflexivity.
  - vm_compute. discriminate.
Defined.

(** ** Backoff delay *)


(** *** Rounding *)










(** ** Cleared timers stay cleared *)

Lemma clearedKept_refl st : clearedKept st st.
Proof. intros t tm Ht Hc. by exists tm. Qed.

Lemma clearedKept_trans st1 st2 st3 :
  clearedKept st1 st2 → clearedKept st2 st3 → clearedKept st1 st3.
Proof.
  intros H12 H23 t tm Ht Hc.
  destruct (H12 t tm Ht Hc) as (tm2 & Ht2 & Hc2). by apply (H23 t tm2).
Qed.

Lemma clearedKept_same st st' : timers st' = timers st → clearedKept st st'.
Proof. intros Heq t tm Ht Hc. exists tm. by rewrite Heq. Qed.

Lemma clearedKept_clearTimeout t0 st : clearedKept st (clearTimeout t0 st).
Proof.
  intros t tm Ht Hc. simpl. rewrite list_lookup_alter.
  destruct (decide (t0 = t)) as [->|Hne]; [|by exists tm].
  rewrite Ht. simpl. rewrite Hc. by exists tm.
Qed.

Lemma clearedKept_setTimeout tm0 st :
  clearedKept st (set_timers (λ l, l ++ [tm0]) st).
Proof.
  intros t tm Ht Hc. exists tm. split; [|done]. simpl.
  by apply lookup_app_l_Some.
Qed.

Lemma clearedKept_fired t0 tm0 st :
  timers st !! t0 = Some tm0 → t_status tm0 = Pending →
  clearedKept st (set_timers <[t0 := with_status Fired tm0]> st).
Proof.
  intros Ht0 Hp t tm Ht Hc. exists tm. split; [|done]. simpl.
  rewrite list_lookup_insert_ne; [done|]. intros ->. congruence.
Qed.

Lemma clearedKept_dropTimeout id st :
  clearedKept st
    match reconnectTimeouts st !! id with
    | Some timeout => set_reconnectTimeouts (delete id) (clearTimeout timeout st)
    | None => st
    end.
Proof.
  destruct (reconnectTimeouts st !! id); [|apply clearedKept_refl].
  eapply clearedKept_trans; [apply clearedKept_clearTimeout|].
  by apply clearedKept_same.
Qed.

Lemma clearedKept_closeExisting st entry : clearedKept st (closeExisting st entry).
Proof.
  destruct entry as [id socket]. unfold closeExisting.
  eapply clearedKept_trans; [|by apply clearedKept_same].
  eapply clearedKept_trans; [|apply clearedKept_dropTimeout].
  by apply clearedKept_same.
Qed.

Lemma clearedKept_foldl_closeExisting entries st :
  clearedKept st (foldl closeExisting st entries).
Proof.
  revert st. induction entries as [|e entries IH]; intros st; simpl.
  - apply clearedKept_refl.
  - eapply clearedKept_trans; [apply clearedKept_closeExisting|apply IH].
Qed.

Lemma clearedKept_connect validUrl now url options st :
  clearedKept st (connect validUrl now url options st).1.
Proof.
  unfold connect.
  destruct (validUrl url); simpl;
    (eapply clearedKept_trans; [apply clearedKept_foldl_closeExisting|]);
    by apply clearedKept_same.
Qed.

Lemma clearedKept_invoke cb st : clearedKept st (invoke cb st).
Proof. apply clearedKept_same. by destruct cb. Qed.

Lemma clearedKept_socket_onclose h code wasClean rnd st :
  clearedKept st (socket_onclose h code wasClean rnd st).
Proof.
  destruct (sockets st !! h) as [s|] eqn:Hs;
    [|unfold socket_onclose; rewrite Hs; apply clearedKept_refl].
  destruct (decide (readyState s = CLOSED)) as [Hc|Hopen].
  { unfold socket_onclose. rewrite Hs, decide_True by done. apply clearedKept_refl. }
  rewrite (socket_onclose_unfold _ _ _ _ _ _ Hs Hopen). cbn zeta.
  assert (H1 : clearedKept st (afterCleanup h s st)).
  { unfold afterCleanup.
    eapply clearedKept_trans; [|apply clearedKept_invoke].
    eapply clearedKept_trans; [|apply clearedKept_dropTimeout].
    by apply clearedKept_same. }
  eapply clearedKept_trans; [exact H1|].
  destruct (shouldReconnect _ _ _); [destruct (decide _)|];
    try by apply clearedKept_same.
  eapply clearedKept_trans; [apply clearedKept_setTimeout|].
  by apply clearedKept_same.
Qed.

Lemma clearedKept_timer_fire validUrl t now st :
  clearedKept st (timer_fire validUrl t now st).
Proof.
  unfold timer_fire.
  destruct (timers st !! t) as [tm|] eqn:Ht; [|apply clearedKept_refl].
  destruct (t_status tm) eqn:Hst; try apply clearedKept_refl.
  eapply clearedKept_trans; [by apply (clearedKept_fired t tm)|].
  unfold retryCallback. destruct (decide _); [|apply clearedKept_refl].
  eapply clearedKept_trans; [|apply clearedKept_connect].
  by apply clearedKept_same.
Qed.

Lemma clearedKept_disconnect id st : clearedKept st (disconnect id st).
Proof.
  unfold disconnect.
  eapply clearedKept_trans; [|by apply clearedKept_same].
  eapply clearedKept_trans; [|apply clearedKept_dropTimeout].
  destruct (connections st !! id); by apply clearedKept_same.
Qed.

Lemma clearedKept_map_fold (f : string → nat → Service → Service)
    (m : gmap string nat) st :
  (∀ k v acc, clearedKept acc (f k v acc)) → clearedKept st (map_fold f st m).
Proof.
  intros Hf. induction m as [|k v m Hk Hfold IH] using map_first_key_ind.
  - rewrite map_fold_empty. apply clearedKept_refl.
  - rewrite map_fold_insert_first_key by done.
    eapply clearedKept_trans; [exact IH|apply Hf].
Qed.

Lemma clearedKept_disconnectAll st : clearedKept st (disconnectAll st).
Proof.
  unfold disconnectAll.
  eapply clearedKept_trans; [|by apply clearedKept_same].
  eapply clearedKept_trans; [|by apply clearedKept_same].
  eapply clearedKept_trans;
    [|apply clearedKept_map_fold; intros; apply clearedKept_clearTimeout].
  eapply clearedKept_trans; [|by apply clearedKept_same].
  apply (clearedKept_map_fold
           (λ _ socket acc, closeSocket socket 1000 "Manual disconnect all" acc)).
  intros. by apply clearedKept_same.
Qed.

Lemma clearedKept_step validUrl st e : clearedKept st (step validUrl st e).
Proof.
  destruct e; simpl.
  - apply clearedKept_connect.
  - apply clearedKept_same. unfold socket_onopen.
    destruct (sockets st !! h) as [s|]; [|done].
    destruct (readyState s); try done. by destruct (onOpen (sock_options s)).
  - apply clearedKept_same. unfold socket_onmessage.
    destruct (sockets st !! h) as [s|]; [|done].
    destruct parsed as [data|]; [|done].
    destruct (get data "type"); [|done]. by destruct (onMessage (sock_options s)).
  - apply clearedKept_same. unfold socket_onerror.
    destruct (sockets st !! h) as [s|]; [|done].
    by destruct (onError (sock_options s)).
  - apply clearedKept_socket_onclose.
  - apply clearedKept_timer_fire.
  - apply clearedKept_disconnect.
  - apply clearedKept_disconnectAll.
  - apply clearedKept_same. unfold sendMessage.
    destruct (connections st !! connectionId) as [socket|]; [|done].
    destruct (sockets st !! socket) as [s|]; [|done]. by destruct (decide _).
Qed.

Lemma clearedKept_run validUrl es st : clearedKept st (run validUrl es st).
Proof.
  unfold run. revert st. induction es as [|e es IH]; intros st; simpl.
  - apply clearedKept_refl.
  - eapply clearedKept_trans; [apply clearedKept_step|apply IH].
Qed.

(** ** Manual disconnect against a pending retry *)

Lemma retryCallback_absent validUrl now tm st :
  reconnectAttempts st !! t_connectionId tm = None →
  retryCallback validUrl now tm st = st.
Proof.
  intros Hnone. unfold retryCallback. rewrite decide_False; [done|].
  rewrite Hnone. by intros [? ?].
Qed.

Lemma retryCallback_present validUrl now tm st :
  is_Some (reconnectAttempts st !! t_connectionId tm) →
  retryCallback validUrl now tm st
  = (connect validUrl now (t_url tm) (t_options tm)
       (set_reconnectAttempts <[t_connectionId tm := t_attempts tm + 1]> st)).1.
Proof. intros Hsome. unfold retryCallback. by rewrite decide_True. Qed.

(** C5. When a retry timer is pending for a connection id,
    [disconnect(id)] clears that timer, removes the id from the timer map
    and removes its retry-attempt entry.  Whatever happens to the service
    afterwards, the timer stays cleared, so the host firing it changes
    nothing; and the callback run on the state after [disconnect] changes
    nothing either (no socket is created).  In general the callback does
    nothing when the attempt entry of its id is absent, and when the
    entry is present it stores the incremented count and calls
    [connect]. *)
Theorem disconnect_aborts_pending_retry
    (validUrl : string → bool) (st : Service) (id : string) (t : nat)
    (tm : Timer) (now : N) :
  reconnectTimeouts st !! id = Some t →
  timers st !! t = Some tm →
  t_status tm = Pending →
  t_connectionId tm = id →
  let st' := disconnect id st in
  timers st' !! t = Some (with_status Cleared tm)
  ∧ reconnectTimeouts st' !! id = None
  ∧ reconnectAttempts st' !! id = None
  ∧ (∀ es now',
       timer_fire validUrl t now' (run validUrl es st') = run validUrl es st')
  ∧ retryCallback validUrl now tm st' = st'
  ∧ (∀ st0, reconnectAttempts st0 !! id = None →
       retryCallback validUrl now tm st0 = st0)
  ∧ (∀ st0, is_Some (reconnectAttempts st0 !! id) →
       retryCallback validUrl now tm st0
       = (connect validUrl now (t_url tm) (t_options tm)
            (set_reconnectAttempts <[id := t_attempts tm + 1]> st0)).1).
Proof.
  intros Hto Htm Hpending Hid st'.
  assert (Htimers : timers st' !! t = Some (with_status Cleared tm)).
  { unfold st', disconnect.
    destruct (connections st !! id) as [sock|]; simpl; rewrite Hto; simpl;
      rewrite list_lookup_alter_eq, Htm; simpl; by rewrite Hpending. }
  assert (Hmap : reconnectTimeouts st' !! id = None).
  { unfold st', disconnect.
    destruct (connections st !! id) as [sock|]; simpl; rewrite Hto; simpl;
      apply lookup_delete_eq. }
  assert (Hatt : reconnectAttempts st' !! id = None).
  { unfold st', disconnect. simpl. apply lookup_delete_eq. }
  split_and!; try done.
  - intros es now'.
    destruct (clearedKept_run validUrl es st' t _ Htimers eq_refl)
      as (tm' & Ht' & Hc').
    unfold timer_fire. by rewrite Ht', Hc'.
  - apply retryCallback_absent. by rewrite Hid.
  - intros st0 Hnone. apply retryCallback_absent. by rewrite Hid.
  - intros st0 Hsome. rewrite <- Hid in *. by apply retryCallback_present.
Qed.

(** [disconnect] issued in [closedOnce], where timer 0 is pending. *)
Lemma disconnect_aborts_pending_retry_witness :
  reconnectTimeouts closedOnce !! "collaboration/r1_1000" = Some 0
  ∧ timers closedOnce !! 0%nat = Some pendingRetry
  ∧ timers (disconnect "collaboration/r1_1000" closedOnce) !! 0%nat
    = Some (with_status Cleared pendingRetry)
  ∧ timer_fire wsScheme 0 4000 (disconnect "collaboration/r1_1000" closedOnce)
    = disconnect "collaboration/r1_1000" closedOnce
  ∧ retryCallback wsScheme 4000 pendingRetry
      (disconnect "collaboration/r1_1000" closedOnce)
    = disconnect "collaboration/r1_1000" closedOnce.
Proof.
  pose proof (disconnect_aborts_pending_retry wsScheme closedOnce
                "collaboration/r1_1000" 0 pendingRetry 4000
                eq_refl eq_refl eq_refl eq_refl) as H.
  cbv zeta in H. destruct H as (H1 & _ & _ & H4 & H5 & _).
  split; [reflexivity|]. split; [reflexivity|]. split; [exact H1|].
  split; [exact (H4 [] 4000%N)|exact H5].
Defined.

(** ** One record per endpoint *)

Lemma split_head_plain (p rest : string) :
  hasChar "_"%char p = false →
  ∃ ws, split "_"%char (p ++ String "_"%char rest)%string = p :: ws.
Proof.
  induction p as [|c p IH]; simpl; intros Hp.
  - eexists. reflexivity.
  - apply orb_false_iff in Hp as [Hc Hp]. rewrite Hc.
    destruct (IH Hp) as [ws ->]. eexists. reflexivity.
Qed.

(** Cutting an id at its first underscore gives back the key it was made
    from, provided the key has no underscore. *)
Lemma idPath_mkConnectionId (path : string) (now : N) :
  hasChar "_"%char path = false → idPath (mkConnectionId path now) = path.
Proof.
  intros Hp. unfold idPath, mkConnectionId.
  change ("_" ++ pretty now)%string with (String "_"%char (pretty now)).
  by destruct (split_head_plain path (pretty now) Hp) as [ws ->].
Qed.

Lemma fmap_alter_same {A B} (g : A → B) (f : A → A) (i : nat) (l : list A) :
  (∀ x, g (f x) = g x) → g <$> alter f i l = g <$> l.
Proof.
  intros Hf. revert i. induction l as [|x l IH]; intros [|i]; simpl; try done.
  - by rewrite Hf.
  - f_equal. apply IH.
Qed.

Lemma fmap_insert_same {A B} (g : A → B) (i : nat) (x y : A) (l : list A) :
  l !! i = Some x → g y = g x → g <$> <[i := y]> l = g <$> l.
Proof.
  intros Hx Hg. rewrite list_fmap_insert, Hg.
  apply list_insert_id. by rewrite list_lookup_fmap, Hx.
Qed.

Lemma shrinks_refl st : shrinks st st.
Proof. done. Qed.

Lemma shrinks_trans st1 st2 st3 :
  shrinks st1 st2 → shrinks st2 st3 → shrinks st1 st3.
Proof.
  intros (A1 & B1 & C1) (A2 & B2 & C2). split_and!.
  - by etrans.
  - by rewrite B2.
  - by rewrite C2.
Qed.

Lemma shrinks_closeSocket h code reason st :
  shrinks st (closeSocket h code reason st).
Proof.
  split_and!; try done. simpl. apply fmap_alter_same.
  intros s. unfold ws_close. by destruct (readyState s).
Qed.

Lemma shrinks_clearTimeout t st : shrinks st (clearTimeout t st).
Proof.
  split_and!; try done. simpl. apply fmap_alter_same.
  intros tm. by destruct (t_status tm).
Qed.

Lemma shrinks_delete id st : shrinks st (set_connections (delete id) st).
Proof. split_and!; try done. simpl. apply delete_subseteq. Qed.

Lemma shrinks_set_reconnectTimeouts f st : shrinks st (set_reconnectTimeouts f st).
Proof. done. Qed.

Lemma shrinks_set_reconnectAttempts f st : shrinks st (set_reconnectAttempts f st).
Proof. done. Qed.

Lemma shrinks_invoke cb st : shrinks st (invoke cb st).
Proof. by destruct cb. Qed.

Lemma shrinks_readyState h s rs st :
  sockets st !! h = Some s →
  shrinks st (set_sockets <[h := with_readyState rs s]> st).
Proof. intros Hs. split_and!; try done. simpl. by eapply fmap_insert_same. Qed.

Lemma shrinks_timer_status t tm ts st :
  timers st !! t = Some tm →
  shrinks st (set_timers <[t := with_status ts tm]> st).
Proof. intros Ht. split_and!; try done. simpl. by eapply fmap_insert_same. Qed.

Lemma shrinks_dropTimeout id st :
  shrinks st
    match reconnectTimeouts st !! id with
    | Some timeout => set_reconnectTimeouts (delete id) (clearTimeout timeout st)
    | None => st
    end.
Proof.
  destruct (reconnectTimeouts st !! id); [|done].
  eapply shrinks_trans; [apply shrinks_clearTimeout|done].
Qed.

Lemma keyedByEndpoint_shrinks st st' :
  keyedByEndpoint st → shrinks st st' → keyedByEndpoint st'.
Proof.
  intros [Hs Ht Hk Hd] (Hsub & Hsock & Htim). split.
  - apply (Forall_fmap sock_url plainKey). rewrite Hsock. by apply Forall_fmap.
  - apply (Forall_fmap t_url plainKey). rewrite Htim. by apply Forall_fmap.
  - intros id h Hid.
    destruct (Hk id h (lookup_weaken _ _ _ _ Hid Hsub)) as (s & Hsh & Hpath).
    assert (Hu : (sock_url <$> sockets st') !! h = Some (sock_url s)).
    { by rewrite Hsock, list_lookup_fmap, Hsh. }
    rewrite list_lookup_fmap in Hu.
    destruct (sockets st' !! h) as [s'|]; [|done].
    exists s'. split; [done|]. injection Hu as ->. done.
  - intros id1 id2 h1 h2 H1 H2. eapply Hd; by eapply lookup_weaken.
Qed.

Lemma shrinks_closeExisting st entry : shrinks st (closeExisting st entry).
Proof.
  destruct entry as [id socket]. unfold closeExisting.
  eapply shrinks_trans; [apply (shrinks_closeSocket socket)|].
  eapply shrinks_trans; [apply (shrinks_delete id)|].
  eapply shrinks_trans; [apply (shrinks_dropTimeout id)|].
  apply shrinks_set_reconnectAttempts.
Qed.

Lemma shrinks_foldl_closeExisting entries st :
  shrinks st (foldl closeExisting st entries).
Proof.
  revert st. induction entries as [|e entries IH]; intros st; simpl; [done|].
  eapply shrinks_trans; [apply shrinks_closeExisting|apply IH].
Qed.

Lemma connections_closeExisting st entry :
  connections (closeExisting st entry) = delete entry.1 (connections st).
Proof.
  destruct entry as [id socket]. unfold closeExisting. simpl.
  by destruct (reconnectTimeouts st !! id).
Qed.

(** Every id handed to the closing loop is gone from the map afterwards. *)
Lemma foldl_closeExisting_removes entries st id :
  id ∈ entries.*1 → connections (foldl closeExisting st entries) !! id = None.
Proof.
  revert st. induction entries as [|e entries IH]; intros st Hin; simpl in *.
  - by apply elem_of_nil in Hin.
  - apply elem_of_cons in Hin as [->|Hin]; [|by apply IH].
    destruct (shrinks_foldl_closeExisting entries (closeExisting st e)) as (Hsub & _).
    eapply lookup_weaken_None; [|exact Hsub].
    rewrite connections_closeExisting. apply lookup_delete_eq.
Qed.

Section Invariant.

Variable validUrl : string → bool.

(** After the closing loop of [connect] no tracked id starts with the
    key of the new URL. *)
Lemma closing_loop_clears_key (url : string) (st : Service) (id : string) (h : nat) :
  let existing := filter (λ entry, idPath entry.1 = urlPath url)
                         (map_to_list (connections st)) in
  connections (foldl closeExisting st existing) !! id = Some h →
  idPath id ≠ urlPath url.
Proof.
  intros existing Hid Hpath.
  destruct (shrinks_foldl_closeExisting existing st) as (Hsub & _).
  pose proof (lookup_weaken _ _ _ _ Hid Hsub) as Hst.
  assert (Hin : id ∈ existing.*1).
  { apply list_elem_of_fmap. exists (id, h). split; [done|].
    apply list_elem_of_filter. split; [done|]. by apply elem_of_map_to_list. }
  by rewrite (foldl_closeExisting_removes existing st id Hin) in Hid.
Qed.

Lemma keyedByEndpoint_connect now url options st :
  keyedByEndpoint st → plainKey url →
  keyedByEndpoint (connect validUrl now url options st).1.
Proof.
  intros Hinv Hplain. unfold connect.
  set (existing := filter _ _).
  set (st1 := foldl closeExisting st existing).
  assert (H1 : keyedByEndpoint st1).
  { eapply keyedByEndpoint_shrinks; [done|apply shrinks_foldl_closeExisting]. }
  assert (Hclear : ∀ id h, connections st1 !! id = Some h → idPath id ≠ urlPath url).
  { intros id h. apply closing_loop_clears_key. }
  destruct (validUrl url); [|done]. simpl.
  destruct H1 as [Hs Ht Hk Hd].
  assert (Hnew : idPath (mkConnectionId (urlPath url) now) = urlPath url).
  { by apply idPath_mkConnectionId. }
  split; simpl.
  - apply Forall_app. split; [done|]. by apply Forall_singleton.
  - done.
  - intros id h Hid. apply lookup_insert_Some in Hid as [[<- <-]|[Hne Hid]].
    + eexists. split; [by apply list_lookup_middle|]. done.
    + destruct (Hk id h Hid) as (s & Hsh & Hpath).
      exists s. split; [|done]. by apply lookup_app_l_Some.
  - intros id1 id2 h1 h2 Hid1 Hid2 Hpath.
    apply lookup_insert_Some in Hid1 as [[<- <-]|[Hne1 Hid1]];
      apply lookup_insert_Some in Hid2 as [[<- <-]|[Hne2 Hid2]].
    + done.
    + rewrite Hnew in Hpath. by destruct (Hclear _ _ Hid2).
    + rewrite Hnew in Hpath. by destruct (Hclear _ _ Hid1).
    + by eapply Hd.
Qed.

Lemma shrinks_socket_onopen h st : shrinks st (socket_onopen h st).
Proof.
  unfold socket_onopen. destruct (sockets st !! h) as [s|] eqn:Hs; [|done].
  destruct (readyState s); try done.
  eapply shrinks_trans; [by apply (shrinks_readyState h s OPEN)|].
  eapply shrinks_trans; [apply shrinks_set_reconnectAttempts|].
  apply shrinks_invoke.
Qed.

Lemma shrinks_socket_onmessage h parsed st :
  shrinks st (socket_onmessage h parsed st).
Proof.
  unfold socket_onmessage.
  destruct (sockets st !! h) as [s|]; [|done].
  destruct parsed as [data|]; [|done].
  destruct (get data "type"); [apply shrinks_invoke|done].
Qed.

Lemma shrinks_socket_onerror h st : shrinks st (socket_onerror h st).
Proof.
  unfold socket_onerror.
  destruct (sockets st !! h) as [s|]; [apply shrinks_invoke|done].
Qed.

Lemma shrinks_sendMessage id message st : shrinks st (sendMessage id message st).
Proof.
  unfold sendMessage.
  destruct (connections st !! id) as [socket|]; [|done].
  destruct (sockets st !! socket) as [s|] eqn:Hs; [|done].
  destruct (decide _); [|done].
  split_and!; try done. simpl. by eapply fmap_insert_same.
Qed.

Lemma shrinks_afterCleanup h s st :
  sockets st !! h = Some s → shrinks st (afterCleanup h s st).
Proof.
  intros Hs. unfold afterCleanup.
  eapply shrinks_trans; [by apply (shrinks_readyState h s CLOSED)|].
  eapply shrinks_trans; [apply (shrinks_delete (sock_connectionId s))|].
  eapply shrinks_trans; [apply (shrinks_dropTimeout (sock_connectionId s))|].
  apply shrinks_invoke.
Qed.

Lemma keyedByEndpoint_socket_onclose h code wasClean rnd st :
  keyedByEndpoint st → keyedByEndpoint (socket_onclose h code wasClean rnd st).
Proof.
  intros Hinv.
  destruct (sockets st !! h) as [s|] eqn:Hs;
    [|unfold socket_onclose; by rewrite Hs].
  destruct (decide (readyState s = CLOSED)) as [Hc|Hopen].
  { unfold socket_onclose. rewrite Hs. by rewrite decide_True. }
  rewrite (socket_onclose_unfold _ _ _ _ _ _ Hs Hopen). cbn zeta.
  assert (H1 : keyedByEndpoint (afterCleanup h s st)).
  { eapply keyedByEndpoint_shrinks; [done|by apply shrinks_afterCleanup]. }
  assert (Hplain : plainKey (sock_url s)).
  { destruct Hinv as [Hsock _ _ _].
    eapply (proj1 (Forall_lookup _ _) Hsock). exact Hs. }
  destruct (shouldReconnect _ _ _);
    [destruct (decide _)|]; try by eapply keyedByEndpoint_shrinks.
  destruct H1 as [Hsock Ht Hk Hd]. split; simpl; try done.
  apply Forall_app. split; [done|]. by apply Forall_singleton.
Qed.

Lemma keyedByEndpoint_timer_fire t now st :
  keyedByEndpoint st → keyedByEndpoint (timer_fire validUrl t now st).
Proof.
  intros Hinv. unfold timer_fire.
  destruct (timers st !! t) as [tm|] eqn:Ht; [|done].
  destruct (t_status tm); try done.
  assert (Hplain : plainKey (t_url tm)).
  { destruct Hinv as [_ Htim _ _].
    eapply (proj1 (Forall_lookup _ _) Htim). exact Ht. }
  assert (H1 : keyedByEndpoint (set_timers <[t := with_status Fired tm]> st)).
  { eapply keyedByEndpoint_shrinks; [done|by apply shrinks_timer_status]. }
  unfold retryCallback. destruct (decide _); [|done].
  apply keyedByEndpoint_connect; [|done].
  by eapply keyedByEndpoint_shrinks.
Qed.

Lemma shrinks_disconnect id st : shrinks st (disconnect id st).
Proof.
  unfold disconnect.
  eapply shrinks_trans; [|apply shrinks_set_reconnectAttempts].
  eapply shrinks_trans; [|apply shrinks_dropTimeout].
  destruct (connections st !! id) as [socket|]; [|done].
  eapply shrinks_trans; [apply (shrinks_closeSocket socket)|apply shrinks_delete].
Qed.

Lemma shrinks_map_fold (f : string → nat → Service → Service) (m : gmap string nat) st :
  (∀ k v acc, shrinks acc (f k v acc)) → shrinks st (map_fold f st m).
Proof.
  intros Hf. induction m as [|k v m Hk Hfold IH] using map_first_key_ind.
  - by rewrite map_fold_empty.
  - rewrite map_fold_insert_first_key by done.
    eapply shrinks_trans; [exact IH|apply Hf].
Qed.

Lemma shrinks_disconnectAll st : shrinks st (disconnectAll st).
Proof.
  unfold disconnectAll.
  eapply shrinks_trans; [|apply shrinks_set_reconnectAttempts].
  eapply shrinks_trans; [|apply shrinks_set_reconnectTimeouts].
  eapply shrinks_trans; [|apply shrinks_map_fold; intros; apply shrinks_clearTimeout].
  eapply shrinks_trans;
    [apply (shrinks_map_fold
              (λ _ socket acc, closeSocket socket 1000 "Manual disconnect all" acc));
     intros; apply shrinks_closeSocket|].
  split_and!; try done. simpl. apply map_empty_subseteq.
Qed.

Lemma keyedByEndpoint_step st e :
  keyedByEndpoint st → plainEvent e → keyedByEndpoint (step validUrl st e).
Proof.
  intros Hinv He. destruct e; simpl in *.
  - by apply keyedByEndpoint_connect.
  - eapply keyedByEndpoint_shrinks; [done|apply shrinks_socket_onopen].
  - eapply keyedByEndpoint_shrinks; [done|apply shrinks_socket_onmessage].
  - eapply keyedByEndpoint_shrinks; [done|apply shrinks_socket_onerror].
  - by apply keyedByEndpoint_socket_onclose.
  - by apply keyedByEndpoint_timer_fire.
  - eapply keyedByEndpoint_shrinks; [done|apply shrinks_disconnect].
  - eapply keyedByEndpoint_shrinks; [done|apply shrinks_disconnectAll].
  - eapply keyedByEndpoint_shrinks; [done|apply shrinks_sendMessage].
Qed.

Lemma keyedByEndpoint_initial : keyedByEndpoint initial.
Proof. split; simpl; try done; intros *; by rewrite lookup_empty. Qed.

Lemma keyedByEndpoint_single st : keyedByEndpoint st → singlePerEndpoint st.
Proof.
  intros [_ _ Hk Hd] id1 id2 h1 h2 key H1 H2 K1 K2.
  destruct (Hk _ _ H1) as (s1 & Hs1 & P1).
  destruct (Hk _ _ H2) as (s2 & Hs2 & P2).
  unfold endpointKey in K1, K2. rewrite Hs1 in K1. rewrite Hs2 in K2.
  simpl in K1, K2. eapply Hd; [done..|]. congruence.
Qed.

(** What the code does guarantee of the invariant of C1: along every run
    of the service (connects, socket events, retry timers, sends, disconnects)
    in which every URL passed to [connect] has an endpoint key without
    underscore, the map never holds two records with the same endpoint
    key. *)
Lemma single_connection_for_plain_keys (es : list Event) :
  Forall plainEvent es → singlePerEndpoint (run validUrl es initial).
Proof.
  intros Hes. apply keyedByEndpoint_single. unfold run.
  generalize keyedByEndpoint_initial. generalize initial.
  induction Hes as [|e es He Hes IH]; intros st Hinv; simpl; [done|].
  apply IH. by apply keyedByEndpoint_step.
Qed.

End Invariant.

(** For a room name without underscore the second [connect] replaces the
    first record: its socket is closed with code 1000 and only the new id
    is tracked. *)
Example second_connect_replaces_first :
  let st := connectedTwice roomUrl in
  connections st !! "collaboration/r1_1000" = None
  ∧ connections st !! "collaboration/r1_2000" = Some 1
  ∧ reconnectAttempts st !! "collaboration/r1_1000" = None
  ∧ (λ s, (readyState s, closeArgs s)) <$> sockets st !! 0%nat
    = Some (CLOSING, Some (1000%Z, "Replacing with new connection")).
Proof. by vm_compute. Qed.

(** C1 (the code departs from it). The endpoint key of [schemaUrl] is
    [collaboration/schema_1]; the id of its first record is cut at the
    first underscore into [collaboration/schema], so the second [connect]
    does not recognise the record: afterwards the map tracks two records
    with the same endpoint key, and the first socket was never closed. *)
Theorem duplicate_records_for_underscore_key :
  let st := connectedTwice schemaUrl in
  urlPath schemaUrl = "collaboration/schema_1"
  ∧ idPath "collaboration/schema_1_1000" = "collaboration/schema"
  ∧ connections st !! "collaboration/schema_1_1000" = Some 0
  ∧ connections st !! "collaboration/schema_1_2000" = Some 1
  ∧ endpointKey st 0 = Some "collaboration/schema_1"
  ∧ endpointKey st 1 = Some "collaboration/schema_1"
  ∧ (λ s, (readyState s, closeArgs s)) <$> sockets st !! 0%nat
    = Some (CONNECTING, None).
Proof. by vm_compute. Qed.

(** ** Bound on retries *)

(** Every successful [connect] stores 0 attempts under the id it returns,
    before the socket has opened. *)
Lemma connect_resets_counter validUrl now url options st id :
  (connect validUrl now url options st).2 = Normal id →
  reconnectAttempts (connect validUrl now url options st).1 !! id = Some 0.
Proof.
  unfold connect. destruct (validUrl url); simpl; [|done].
  intros [= <-]. apply lookup_insert_eq.
Qed.


End TransportProps.

(** * Further properties of the connection manager *)

Module TransportLaws.
Import JS Wire Transport TransportProps.
Local Open Scope list_scope.

(** ** The closing loop of [connect], field by field *)

Lemma reconnectAttempts_closeExisting st entry :
  reconnectAttempts (closeExisting st entry) = delete entry.1 (reconnectAttempts st).
Proof.
  destruct entry as [id socket]. unfold closeExisting. simpl.
  by destruct (reconnectTimeouts st !! id).
Qed.

Lemma reconnectTimeouts_closeExisting st entry :
  reconnectTimeouts (closeExisting st entry) = delete entry.1 (reconnectTimeouts st).
Proof.
  destruct entry as [id socket]. unfold closeExisting. simpl.
  destruct (reconnectTimeouts st !! id) eqn:E; simpl; [done|].
  symmetry. by apply delete_id.
Qed.

Lemma sockets_closeExisting st entry :
  sockets (closeExisting st entry)
  = alter (ws_close 1000 "Replacing with new connection") entry.2 (sockets st).
Proof.
  destruct entry as [id socket]. unfold closeExisting. simpl.
  by destruct (reconnectTimeouts st !! id).
Qed.

Lemma ws_close_idemp code reason s :
  ws_close code reason (ws_close code reason s) = ws_close code reason s.
Proof.
  unfold ws_close. destruct (readyState s) eqn:E; simpl; by rewrite ?E.
Qed.

Lemma foldl_closeExisting_maps entries st id :
  (id ∈ entries.*1 →
     connections (foldl closeExisting st entries) !! id = None
     ∧ reconnectTimeouts (foldl closeExisting st entries) !! id = None
     ∧ reconnectAttempts (foldl closeExisting st entries) !! id = None)
  ∧ (id ∉ entries.*1 →
     connections (foldl closeExisting st entries) !! id = connections st !! id
     ∧ reconnectTimeouts (foldl closeExisting st entries) !! id
       = reconnectTimeouts st !! id
     ∧ reconnectAttempts (foldl closeExisting st entries) !! id
       = reconnectAttempts st !! id).
Proof.
  revert st. induction entries as [|e entries IH]; intros st; simpl.
  - split; [intros Hin; by apply elem_of_nil in Hin|done].
  - destruct (IH (closeExisting st e)) as [IHin IHout].
    rewrite connections_closeExisting, reconnectTimeouts_closeExisting,
      reconnectAttempts_closeExisting in IHout.
    split.
    + intros Hin. destruct (decide (id ∈ entries.*1)) as [Hr|Hr]; [by apply IHin|].
      apply elem_of_cons in Hin as [->|Hin]; [|done].
      destruct (IHout Hr) as (-> & -> & ->). by rewrite !lookup_delete_eq.
    + intros Hout. apply not_elem_of_cons in Hout as [Hne Hout].
      destruct (IHout Hout) as (-> & -> & ->).
      by rewrite !lookup_delete_ne.
Qed.

Lemma foldl_closeExisting_sockets entries st h s :
  sockets st !! h = Some s →
  sockets (foldl closeExisting st entries) !! h
  = Some (if decide (h ∈ entries.*2)
          then ws_close 1000 "Replacing with new connection" s else s).
Proof.
  revert st s. induction entries as [|e entries IH]; intros st s Hs.
  - cbn [foldl].
    destruct (decide (h ∈ (@nil (string * nat)).*2)) as [Hin|_];
      [by apply elem_of_nil in Hin|done].
  - change (foldl closeExisting st (e :: entries))
      with (foldl closeExisting (closeExisting st e) entries).
    rewrite fmap_cons.
    destruct (decide (e.2 = h)) as [Heq|Hne].
    + rewrite (IH (closeExisting st e) (ws_close 1000 "Replacing with new connection" s)).
      * rewrite ws_close_idemp.
        rewrite (decide_True (P := h ∈ e.2 :: entries.*2)).
        -- by case_decide.
        -- rewrite <- Heq. apply elem_of_cons. by left.
      * by rewrite sockets_closeExisting, Heq, list_lookup_alter_eq, Hs.
    + rewrite (IH (closeExisting st e) s).
      * f_equal.
        destruct (decide (h ∈ entries.*2)) as [Hin|Hout];
          destruct (decide (h ∈ e.2 :: entries.*2)) as [Hin'|Hout']; try done.
        -- exfalso. apply Hout'. apply elem_of_cons. by right.
        -- apply elem_of_cons in Hin' as [?|?]; [congruence|done].
      * by rewrite sockets_closeExisting, list_lookup_alter_ne.
Qed.

Lemma length_sockets_shrinks st st' :
  shrinks st st' → length (sockets st') = length (sockets st).
Proof.
  intros (_ & Hs & _).
  by rewrite <- (length_fmap sock_url (sockets st')), Hs, length_fmap.
Qed.

(** The entries the closing loop visits: the tracked ids whose prefix is
    the key of the URL. *)
Lemma existing_entries url st id h :
  (id, h) ∈ filter (λ entry : string * nat, idPath entry.1 = urlPath url)
             (map_to_list (connections st))
  ↔ connections st !! id = Some h ∧ idPath id = urlPath url.
Proof.
  rewrite list_elem_of_filter, elem_of_map_to_list. simpl. tauto.
Qed.

Lemma existing_ids url st id :
  id ∈ (filter (λ entry : string * nat, idPath entry.1 = urlPath url)
          (map_to_list (connections st))).*1
  ↔ is_Some (connections st !! id) ∧ idPath id = urlPath url.
Proof.
  rewrite list_elem_of_fmap. split.
  - intros ([id' h] & -> & Hin). apply existing_entries in Hin as [? ?].
    split; [by eexists|done].
  - intros [[h Hh] Hp]. exists (id, h). split; [done|]. by apply existing_entries.
Qed.

Lemma timers_closeExisting st entry :
  timers (closeExisting st entry)
  = match reconnectTimeouts st !! entry.1 with
    | Some timeout => timers (clearTimeout timeout st)
    | None => timers st
    end.
Proof.
  destruct entry as [id socket]. unfold closeExisting. simpl.
  by destruct (reconnectTimeouts st !! id).
Qed.

Lemma foldl_closeExisting_clears_timer entries st id h t tm :
  (id, h) ∈ entries →
  reconnectTimeouts st !! id = Some t →
  timers st !! t = Some tm → t_status tm = Pending →
  ∃ tm', timers (foldl closeExisting st entries) !! t = Some tm'
         ∧ t_status tm' = Cleared.
Proof.
  revert st tm. induction entries as [|e entries IH]; intros st tm Hin Hto Ht Hp.
  - by apply elem_of_nil in Hin.
  - change (foldl closeExisting st (e :: entries))
      with (foldl closeExisting (closeExisting st e) entries).
    assert (Hcleared : ∀ tm1,
      timers (closeExisting st e) !! t = Some tm1 → t_status tm1 = Cleared →
      ∃ tm', timers (foldl closeExisting (closeExisting st e) entries) !! t = Some tm'
             ∧ t_status tm' = Cleared).
    { intros tm1 H1 H2.
      by apply (clearedKept_foldl_closeExisting entries (closeExisting st e) t tm1). }
    destruct (decide (e.1 = id)) as [Heq|Hne].
    + apply (Hcleared (with_status Cleared tm)); [|done].
      rewrite timers_closeExisting, Heq, Hto. simpl.
      by rewrite list_lookup_alter_eq, Ht; simpl; rewrite Hp.
    + apply elem_of_cons in Hin as [<-|Hin]; [done|].
      destruct (reconnectTimeouts st !! e.1) as [t0|] eqn:E0.
      * destruct (decide (t0 = t)) as [->|Hnt].
        -- apply (Hcleared (with_status Cleared tm)); [|done].
           rewrite timers_closeExisting, E0. simpl.
           by rewrite list_lookup_alter_eq, Ht; simpl; rewrite Hp.
        -- apply (IH (closeExisting st e) tm); try done.
           ++ by rewrite reconnectTimeouts_closeExisting, lookup_delete_ne.
           ++ rewrite timers_closeExisting, E0. simpl.
              by rewrite list_lookup_alter_ne.
      * apply (IH (closeExisting st e) tm); try done.
        -- by rewrite reconnectTimeouts_closeExisting, lookup_delete_ne.
        -- by rewrite timers_closeExisting, E0.
Qed.

(** ** [connect] *)

(** X1. A successful [connect] returns the id [key_now] at once and
    tracks a new socket under it while that socket is still connecting:
    [isConnected] is false and a message sent now is dropped.  When the
    open event of a connecting socket runs in a state where its id is
    still tracked with it, [isConnected] becomes true, the attempt
    counter of the id is 0, and [sendMessage] puts the message on that
    socket; this is so in particular in the state that [connect] leaves.
    When the record of the id has been removed in the meantime, the open
    event does not bring it back: [isConnected] stays false and nothing
    is sent. *)
Theorem connect_open_send
    (validUrl : string → bool) (now : N) (url : string) (options : Options)
    (st : Service) (message : Envelope) :
  validUrl url = true →
  let id := mkConnectionId (urlPath url) now in
  let h := length (sockets st) in
  let st1 := (connect validUrl now url options st).1 in
  (connect validUrl now url options st).2 = Normal id
  ∧ connections st1 !! id = Some h
  ∧ sockets st1 !! h = Some (newSocket url id options)
  ∧ isConnected id st1 = false
  ∧ sendMessage id message st1 = st1
  ∧ (∀ st' s,
       sockets st' !! h = Some s → readyState s = CONNECTING →
       sock_connectionId s = id →
       let st2 := socket_onopen h st' in
       (connections st' !! id = Some h →
        isConnected id st2 = true
        ∧ reconnectAttempts st2 !! id = Some 0
        ∧ sockets (sendMessage id message st2) !! h
          = Some (ws_send message (with_readyState OPEN s)))
       ∧ (connections st' !! id = None →
          isConnected id st2 = false
          ∧ sendMessage id message st2 = st2))
  ∧ isConnected id (socket_onopen h st1) = true.
Proof.
  intros Hvalid id h st1.
  set (existing := filter (λ entry : string * nat, idPath entry.1 = urlPath url)
                     (map_to_list (connections st))).
  assert (Hlen : length (sockets (foldl closeExisting st existing)) = h).
  { apply length_sockets_shrinks, shrinks_foldl_closeExisting. }
  assert (Hst1 : st1 = set_connections <[id := h]>
            (set_reconnectAttempts <[id := 0]>
               (set_sockets (λ l, l ++ [newSocket url id options])
                  (foldl closeExisting st existing)))).
  { unfold st1, connect. fold existing. by rewrite Hvalid, Hlen. }
  assert (Hconn : connections st1 !! id = Some h).
  { rewrite Hst1. simpl. apply lookup_insert_eq. }
  assert (Hsock : sockets st1 !! h = Some (newSocket url id options)).
  { rewrite Hst1. simpl. rewrite <- Hlen. apply list_lookup_middle. done. }
  assert (Hopen : ∀ st' s,
            sockets st' !! h = Some s → readyState s = CONNECTING →
            sock_connectionId s = id →
            connections (socket_onopen h st') = connections st'
            ∧ sockets (socket_onopen h st') !! h = Some (with_readyState OPEN s)
            ∧ reconnectAttempts (socket_onopen h st') !! id = Some 0).
  { intros st' s Hs Hrs Hid. unfold socket_onopen. rewrite Hs, Hrs, Hid.
    assert (Hlt : h < length (sockets st')) by (by eapply lookup_lt_Some).
    destruct (onOpen (sock_options s)); simpl;
      (split_and!; [done|by apply list_lookup_insert_eq|apply lookup_insert_eq]). }
  split_and!.
  - unfold connect. by rewrite Hvalid.
  - done.
  - done.
  - unfold isConnected. by rewrite Hconn, Hsock.
  - unfold sendMessage. by rewrite Hconn, Hsock.
  - intros st' s Hs Hrs Hid st2.
    destruct (Hopen st' s Hs Hrs Hid) as (Hc2 & Hs2 & Ha2). fold st2 in Hc2, Hs2, Ha2.
    split.
    + intros Htracked. rewrite <- Hc2 in Htracked. split_and!.
      * unfold isConnected. by rewrite Htracked, Hs2.
      * done.
      * unfold sendMessage. rewrite Htracked, Hs2. simpl.
        apply list_lookup_insert_eq. by eapply lookup_lt_Some.
    + intros Hgone. rewrite <- Hc2 in Hgone. split.
      * unfold isConnected. by rewrite Hgone.
      * unfold sendMessage. by rewrite Hgone.
  - destruct (Hopen st1 _ Hsock eq_refl eq_refl) as (Hc2 & Hs2 & _).
    unfold isConnected. by rewrite Hc2, Hconn, Hs2.
Qed.

(** [connect] on the empty service, with the scheme of [roomUrl]
    accepted. *)
Lemma connect_open_send_witness :
  let st1 := (connect wsScheme 1000 roomUrl reconnecting initial).1 in
  (connect wsScheme 1000 roomUrl reconnecting initial).2
    = Normal "collaboration/r1_1000"
  ∧ isConnected "collaboration/r1_1000" st1 = false
  ∧ isConnected "collaboration/r1_1000" (socket_onopen 0 st1) = true.
Proof.
  pose proof (connect_open_send wsScheme 1000 roomUrl reconnecting initial hello
                eq_refl) as H.
  cbv zeta in H. destruct H as (H1 & _ & _ & H4 & _ & _ & H7).
  split; [exact H1|]. split; [exact H4|exact H7].
Defined.

(** The record of a connecting socket can be lost before it opens: a
    second [connect] for the endpoint within the same millisecond closes
    the first socket and registers the second under the same id; the
    close event of the first socket then deletes that id, and the open
    event of the second socket leaves it untracked. *)
Example record_lost_before_open :
  let st := run wsScheme
              [EvConnect 1000 roomUrl reconnecting;
               EvConnect 1000 roomUrl reconnecting;
               EvClose 0 1006 false (1 # 2); EvOpen 1] initial in
  readyState <$> sockets st = [CLOSED; OPEN]
  ∧ connections st = ∅
  ∧ isConnected "collaboration/r1_1000" st = false.
Proof. by vm_compute. Qed.

(** X2. [connect] tears down every tracked record whose id starts with
    the key of the new URL (and is not the new id itself), whether or not
    the new socket can be created: the id leaves the three maps, its
    socket gets [close(1000, 'Replacing with new connection')], and a
    retry timer pending under the id is cleared. *)
Theorem connect_tears_down_matching
    (validUrl : string → bool) (now : N) (url : string) (options : Options)
    (st : Service) (id : string) (h : nat) (s : Socket) :
  connections st !! id = Some h →
  sockets st !! h = Some s →
  idPath id = urlPath url →
  id ≠ mkConnectionId (urlPath url) now →
  let st' := (connect validUrl now url options st).1 in
  connections st' !! id = None
  ∧ reconnectTimeouts st' !! id = None
  ∧ reconnectAttempts st' !! id = None
  ∧ sockets st' !! h = Some (ws_close 1000 "Replacing with new connection" s)
  ∧ isConnected id st' = false
  ∧ ∀ t tm, reconnectTimeouts st !! id = Some t →
            timers st !! t = Some tm → t_status tm = Pending →
            ∃ tm', timers st' !! t = Some tm' ∧ t_status tm' = Cleared.
Proof.
  intros Hid Hs Hpath Hnew st'.
  set (existing := filter (λ entry : string * nat, idPath entry.1 = urlPath url)
                     (map_to_list (connections st))).
  set (st1 := foldl closeExisting st existing).
  assert (Hentry : (id, h) ∈ existing) by by apply existing_entries.
  assert (Hin : id ∈ existing.*1).
  { apply list_elem_of_fmap. by exists (id, h). }
  assert (Hh : h ∈ existing.*2).
  { apply list_elem_of_fmap. by exists (id, h). }
  destruct (proj1 (foldl_closeExisting_maps existing st id) Hin) as (Hc & Hto & Hat).
  pose proof (foldl_closeExisting_sockets existing st h s Hs) as Hsock.
  rewrite decide_True in Hsock by done.
  fold st1 in Hc, Hto, Hat, Hsock.
  assert (Hconn' : connections st' !! id = None).
  { unfold st', connect. fold existing st1.
    destruct (validUrl url); simpl; [|done]. by rewrite lookup_insert_ne. }
  split_and!.
  - done.
  - unfold st', connect. fold existing st1. by destruct (validUrl url).
  - unfold st', connect. fold existing st1.
    destruct (validUrl url); simpl; [|done]. by rewrite lookup_insert_ne.
  - unfold st', connect. fold existing st1.
    destruct (validUrl url); simpl; [|done]. by apply lookup_app_l_Some.
  - unfold isConnected. by rewrite Hconn'.
  - intros t tm Ht Htm Hp.
    destruct (foldl_closeExisting_clears_timer existing st id h t tm
                Hentry Ht Htm Hp) as (tm' & Htm' & Hc').
    exists tm'. split; [|done].
    unfold st', connect. fold existing st1. by destruct (validUrl url).
Qed.

(** A second [connect] to [roomUrl], one second after the first has
    opened. *)
Lemma connect_tears_down_matching_witness :
  connections openedOnce !! "collaboration/r1_1000" = Some 0
  ∧ sockets openedOnce !! 0%nat = Some openedSocket
  ∧ let st' := (connect wsScheme 2000 roomUrl reconnecting openedOnce).1 in
    connections st' !! "collaboration/r1_1000" = None
    ∧ sockets st' !! 0%nat
      = Some (ws_close 1000 "Replacing with new connection" openedSocket)
    ∧ isConnected "collaboration/r1_1000" st' = false.
Proof.
  assert (Hne : "collaboration/r1_1000" ≠ mkConnectionId (urlPath roomUrl) 2000)
    by (vm_compute; discriminate).
  pose proof (connect_tears_down_matching wsScheme 2000 roomUrl reconnecting
                openedOnce "collaboration/r1_1000" 0 openedSocket
                eq_refl eq_refl eq_refl Hne) as H.
  cbv zeta in H. destruct H as (H1 & _ & _ & H4 & H5 & _).
  split; [reflexivity|]. split; [reflexivity|].
  cbv zeta. split; [exact H1|]. split; [exact H4|exact H5].
Defined.

(** X3. When the host rejects the URL, [connect] rethrows the
    [SyntaxError] and creates neither a socket nor a timer nor a map
    entry; but the records of that endpoint have been dropped before the
    attempt: afterwards no tracked id starts with the key, and every
    other tracked id is as before. *)
Theorem failed_connect_still_drops_endpoint
    (validUrl : string → bool) (now : N) (url : string) (options : Options)
    (st : Service) :
  validUrl url = false →
  let r := connect validUrl now url options st in
  r.2 = Throw SyntaxError
  ∧ length (sockets r.1) = length (sockets st)
  ∧ length (timers r.1) = length (timers st)
  ∧ ∀ id, connections r.1 !! id
          = if decide (idPath id = urlPath url) then None
            else connections st !! id.
Proof.
  intros Hbad r.
  set (existing := filter (λ entry : string * nat, idPath entry.1 = urlPath url)
                     (map_to_list (connections st))).
  assert (Hr : r = (foldl closeExisting st existing, Throw SyntaxError)).
  { unfold r, connect. fold existing. by rewrite Hbad. }
  rewrite Hr. simpl.
  pose proof (shrinks_foldl_closeExisting existing st) as Hshr.
  split_and!.
  - done.
  - by apply length_sockets_shrinks.
  - destruct Hshr as (_ & _ & Ht).
    by rewrite <- (length_fmap t_url (timers _)), Ht, length_fmap.
  - intros id. destruct (decide (idPath id = urlPath url)) as [Hp|Hp].
    + destruct (connections (foldl closeExisting st existing) !! id) as [h|] eqn:E;
        [|done].
      by destruct (closing_loop_clears_key url st id h E).
    + apply (foldl_closeExisting_maps existing st id).
      intros Hin. apply existing_ids in Hin as [_ ?]. done.
Qed.

(** The rejected URL [badSchemeUrl] has the key of the open connection of
    [openedOnce]. *)
Lemma failed_connect_still_drops_endpoint_witness :
  wsScheme badSchemeUrl = false
  ∧ connections openedOnce !! "collaboration/r1_1000" = Some 0
  ∧ let r := connect wsScheme 2000 badSchemeUrl reconnecting openedOnce in
    r.2 = Throw SyntaxError
    ∧ connections r.1 !! "collaboration/r1_1000" = None.
Proof.
  pose proof (failed_connect_still_drops_endpoint wsScheme 2000 badSchemeUrl
                reconnecting openedOnce eq_refl) as H.
  cbv zeta in H. destruct H as (H1 & _ & _ & H4).
  split; [reflexivity|]. split; [reflexivity|].
  cbv zeta. split; [exact H1|].
  exact (H4 "collaboration/r1_1000").
Defined.

(** X4. For endpoint keys without underscore the connection id names its
    record: two ids are equal only when both the key and the millisecond
    of [Date.now()] are. *)
Theorem connection_id_injective (path1 path2 : string) (now1 now2 : N) :
  hasChar "_"%char path1 = false →
  hasChar "_"%char path2 = false →
  mkConnectionId path1 now1 = mkConnectionId path2 now2 →
  path1 = path2 ∧ now1 = now2.
Proof.
  intros H1 H2 Heq.
  assert (Hp : path1 = path2).
  { rewrite <- (idPath_mkConnectionId path1 now1 H1),
            <- (idPath_mkConnectionId path2 now2 H2). by rewrite Heq. }
  split; [done|]. subst path2. unfold mkConnectionId in Heq.
  apply (inj (String.app path1)) in Heq.
  apply (inj (String.app "_")) in Heq.
  by apply (inj pretty) in Heq.
Qed.

(** Two ids of room [r1], made at the same millisecond. *)
Lemma connection_id_injective_witness :
  hasChar "_"%char "collaboration/r1" = false
  ∧ mkConnectionId "collaboration/r1" 1000 = "collaboration/r1_1000"
  ∧ "collaboration/r1" = "collaboration/r1" ∧ 1000%N = 1000%N.
Proof.
  split; [reflexivity|]. split; [reflexivity|].
  exact (connection_id_injective "collaboration/r1" "collaboration/r1" 1000 1000
           eq_refl eq_refl eq_refl).
Defined.

(** ** [disconnect] *)

Lemma service_eq (st st' : Service) :
  connections st = connections st' → reconnectTimeouts st = reconnectTimeouts st' →
  reconnectAttempts st = reconnectAttempts st' → sockets st = sockets st' →
  timers st = timers st' → callbacks st = callbacks st' → st = st'.
Proof. destruct st, st'; simpl; by intros -> -> -> -> -> ->. Qed.

Lemma disconnect_maps id st :
  connections (disconnect id st) = delete id (connections st)
  ∧ reconnectTimeouts (disconnect id st) = delete id (reconnectTimeouts st)
  ∧ reconnectAttempts (disconnect id st) = delete id (reconnectAttempts st)
  ∧ callbacks (disconnect id st) = callbacks st.
Proof.
  unfold disconnect.
  destruct (connections st !! id) as [h|] eqn:Hc; simpl;
    destruct (reconnectTimeouts st !! id) as [t|] eqn:Ht; simpl;
    rewrite ?(delete_id _ _ Hc), ?(delete_id _ _ Ht); done.
Qed.

Lemma disconnect_sockets id st :
  sockets (disconnect id st)
  = match connections st !! id with
    | Some h => alter (ws_close 1000 "Manual disconnect") h (sockets st)
    | None => sockets st
    end.
Proof.
  unfold disconnect.
  destruct (connections st !! id) as [h|]; simpl;
    by destruct (reconnectTimeouts st !! id).
Qed.

Lemma disconnect_timers id st :
  timers (disconnect id st)
  = match reconnectTimeouts st !! id with
    | Some t => timers (clearTimeout t st)
    | None => timers st
    end.
Proof.
  unfold disconnect.
  destruct (connections st !! id) as [h|]; simpl;
    by destruct (reconnectTimeouts st !! id).
Qed.

(** X5. [disconnect] of an id the service does not know changes
    nothing, and a second [disconnect] of the same id changes nothing
    more. *)
Theorem disconnect_idempotent (st : Service) (id : string) :
  (connections st !! id = None → reconnectTimeouts st !! id = None →
   reconnectAttempts st !! id = None → disconnect id st = st)
  ∧ disconnect id (disconnect id st) = disconnect id st.
Proof.
  assert (Hnoop : ∀ st0, connections st0 !! id = None →
            reconnectTimeouts st0 !! id = None →
            reconnectAttempts st0 !! id = None → disconnect id st0 = st0).
  { intros st0 Hc Ht Ha.
    destruct (disconnect_maps id st0) as (E1 & E2 & E3 & E4).
    apply service_eq; rewrite ?E1, ?E2, ?E3, ?E4, ?delete_id; try done.
    - by rewrite disconnect_sockets, Hc.
    - by rewrite disconnect_timers, Ht. }
  split; [apply Hnoop|].
  destruct (disconnect_maps id st) as (E1 & E2 & E3 & _).
  apply Hnoop; rewrite ?E1, ?E2, ?E3; apply lookup_delete_eq.
Qed.

(** X6. [disconnect(id)] removes the id from the three maps, after which
    [isConnected(id)] is false and [sendMessage(id, _)] does nothing; the
    socket tracked under the id gets [close(1000, 'Manual disconnect')];
    the entries of every other id, every other socket and the caller's
    callbacks are untouched (the caller's [onClose] is left to the close
    event). *)
Theorem disconnect_closes_only_its_record (st : Service) (id : string) :
  let st' := disconnect id st in
  connections st' !! id = None
  ∧ reconnectTimeouts st' !! id = None
  ∧ reconnectAttempts st' !! id = None
  ∧ isConnected id st' = false
  ∧ (∀ message, sendMessage id message st' = st')
  ∧ (∀ id', id' ≠ id →
       connections st' !! id' = connections st !! id'
       ∧ reconnectTimeouts st' !! id' = reconnectTimeouts st !! id'
       ∧ reconnectAttempts st' !! id' = reconnectAttempts st !! id')
  ∧ (∀ h s, connections st !! id = Some h → sockets st !! h = Some s →
       sockets st' !! h = Some (ws_close 1000 "Manual disconnect" s))
  ∧ (∀ h, connections st !! id ≠ Some h → sockets st' !! h = sockets st !! h)
  ∧ callbacks st' = callbacks st.
Proof.
  intros st'. destruct (disconnect_maps id st) as (E1 & E2 & E3 & E4).
  fold st' in E1, E2, E3, E4.
  assert (Hc : connections st' !! id = None) by (rewrite E1; apply lookup_delete_eq).
  split_and!.
  - done.
  - rewrite E2. apply lookup_delete_eq.
  - rewrite E3. apply lookup_delete_eq.
  - unfold isConnected. by rewrite Hc.
  - intros message. unfold sendMessage. by rewrite Hc.
  - intros id' Hne. rewrite E1, E2, E3. by rewrite !lookup_delete_ne.
  - intros h s Hh Hs. unfold st'. rewrite disconnect_sockets, Hh.
    by rewrite list_lookup_alter_eq, Hs.
  - intros h Hh. unfold st'. rewrite disconnect_sockets.
    destruct (connections st !! id) as [h0|]; [|done].
    rewrite list_lookup_alter_ne; [done|]. congruence.
  - done.
Qed.

(** ** [disconnectAll] *)

Lemma map_fold_alter_spec {A} (f : A → A) (m : gmap string nat) (l : list A) :
  (∀ x, f (f x) = f x) →
  ∀ h x, l !! h = Some x →
    ∃ b : bool,
      map_fold (λ _ v acc, alter f v acc) l m !! h = Some (if b then f x else x)
      ∧ (b = true ↔ ∃ k, m !! k = Some h).
Proof.
  intros Hidem h x Hx.
  induction m as [|k v m Hk Hfirst IH] using map_first_key_ind.
  - exists false. rewrite map_fold_empty. split; [done|].
    split; [done|]. intros [k Hk]. by rewrite lookup_empty in Hk.
  - rewrite map_fold_insert_first_key by done.
    destruct IH as (b & Hb & Hiff).
    destruct (decide (v = h)) as [->|Hne].
    + exists true. split.
      * rewrite list_lookup_alter_eq, Hb. simpl. destruct b; by rewrite ?Hidem.
      * split; [|done]. intros _. exists k. apply lookup_insert_eq.
    + exists b. split.
      * by rewrite list_lookup_alter_ne.
      * rewrite Hiff. split.
        -- intros [k' Hk']. exists k'. rewrite lookup_insert_ne; [done|].
           intros ->. by rewrite Hk in Hk'.
        -- intros [k' Hk']. exists k'.
           apply lookup_insert_Some in Hk' as [[_ ?]|[_ ?]]; [done|done].
Qed.

Lemma map_fold_closeSocket code reason (m : gmap string nat) st :
  let r := map_fold (λ _ socket acc, closeSocket socket code reason acc) st m in
  connections r = connections st ∧ reconnectTimeouts r = reconnectTimeouts st
  ∧ reconnectAttempts r = reconnectAttempts st ∧ timers r = timers st
  ∧ callbacks r = callbacks st
  ∧ sockets r = map_fold (λ _ v acc, alter (ws_close code reason) v acc) (sockets st) m.
Proof.
  induction m as [|k v m Hk Hfirst IH] using map_first_key_ind.
  - by rewrite !map_fold_empty.
  - cbv zeta in IH |- *. rewrite !map_fold_insert_first_key by done.
    destruct IH as (I1 & I2 & I3 & I4 & I5 & I6). simpl.
    by rewrite I1, I2, I3, I4, I5, I6.
Qed.

Lemma map_fold_clearTimeout (m : gmap string nat) st :
  let r := map_fold (λ _ timeout acc, clearTimeout timeout acc) st m in
  connections r = connections st ∧ reconnectTimeouts r = reconnectTimeouts st
  ∧ reconnectAttempts r = reconnectAttempts st ∧ sockets r = sockets st
  ∧ callbacks r = callbacks st
  ∧ timers r = map_fold (λ _ v acc,
                 alter (λ tm, match t_status tm with
                              | Pending => with_status Cleared tm
                              | _ => tm
                              end) v acc) (timers st) m.
Proof.
  induction m as [|k v m Hk Hfirst IH] using map_first_key_ind.
  - by rewrite !map_fold_empty.
  - cbv zeta in IH |- *. rewrite !map_fold_insert_first_key by done.
    destruct IH as (I1 & I2 & I3 & I4 & I5 & I6). simpl.
    by rewrite I1, I2, I3, I4, I5, I6.
Qed.

Lemma disconnectAll_fields st :
  connections (disconnectAll st) = ∅
  ∧ reconnectTimeouts (disconnectAll st) = ∅
  ∧ reconnectAttempts (disconnectAll st) = ∅
  ∧ callbacks (disconnectAll st) = callbacks st
  ∧ sockets (disconnectAll st)
    = map_fold (λ _ v acc, alter (ws_close 1000 "Manual disconnect all") v acc)
        (sockets st) (connections st)
  ∧ timers (disconnectAll st)
    = map_fold (λ _ v acc,
        alter (λ tm, match t_status tm with
                     | Pending => with_status Cleared tm
                     | _ => tm
                     end) v acc) (timers st) (reconnectTimeouts st).
Proof.
  unfold disconnectAll. simpl.
  set (st1 := map_fold _ st (connections st)).
  destruct (map_fold_closeSocket 1000 "Manual disconnect all" (connections st) st)
    as (C1 & C2 & C3 & C4 & C5 & C6). fold st1 in C1, C2, C3, C4, C5, C6.
  set (st2 := set_connections (λ _, ∅) st1).
  destruct (map_fold_clearTimeout (reconnectTimeouts st1) st2)
    as (D1 & D2 & D3 & D4 & D5 & D6).
  rewrite D1, D4, D5, D6. unfold st2. simpl. by rewrite C2, C4, C5, C6.
Qed.

Lemma clear_idemp (tm : Timer) :
  let clr := λ tm, match t_status tm with
                   | Pending => with_status Cleared tm
                   | _ => tm
                   end in
  clr (clr tm) = clr tm.
Proof. simpl. by destruct (t_status tm) eqn:E; simpl; rewrite ?E. Qed.

(** X7. [disconnectAll] empties the three maps; every socket that was
    tracked gets [close(1000, 'Manual disconnect all')] and every other
    socket is left alone; every pending timer that was registered is
    cleared; no callback of the caller is run. *)
Theorem disconnectAll_clears_everything (st : Service) :
  let st' := disconnectAll st in
  connections st' = ∅
  ∧ reconnectTimeouts st' = ∅
  ∧ reconnectAttempts st' = ∅
  ∧ callbacks st' = callbacks st
  ∧ (∀ id h s, connections st !! id = Some h → sockets st !! h = Some s →
       sockets st' !! h = Some (ws_close 1000 "Manual disconnect all" s))
  ∧ (∀ h, (∀ id, connections st !! id ≠ Some h) →
       sockets st' !! h = sockets st !! h)
  ∧ (∀ id t tm, reconnectTimeouts st !! id = Some t → timers st !! t = Some tm →
       t_status tm = Pending →
       timers st' !! t = Some (with_status Cleared tm))
  ∧ (∀ id, isConnected id st' = false).
Proof.
  intros st'.
  destruct (disconnectAll_fields st) as (E1 & E2 & E3 & E4 & E5 & E6).
  fold st' in E1, E2, E3, E4, E5, E6.
  split_and!; try done.
  - intros id h s Hid Hs. rewrite E5.
    destruct (map_fold_alter_spec (ws_close 1000 "Manual disconnect all")
                (connections st) (sockets st)
                (ws_close_idemp _ _) h s Hs) as (b & Hb & Hiff).
    rewrite Hb. destruct b; [done|].
    assert (false = true) by (apply Hiff; by exists id). done.
  - intros h Hh. rewrite E5.
    destruct (sockets st !! h) as [s|] eqn:Hs.
    + destruct (map_fold_alter_spec (ws_close 1000 "Manual disconnect all")
                  (connections st) (sockets st)
                  (ws_close_idemp _ _) h s Hs) as (b & Hb & Hiff).
      rewrite Hb. destruct b; [|done].
      destruct (proj1 Hiff eq_refl) as [k Hk]. by destruct (Hh k).
    + apply lookup_ge_None. apply lookup_ge_None in Hs.
      clear -Hs. induction (connections st) as [|k v m Hk Hfirst IH]
        using map_first_key_ind.
      * by rewrite map_fold_empty.
      * rewrite map_fold_insert_first_key by done. by rewrite length_alter.
  - intros id t tm Hid Ht Hp. rewrite E6.
    destruct (map_fold_alter_spec _ (reconnectTimeouts st) (timers st)
                clear_idemp t tm Ht) as (b & Hb & Hiff).
    rewrite Hb. destruct b; [by rewrite Hp|].
    assert (false = true) by (apply Hiff; by exists id). done.
  - intros id. unfold isConnected. by rewrite E1, lookup_empty.
Qed.

(** ** Every pending retry is registered *)

Lemma pendingRegistered_same st st' :
  timers st' = timers st → reconnectTimeouts st' = reconnectTimeouts st →
  pendingRegistered st → pendingRegistered st'.
Proof. intros Ht Hm Hinv t tm. rewrite Ht, Hm. apply Hinv. Qed.

Lemma pendingRegistered_dropTimeout id st :
  pendingRegistered st →
  pendingRegistered
    match reconnectTimeouts st !! id with
    | Some timeout => set_reconnectTimeouts (delete id) (clearTimeout timeout st)
    | None => st
    end.
Proof.
  intros Hinv. destruct (reconnectTimeouts st !! id) as [t0|] eqn:E; [|done].
  intros t tm Ht Hp. simpl in Ht |- *.
  rewrite list_lookup_alter in Ht.
  destruct (decide (t0 = t)) as [->|Hne].
  - destruct (timers st !! t) as [tm0|]; [|done]. simpl in Ht.
    injection Ht as <-. by destruct (t_status tm0) eqn:E0; simpl in Hp; rewrite ?E0 in Hp.
  - pose proof (Hinv t tm Ht Hp) as Hreg.
    rewrite lookup_delete_ne; [done|]. intros Heq. rewrite <- Heq in Hreg.
    congruence.
Qed.

Lemma pendingRegistered_closeExisting st entry :
  pendingRegistered st → pendingRegistered (closeExisting st entry).
Proof.
  intros Hinv. destruct entry as [id socket]. unfold closeExisting.
  eapply pendingRegistered_same; [| |apply (pendingRegistered_dropTimeout id)].
  - done.
  - done.
  - by eapply pendingRegistered_same; [| |exact Hinv].
Qed.

Lemma pendingRegistered_connect validUrl now url options st :
  pendingRegistered st → pendingRegistered (connect validUrl now url options st).1.
Proof.
  intros Hinv. unfold connect.
  set (existing := filter _ _).
  assert (H1 : pendingRegistered (foldl closeExisting st existing)).
  { clearbody existing. revert st Hinv.
    induction existing as [|e l IH]; intros st Hinv; simpl; [done|].
    apply IH. by apply pendingRegistered_closeExisting. }
  destruct (validUrl url); [|done].
  by eapply pendingRegistered_same; [| |exact H1].
Qed.

Lemma pendingRegistered_socket_onclose h code wasClean rnd st :
  pendingRegistered st → pendingRegistered (socket_onclose h code wasClean rnd st).
Proof.
  intros Hinv.
  destruct (sockets st !! h) as [s|] eqn:Hs;
    [|unfold socket_onclose; by rewrite Hs].
  destruct (decide (readyState s = CLOSED)) as [Hc|Hopen].
  { unfold socket_onclose. rewrite Hs. by rewrite decide_True. }
  rewrite (socket_onclose_unfold _ _ _ _ _ _ Hs Hopen). cbn zeta.
  pose proof (afterCleanup_facts h s st) as (_ & _ & Hnone).
  assert (H1 : pendingRegistered (afterCleanup h s st)).
  { unfold afterCleanup.
    eapply pendingRegistered_same;
      [| |apply (pendingRegistered_dropTimeout (sock_connectionId s))].
    - by destruct (onClose (sock_options s)).
    - by destruct (onClose (sock_options s)).
    - by eapply pendingRegistered_same; [| |exact Hinv]. }
  destruct (shouldReconnect _ _ _); [destruct (decide _)|];
    try by (eapply pendingRegistered_same; [| |exact H1]).
  intros t tm Ht Hp. simpl in Ht |- *.
  apply lookup_app_Some in Ht as [Ht|[Hlen Ht]].
  - pose proof (H1 t tm Ht Hp) as Hreg.
    rewrite lookup_insert_ne; [done|]. intros Heq. rewrite <- Heq in Hreg.
    congruence.
  - destruct (t - length (timers (afterCleanup h s st))) as [|n] eqn:En;
      [|by destruct n].
    simpl in Ht. injection Ht as <-. simpl.
    rewrite lookup_insert_eq. f_equal. lia.
Qed.

Lemma pendingRegistered_timer_fire validUrl t now st :
  pendingRegistered st → pendingRegistered (timer_fire validUrl t now st).
Proof.
  intros Hinv. unfold timer_fire.
  destruct (timers st !! t) as [tm|] eqn:Ht; [|done].
  destruct (t_status tm) eqn:Hst; try done.
  assert (H1 : pendingRegistered (set_timers <[t := with_status Fired tm]> st)).
  { intros t' tm' Ht' Hp'. simpl in Ht' |- *.
    destruct (decide (t = t')) as [->|Hne].
    - rewrite list_lookup_insert_eq in Ht' by (by apply lookup_lt_is_Some).
      injection Ht' as <-. done.
    - rewrite list_lookup_insert_ne in Ht' by done. by apply Hinv. }
  unfold retryCallback. destruct (decide _); [|done].
  apply pendingRegistered_connect.
  by eapply pendingRegistered_same; [| |exact H1].
Qed.

Lemma pendingRegistered_disconnect id st :
  pendingRegistered st → pendingRegistered (disconnect id st).
Proof.
  intros Hinv. unfold disconnect.
  eapply pendingRegistered_same; [| |apply (pendingRegistered_dropTimeout id)].
  - done.
  - done.
  - destruct (connections st !! id);
      by eapply pendingRegistered_same; [| |exact Hinv].
Qed.

Lemma map_fold_alter_length {A} (f : A → A) (m : gmap string nat) (l : list A) :
  length (map_fold (λ _ v acc, alter f v acc) l m) = length l.
Proof.
  induction m as [|k v m Hk Hfirst IH] using map_first_key_ind.
  - by rewrite map_fold_empty.
  - rewrite map_fold_insert_first_key by done. by rewrite length_alter.
Qed.

(** After [disconnectAll] on a state where every pending timer is
    registered, no timer is pending. *)
Lemma disconnectAll_no_pending st t tm :
  pendingRegistered st →
  timers (disconnectAll st) !! t = Some tm → t_status tm ≠ Pending.
Proof.
  intros Hinv Ht Hp.
  destruct (disconnectAll_fields st) as (_ & _ & _ & _ & _ & E6).
  rewrite E6 in Ht.
  destruct (timers st !! t) as [tm0|] eqn:Ht0.
  - destruct (map_fold_alter_spec _ (reconnectTimeouts st) (timers st)
                clear_idemp t tm0 Ht0) as (b & Hb & Hiff).
    rewrite Hb in Ht. injection Ht as <-. destruct b.
    + by destruct (t_status tm0) eqn:E0; simpl in Hp; rewrite ?E0 in Hp.
    + assert (false = true); [|done].
      apply Hiff. exists (t_connectionId tm0). by apply Hinv.
  - apply lookup_ge_None in Ht0.
    assert (t < length (timers st)); [|lia].
    rewrite <- (map_fold_alter_length
                  (λ tm, match t_status tm with
                         | Pending => with_status Cleared tm
                         | _ => tm
                         end) (reconnectTimeouts st) (timers st)).
    by apply lookup_lt_is_Some.
Qed.

Lemma pendingRegistered_disconnectAll st :
  pendingRegistered st → pendingRegistered (disconnectAll st).
Proof.
  intros Hinv t tm Ht Hp. by destruct (disconnectAll_no_pending st t tm Hinv Ht).
Qed.

Lemma pendingRegistered_step validUrl st e :
  pendingRegistered st → pendingRegistered (step validUrl st e).
Proof.
  intros Hinv. destruct e; simpl.
  - by apply pendingRegistered_connect.
  - eapply pendingRegistered_same; [| |exact Hinv]; unfold socket_onopen;
      (destruct (sockets st !! h) as [s|]; [|done]);
      (destruct (readyState s); try done); by destruct (onOpen (sock_options s)).
  - eapply pendingRegistered_same; [| |exact Hinv]; unfold socket_onmessage;
      (destruct (sockets st !! h) as [s|]; [|done]);
      (destruct parsed as [data|]; [|done]);
      (destruct (get data "type"); [|done]);
      by destruct (onMessage (sock_options s)).
  - eapply pendingRegistered_same; [| |exact Hinv]; unfold socket_onerror;
      (destruct (sockets st !! h) as [s|]; [|done]);
      by destruct (onError (sock_options s)).
  - by apply pendingRegistered_socket_onclose.
  - by apply pendingRegistered_timer_fire.
  - by apply pendingRegistered_disconnect.
  - by apply pendingRegistered_disconnectAll.
  - eapply pendingRegistered_same; [| |exact Hinv]; unfold sendMessage;
      (destruct (connections st !! connectionId) as [socket|]; [|done]);
      (destruct (sockets st !! socket) as [s|]; [|done]); by destruct (decide _).
Qed.

Lemma pendingRegistered_run validUrl es :
  pendingRegistered (run validUrl es initial).
Proof.
  unfold run.
  assert (H0 : pendingRegistered initial) by (intros t tm Ht; done).
  revert H0. generalize initial.
  induction es as [|e es IH]; intros st Hinv; simpl; [done|].
  apply IH. by apply pendingRegistered_step.
Qed.

(** X8. Along every run of the service, a pending retry timer is the one
    registered under the connection id its callback captured; hence at
    most one retry is pending per connection id at any time. *)
Theorem one_pending_retry_per_id (validUrl : string → bool) (es : list Event) :
  let st := run validUrl es initial in
  pendingRegistered st
  ∧ ∀ t1 t2 tm1 tm2,
      timers st !! t1 = Some tm1 → timers st !! t2 = Some tm2 →
      t_status tm1 = Pending → t_status tm2 = Pending →
      t_connectionId tm1 = t_connectionId tm2 → t1 = t2.
Proof.
  intros st. pose proof (pendingRegistered_run validUrl es) as Hinv.
  fold st in Hinv. split; [done|].
  intros t1 t2 tm1 tm2 H1 H2 P1 P2 Hid.
  pose proof (Hinv t1 tm1 H1 P1) as R1.
  pose proof (Hinv t2 tm2 H2 P2) as R2.
  rewrite Hid in R1. congruence.
Qed.

(** X9. On every state the service can reach, [disconnect(id)] leaves no
    retry pending for that id: whatever timers remain with this
    connection id are cleared or have fired. *)
Theorem disconnect_leaves_no_retry
    (validUrl : string → bool) (es : list Event) (id : string) :
  let st' := disconnect id (run validUrl es initial) in
  ∀ t tm, timers st' !! t = Some tm → t_connectionId tm = id →
          t_status tm ≠ Pending.
Proof.
  intros st' t tm Ht Hid Hp.
  pose proof (pendingRegistered_disconnect id _ (pendingRegistered_run validUrl es))
    as Hinv.
  pose proof (Hinv t tm Ht Hp) as Hreg. rewrite Hid in Hreg.
  destruct (disconnect_maps id (run validUrl es initial)) as (_ & E2 & _).
  rewrite E2, lookup_delete_eq in Hreg. done.
Qed.

(** The retry pending in [closedOnce], after [disconnect]. *)
Lemma disconnect_leaves_no_retry_witness :
  timers (disconnect "collaboration/r1_1000" closedOnce) !! 0%nat
  = Some (with_status Cleared pendingRetry)
  ∧ t_status (with_status Cleared pendingRetry) ≠ Pending.
Proof.
  split; [reflexivity|].
  exact (disconnect_leaves_no_retry wsScheme
           [EvConnect 1000 roomUrl reconnecting; EvOpen 0;
            EvClose 0 1011 false (1 # 2)]
           "collaboration/r1_1000" 0 (with_status Cleared pendingRetry)
           eq_refl eq_refl).
Defined.

(** X10. On every state the service can reach, [disconnectAll] leaves no
    timer pending, so no retry timer can fire afterwards. *)
Theorem disconnectAll_cancels_every_retry
    (validUrl : string → bool) (es : list Event) :
  let st' := disconnectAll (run validUrl es initial) in
  Forall (λ tm, t_status tm ≠ Pending) (timers st')
  ∧ ∀ t now, timer_fire validUrl t now st' = st'.
Proof.
  intros st'.
  assert (Hno : ∀ t tm, timers st' !! t = Some tm → t_status tm ≠ Pending).
  { intros t tm. apply disconnectAll_no_pending, pendingRegistered_run. }
  split.
  - apply Forall_lookup. intros t tm. apply Hno.
  - intros t now. unfold timer_fire.
    destruct (timers st' !! t) as [tm|] eqn:Ht; [|done].
    pose proof (Hno t tm Ht). by destruct (t_status tm).
Qed.

(** ** [sendMessage] and [isConnected] *)

(** X11. [sendMessage] transmits exactly when [isConnected] reports
    true: then the message is appended to what the tracked socket has
    sent and nothing else changes; otherwise the call changes nothing.
    Sending never changes what [isConnected] reports. *)
Theorem sendMessage_iff_connected (st : Service) (id : string) (message : Envelope) :
  let st' := sendMessage id message st in
  (isConnected id st = false → st' = st)
  ∧ (isConnected id st = true →
     ∃ h s, connections st !! id = Some h ∧ sockets st !! h = Some s
            ∧ readyState s = OPEN
            ∧ sockets st' !! h = Some (ws_send message s)
            ∧ sent (ws_send message s) = sent s ++ [message]
            ∧ ∀ h', h' ≠ h → sockets st' !! h' = sockets st !! h')
  ∧ connections st' = connections st
  ∧ reconnectTimeouts st' = reconnectTimeouts st
  ∧ reconnectAttempts st' = reconnectAttempts st
  ∧ timers st' = timers st
  ∧ ∀ id', isConnected id' st' = isConnected id' st.
Proof.
  intros st'. unfold st', sendMessage, isConnected.
  destruct (connections st !! id) as [h|] eqn:Hc; [|done].
  destruct (sockets st !! h) as [s|] eqn:Hs; [|done].
  destruct (decide (readyState s = OPEN)) as [Ho|Hn].
  - rewrite bool_decide_eq_true_2 by done. split_and!; try done.
    + intros _. exists h, s. split_and!; try done.
      * simpl. apply list_lookup_insert_eq. by apply lookup_lt_is_Some.
      * intros h' Hne. simpl. by rewrite list_lookup_insert_ne.
    + intros id'. simpl. destruct (connections st !! id') as [h'|]; [|done].
      destruct (decide (h' = h)) as [->|Hne].
      * rewrite list_lookup_insert_eq by (by apply lookup_lt_is_Some).
        by rewrite Hs.
      * by rewrite list_lookup_insert_ne.
  - rewrite bool_decide_eq_false_2 by done. done.
Qed.

(** ** Socket events *)

(** X12. The close event of a socket removes its connection id from the
    connection map, so [isConnected] is false for it, marks the socket
    closed and runs the caller's [onClose] once.  When the closure is not
    eligible for a retry, nothing of the id is left in the timer map or
    the attempt map and no timer is created.  A second close event on
    the same socket changes nothing. *)
Theorem close_event_removes_record
    (st : Service) (h : nat) (s : Socket) (code : Z) (wasClean : bool) (rnd : Q) :
  sockets st !! h = Some s →
  readyState s ≠ CLOSED →
  let id := sock_connectionId s in
  let st' := socket_onclose h code wasClean rnd st in
  connections st' !! id = None
  ∧ isConnected id st' = false
  ∧ sockets st' !! h = Some (with_readyState CLOSED s)
  ∧ callbacks st'
    = callbacks st ++ match onClose (sock_options s) with
                      | Some f => [CbClose f]
                      | None => []
                      end
  ∧ (shouldReconnect (sock_options s) code wasClean = false →
     reconnectTimeouts st' !! id = None ∧ reconnectAttempts st' !! id = None
     ∧ length (timers st') = length (timers st))
  ∧ ∀ code' wasClean' rnd', socket_onclose h code' wasClean' rnd' st' = st'.
Proof.
  intros Hs Hopen id st'.
  pose proof (afterCleanup_facts h s st) as (Hlen & Hatt & Hto).
  assert (H1 : connections (afterCleanup h s st) !! id = None).
  { unfold afterCleanup.
    destruct (onClose (sock_options s)); simpl;
      destruct (reconnectTimeouts st !! sock_connectionId s); simpl;
      apply lookup_delete_eq. }
  assert (H2 : sockets (afterCleanup h s st) !! h = Some (with_readyState CLOSED s)).
  { unfold afterCleanup.
    destruct (onClose (sock_options s)); simpl;
      destruct (reconnectTimeouts st !! sock_connectionId s); simpl;
      apply list_lookup_insert_eq; by apply lookup_lt_is_Some. }
  assert (H3 : callbacks (afterCleanup h s st)
             = callbacks st ++ match onClose (sock_options s) with
                               | Some f => [CbClose f]
                               | None => []
                               end).
  { unfold afterCleanup.
    destruct (onClose (sock_options s)); simpl;
      destruct (reconnectTimeouts st !! sock_connectionId s); simpl;
      by rewrite ?app_nil_r. }
  assert (Hst' : connections st' = connections (afterCleanup h s st)
                 ∧ sockets st' = sockets (afterCleanup h s st)
                 ∧ callbacks st' = callbacks (afterCleanup h s st)).
  { unfold st'. rewrite (socket_onclose_unfold _ _ _ _ _ _ Hs Hopen). cbn zeta.
    destruct (shouldReconnect _ _ _); [destruct (decide _)|]; done. }
  destruct Hst' as (E1 & E2 & E3).
  assert (Hc : connections st' !! id = None) by by rewrite E1.
  split_and!.
  - done.
  - unfold isConnected. by rewrite Hc.
  - by rewrite E2.
  - by rewrite E3.
  - intros Hsr. unfold st'.
    rewrite (socket_onclose_unfold _ _ _ _ _ _ Hs Hopen). cbn zeta.
    rewrite Hsr. simpl. split_and!; [done|by rewrite lookup_delete_eq|done].
  - intros code' wasClean' rnd'. unfold socket_onclose at 1.
    rewrite E2, H2. by rewrite decide_True.
Qed.

(** The open socket of [openedOnce] closes normally. *)
Lemma close_event_removes_record_witness :
  sockets openedOnce !! 0%nat = Some openedSocket
  ∧ readyState openedSocket ≠ CLOSED
  ∧ let st' := socket_onclose 0 1000 true (1 # 2) openedOnce in
    connections st' !! "collaboration/r1_1000" = None
    ∧ reconnectAttempts st' !! "collaboration/r1_1000" = None.
Proof.
  assert (Hopen : readyState openedSocket ≠ CLOSED) by discriminate.
  pose proof (close_event_removes_record openedOnce 0 openedSocket 1000 true (1 # 2)
                eq_refl Hopen) as H.
  cbv zeta in H. destruct H as (H1 & _ & _ & _ & H5 & _).
  split; [reflexivity|]. split; [exact Hopen|]. cbv zeta.
  split; [exact H1|]. exact (proj1 (proj2 (H5 eq_refl))).
Defined.

(** X13. The message event hands the parsed payload to the caller's
    [onMessage] only when parsing succeeded and the payload is neither
    [null] nor [undefined]; a text that does not parse, or a [null]
    payload, is swallowed without any change.  In no case does it touch
    the maps, the sockets or the timers. *)
Theorem message_event_guard
    (st : Service) (h : nat) (s : Socket) (parsed : option JSValue) :
  sockets st !! h = Some s →
  let st' := socket_onmessage h parsed st in
  (∀ data f, parsed = Some data → data ≠ JNull → data ≠ JUndefined →
     onMessage (sock_options s) = Some f →
     callbacks st' = callbacks st ++ [CbMessage f data])
  ∧ (parsed = None ∨ parsed = Some JNull ∨ parsed = Some JUndefined
     ∨ onMessage (sock_options s) = None → st' = st)
  ∧ connections st' = connections st
  ∧ reconnectTimeouts st' = reconnectTimeouts st
  ∧ reconnectAttempts st' = reconnectAttempts st
  ∧ sockets st' = sockets st
  ∧ timers st' = timers st.
Proof.
  intros Hs st'. unfold st', socket_onmessage. rewrite Hs.
  destruct parsed as [data|].
  - split_and!.
    + intros data' f [= <-] Hn Hu Hf. rewrite Hf.
      by destruct data.
    + intros [?|[[= ->]|[[= ->]|Hnone]]]; try done.
      rewrite Hnone. by destruct (get data "type").
    + destruct (get data "type"); [|done]. by destruct (onMessage (sock_options s)).
    + destruct (get data "type"); [|done]. by destruct (onMessage (sock_options s)).
    + destruct (get data "type"); [|done]. by destruct (onMessage (sock_options s)).
    + destruct (get data "type"); [|done]. by destruct (onMessage (sock_options s)).
    + destruct (get data "type"); [|done]. by destruct (onMessage (sock_options s)).
  - split_and!; done.
Qed.

(** A parsed [null] arriving on the open socket of [openedOnce]. *)
Lemma message_event_guard_witness :
  sockets openedOnce !! 0%nat = Some openedSocket
  ∧ socket_onmessage 0 (Some JNull) openedOnce = openedOnce.
Proof.
  pose proof (message_event_guard openedOnce 0 openedSocket (Some JNull) eq_refl)
    as H.
  cbv zeta in H. destruct H as (_ & H2 & _).
  split; [reflexivity|]. apply H2. right. by left.
Defined.

(** ** One record per endpoint, for keys without underscore *)

(** X14. Along every run in which the URLs passed to [connect] have an
    endpoint key without underscore, every tracked id is tracked with a
    socket whose endpoint key is the id cut at its first underscore, and
    the map never holds two records with the same endpoint key. *)
Theorem one_record_per_plain_endpoint
    (validUrl : string → bool) (es : list Event) :
  Forall plainEvent es →
  let st := run validUrl es initial in
  (∀ id h, connections st !! id = Some h → endpointKey st h = Some (idPath id))
  ∧ singlePerEndpoint st.
Proof.
  intros Hes st.
  assert (Hinv : keyedByEndpoint st).
  { unfold st, run. generalize keyedByEndpoint_initial. generalize initial.
    induction Hes as [|e es He Hes IH]; intros st0 Hinv; simpl; [done|].
    apply IH. by apply keyedByEndpoint_step. }
  split; [|by apply keyedByEndpoint_single].
  intros id h Hid. destruct (keyed st Hinv id h Hid) as (s & Hs & Hp).
  unfold endpointKey. rewrite Hs. simpl. by rewrite Hp.
Qed.

(** Two connects to [roomUrl], the second replacing the first. *)
Lemma one_record_per_plain_endpoint_witness :
  Forall plainEvent
    [EvConnect 1000 roomUrl reconnecting; EvConnect 2000 roomUrl reconnecting]
  ∧ singlePerEndpoint (connectedTwice roomUrl).
Proof.
  assert (H : Forall plainEvent
    [EvConnect 1000 roomUrl reconnecting; EvConnect 2000 roomUrl reconnecting]).
  { repeat constructor. }
  split; [exact H|].
  exact (proj2 (one_record_per_plain_endpoint wsScheme _ H)).
Defined.

End TransportLaws.

(** * Further properties of the session *)

Module SessionLaws.
Import JS Wire Session SessionProps.
Local Open Scope list_scope.

(** ** The URL of a room and its endpoint key *)

Lemma split_nonempty (sep : ascii) (s : string) : Transport.split sep s ≠ [].
Proof.
  destruct s as [|c s]; simpl; [done|].
  destruct (Ascii.eqb c sep); [done|]. by destruct (Transport.split sep s).
Qed.

Lemma split_app_sep (sep : ascii) (a b : string) :
  Transport.split sep (a ++ String sep b)%string
  = Transport.split sep a ++ Transport.split sep b.
Proof.
  induction a as [|c a IH]; simpl.
  - by rewrite Ascii.eqb_refl.
  - destruct (Ascii.eqb c sep); [by rewrite IH|].
    rewrite IH. destruct (Transport.split sep a) as [|w ws] eqn:E; [|done].
    by destruct (split_nonempty sep a).
Qed.

Lemma split_without_sep (sep : ascii) (s : string) :
  Transport.hasChar sep s = false → Transport.split sep s = [s].
Proof.
  induction s as [|c s IH]; simpl; [done|].
  intros H. apply orb_false_iff in H as [Hc Hs]. by rewrite Hc, IH.
Qed.

(** Whatever precedes [/collaboration/<room>], the key is
    [collaboration/<room>]. *)
Lemma urlPath_collaboration (prefix room : string) :
  Transport.hasChar "/"%char room = false →
  Transport.urlPath (prefix ++ "/collaboration/" ++ room)%string
  = ("collaboration/" ++ room)%string.
Proof.
  intros Hroom. unfold Transport.urlPath.
  change ("/collaboration/" ++ room)%string
    with (String "/"%char ("collaboration" ++ String "/"%char room))%string.
  rewrite !split_app_sep, (split_without_sep _ room Hroom).
  change (Transport.split "/" "collaboration") with ["collaboration"%string].
  rewrite length_app. simpl.
  replace (length (Transport.split "/" prefix) + 2 - 2)
    with (length (Transport.split "/" prefix)) by lia.
  by rewrite drop_app_length.
Qed.

Lemma string_app_assoc (a b c : string) :
  ((a ++ b) ++ c = a ++ (b ++ c))%string.
Proof.
  induction a as [|x a IH]; [done|].
  change (String x ((a ++ b) ++ c) = String x (a ++ (b ++ c)))%string.
  by rewrite IH.
Qed.

Lemma hasChar_app (ch : ascii) (a b : string) :
  Transport.hasChar ch (a ++ b)%string
  = Transport.hasChar ch a || Transport.hasChar ch b.
Proof.
  induction a as [|x a IH]; simpl; [done|]. by rewrite IH, orb_assoc.
Qed.

(** X15. For a room id without slash, the endpoint key of the URL built
    by [getWebSocketUrl] is [collaboration/<id>] on every host, in
    development and in production; so two such rooms have the same key
    only when they are the same room, and the key has an underscore
    exactly when the room id has one. *)
Theorem room_url_endpoint_key (env : Env) (schema : string) :
  Transport.hasChar "/"%char schema = false →
  Transport.urlPath (getWebSocketUrl env schema) = ("collaboration/" ++ schema)%string
  ∧ (∀ env' schema', Transport.hasChar "/"%char schema' = false →
       Transport.urlPath (getWebSocketUrl env' schema')
       = Transport.urlPath (getWebSocketUrl env schema) →
       schema' = schema)
  ∧ (Transport.plainKey (getWebSocketUrl env schema)
     ↔ Transport.hasChar "_"%char schema = false).
Proof.
  intros Hs.
  assert (Hkey : ∀ e s, Transport.hasChar "/"%char s = false →
            Transport.urlPath (getWebSocketUrl e s) = ("collaboration/" ++ s)%string).
  { intros e s H. unfold getWebSocketUrl. destruct (DEV e).
    - apply (urlPath_collaboration "ws://localhost:5000/ws" s H).
    - set (protocol := if String.eqb _ _ then _ else _).
      replace (protocol ++ "//" ++ location_host e ++ "/ws/collaboration/" ++ s)%string
        with ((protocol ++ "//" ++ location_host e ++ "/ws")
              ++ "/collaboration/" ++ s)%string.
      + by apply urlPath_collaboration.
      + by rewrite !string_app_assoc. }
  split_and!.
  - by apply Hkey.
  - intros env' schema' Hs' Heq. rewrite !Hkey in Heq by done.
    by apply (inj (String.app "collaboration/")) in Heq.
  - unfold Transport.plainKey. rewrite Hkey by done.
    by rewrite hasChar_app.
Qed.

(** Room [r1] served from [tlsHost]. *)
Lemma room_url_endpoint_key_witness :
  getWebSocketUrl tlsHost "r1" = "wss://example.org/ws/collaboration/r1"
  ∧ Transport.urlPath (getWebSocketUrl tlsHost "r1") = "collaboration/r1".
Proof.
  split; [reflexivity|].
  exact (proj1 (room_url_endpoint_key tlsHost "r1" eq_refl)).
Defined.

(** ** Event bus *)

Lemma onlyReports_refl c : onlyReports c c.
Proof. by repeat split. Qed.

Lemma onlyReports_trans c1 c2 c3 :
  onlyReports c1 c2 → onlyReports c2 c3 → onlyReports c1 c3.
Proof.
  intros (A1 & A2 & A3 & A4 & A5 & A6 & A7) (B1 & B2 & B3 & B4 & B5 & B6 & B7).
  repeat split; congruence.
Qed.

Lemma onlyReports_print l text c : onlyReports c (print l text c).
Proof. by repeat split. Qed.

Lemma onlyReports_foldl_callHandler event data hs c :
  onlyReports c (foldl (callHandler event data) c hs).
Proof.
  revert c. induction hs as [|h hs IH]; intros c; simpl.
  - apply onlyReports_refl.
  - eapply onlyReports_trans; [|apply IH].
    unfold callHandler. destruct (fn_throws h data); by repeat split.
Qed.

Lemma onlyReports_emit event data c : onlyReports c (emit event data c).
Proof.
  unfold emit. destruct (eventHandlers c !! event) as [[|h hs]|];
    try apply onlyReports_refl.
  apply (onlyReports_foldl_callHandler event data (h :: hs) c).
Qed.

(** X17. Subscribing a function that is not yet subscribed to the topic
    and unsubscribing it again restores the subscriber list of the topic;
    unsubscribing a function that is not subscribed changes no list; and
    neither [on] nor [off] touches the list of another topic. *)
Theorem on_off_round_trip (c : Collab) (event : string) (handler : Handler) :
  registrations event handler c = 0 →
  handlersOf event (off event handler (on event handler c)) = handlersOf event c
  ∧ handlersOf event (off event handler c) = handlersOf event c
  ∧ ∀ other, other ≠ event →
      handlersOf other (on event handler c) = handlersOf other c
      ∧ handlersOf other (off event handler c) = handlersOf other c.
Proof.
  intros Hz.
  assert (Hnot : ∀ hs : list Handler,
            length (filter (λ h, fn_ref h = fn_ref handler) hs) = 0 →
            spliceFirst handler hs = hs
            ∧ spliceFirst handler (hs ++ [handler]) = hs).
  { induction hs as [|h hs IH]; simpl; intros Hl.
    - by rewrite N.eqb_refl.
    - rewrite filter_cons in Hl.
      destruct (N.eqb_spec (fn_ref h) (fn_ref handler)) as [Heq|Hne].
      + rewrite decide_True in Hl by done. simpl in Hl. lia.
      + rewrite decide_False in Hl by done.
        destruct (IH Hl) as [-> ->]. done. }
  destruct (Hnot (handlersOf event c) Hz) as [H1 H2].
  split_and!.
  - by rewrite handlersOf_off, handlersOf_on.
  - by rewrite handlersOf_off.
  - intros other Hne. split.
    + unfold handlersOf, on. simpl. by rewrite lookup_insert_ne.
    + unfold handlersOf, off.
      destruct (eventHandlers c !! event); simpl; [|done].
      by rewrite lookup_insert_ne.
Qed.

(** A new session, where nothing is subscribed. *)
Lemma on_off_round_trip_witness :
  registrations "cursor_update" cursorOverlay fresh = 0
  ∧ handlersOf "cursor_update"
      (off "cursor_update" cursorOverlay (on "cursor_update" cursorOverlay fresh))
    = handlersOf "cursor_update" fresh.
Proof.
  split; [reflexivity|].
  exact (proj1 (on_off_round_trip fresh "cursor_update" cursorOverlay eq_refl)).
Defined.

(** ** Inbound messages *)

(** Case analysis along a [match] on a variable, keeping the goals that
    do not close by computation. *)
Ltac split_match :=
  match goal with
  | |- context [match ?x with _ => _ end] => is_var x; destruct x; try reflexivity
  end.

(** A [type] that is none of the [case] labels falls through to the
    [default] branch. *)
Lemma handleMessage_unknown message c ty :
  get message "type" = Normal ty →
  (∀ s, ty = JStr s → s ∉ knownTypes) →
  handleMessage message c
  = Normal (print LLog "Unknown message type:"
              (print LLog "Received collaboration message:" c)).
Proof.
  intros Hget Hun. unfold handleMessage. rewrite Hget. cbn [bind].
  destruct ty as [| |b| |z|s|? ?|? ?]; try reflexivity.
  assert (Hs : s ∉ knownTypes) by (by apply Hun).
  clear Hun Hget.
  repeat split_match.
  all: exfalso; apply Hs; unfold knownTypes;
    repeat (first [apply list_elem_of_here | apply list_elem_of_further]).
Qed.

(** A value on which one property read succeeds is not [null] or
    [undefined], so every property read succeeds. *)
Lemma get_total message k v k' :
  get message k = Normal v → ∃ v', get message k' = Normal v'.
Proof.
  destruct message; simpl; intros H; try discriminate; try by eexists.
  - destruct (String.eqb k' "length"); by eexists.
  - destruct (String.eqb k' "length"); by eexists.
Qed.

Lemma newCalls_same c c' : calls c' = calls c → newCalls c c' = [].
Proof. intros H. unfold newCalls. rewrite H. apply drop_all. Qed.

Lemma newCalls_emit event data c0 c :
  calls c0 = calls c → eventHandlers c0 = eventHandlers c →
  newCalls c (emit event data c0)
  = map (λ h, (event, fn_ref h, data)) (handlersOf event c).
Proof.
  intros Hc He. unfold newCalls. rewrite calls_emit, Hc.
  rewrite drop_app_length. unfold handlersOf. by rewrite He.
Qed.

(** The shape of every normal completion of [handleMessage]. *)
Lemma handleMessage_shape (c : Collab) (message ty : JSValue) :
  get message "type" = Normal ty →
  ∃ c', handleMessage message c = Normal c'
    ∧ onlyReports c c'
    ∧ (newCalls c c' = []
       ∨ ∃ topic payload,
           ty = JStr topic ∧ topic ∈ forwardedTypes
           ∧ newCalls c c'
             = map (λ h, (topic, fn_ref h, payload)) (handlersOf topic c)).
Proof.
  intros Hget.
  set (c0 := print LLog "Received collaboration message:" c).
  assert (Hquiet : ∀ text,
    ∃ c', Normal (print LLog text c0) = Normal c' ∧ onlyReports c c'
      ∧ (newCalls c c' = []
         ∨ ∃ topic payload,
             ty = JStr topic ∧ topic ∈ forwardedTypes
             ∧ newCalls c c'
               = map (λ h, (topic, fn_ref h, payload)) (handlersOf topic c))).
  { intros text. eexists. split; [done|]. split; [by repeat split|].
    left. by apply newCalls_same. }
  assert (Hfwd : ∀ topic payload c1,
    ty = JStr topic → topic ∈ forwardedTypes →
    calls c1 = calls c → eventHandlers c1 = eventHandlers c → onlyReports c c1 →
    ∃ c', Normal (emit topic payload c1) = Normal c' ∧ onlyReports c c'
      ∧ (newCalls c c' = []
         ∨ ∃ topic payload,
             ty = JStr topic ∧ topic ∈ forwardedTypes
             ∧ newCalls c c'
               = map (λ h, (topic, fn_ref h, payload)) (handlersOf topic c))).
  { intros topic payload c1 Hty Hin Hc He Hr. eexists. split; [done|]. split.
    - eapply onlyReports_trans; [exact Hr|apply onlyReports_emit].
    - right. exists topic, payload. split; [done|]. split; [done|].
      by apply newCalls_emit. }
  assert (Hcases : (∃ s, ty = JStr s ∧ s ∈ knownTypes)
                   ∨ (∀ s, ty = JStr s → s ∉ knownTypes)).
  { destruct ty as [| |b| |z|s|? ?|? ?]; try (right; intros s' [=]; done).
    destruct (decide (s ∈ knownTypes)) as [Hin|Hout].
    - left. by exists s.
    - right. by intros s' [= <-]. }
  destruct Hcases as [(s & -> & Hin)|Hun].
  2: { rewrite (handleMessage_unknown message c ty Hget Hun). apply Hquiet. }
  destruct (get_total message "type" _ "user" Hget) as [user Huser].
  destruct (get_total message "type" _ "userId" Hget) as [userId HuserId].
  destruct (get_total message "type" _ "data" Hget) as [data Hdata].
  unfold handleMessage. rewrite Hget. cbn [bind].
  unfold knownTypes in Hin.
  repeat (apply elem_of_cons in Hin as [->|Hin]); [..|by apply elem_of_nil in Hin].
  - apply Hquiet.
  - rewrite Huser. cbn [bind].
    apply Hfwd; try done; try (by repeat split);
      unfold forwardedTypes;
      repeat (first [apply list_elem_of_here | apply list_elem_of_further]).
  - rewrite HuserId. cbn [bind].
    apply Hfwd; try done; try (by repeat split);
      unfold forwardedTypes;
      repeat (first [apply list_elem_of_here | apply list_elem_of_further]).
  - rewrite Hdata. cbn [bind].
    destruct (truthy data && String.eqb (typeof data) "object") eqn:Hobj.
    + assert (∃ u, get data "userId" = Normal u) as [u Hu].
      { destruct data; simpl in Hobj; try discriminate; simpl; by eexists. }
      rewrite Hu. cbn [bind].
      destruct (truthy u && String.eqb (typeof u) "string").
      * apply Hfwd; try done; try (by repeat split);
      unfold forwardedTypes;
      repeat (first [apply list_elem_of_here | apply list_elem_of_further]).
      * eexists. split; [done|]. split; [by repeat split|].
        left. by apply newCalls_same.
    + eexists. split; [done|]. split; [by repeat split|].
      left. by apply newCalls_same.
  - apply Hfwd; try done; try (by repeat split);
      unfold forwardedTypes;
      repeat (first [apply list_elem_of_here | apply list_elem_of_further]).
  - rewrite Hdata. cbn [bind].
    apply Hfwd; try done; try (by repeat split);
      unfold forwardedTypes;
      repeat (first [apply list_elem_of_here | apply list_elem_of_further]).
  - rewrite Hdata. cbn [bind].
    apply Hfwd; try done; try (by repeat split);
      unfold forwardedTypes;
      repeat (first [apply list_elem_of_here | apply list_elem_of_further]).
  - apply Hquiet.
Qed.



(** X19. Whatever payload the message event of the connection manager
    hands to [onMessage], the session handles it without an exception;
    the guard of the message event is needed for that, as
    [handleMessage] throws on [null] and on [undefined]. *)
Theorem delivered_payloads_never_throw
    (st : Transport.Service) (h : nat) (parsed : option JSValue)
    (f : N) (data : JSValue) (c : Collab) :
  Transport.callbacks (Transport.socket_onmessage h parsed st)
  = Transport.callbacks st ++ [Transport.CbMessage f data] →
  is_normal (handleMessage data c) = true
  ∧ handleMessage JNull c = Throw TypeError
  ∧ handleMessage JUndefined c = Throw TypeError.
Proof.
  intros Hcb. split; [|done].
  assert (Habs : Transport.callbacks st
                 ≠ Transport.callbacks st ++ [Transport.CbMessage f data]).
  { intros Heq. apply (f_equal length) in Heq.
    rewrite length_app in Heq. simpl in Heq. lia. }
  unfold Transport.socket_onmessage in Hcb.
  destruct (Transport.sockets st !! h) as [s|]; [|done].
  destruct parsed as [data0|]; [|done].
  destruct (get data0 "type") as [ty|] eqn:Hty; [|done].
  destruct (Transport.onMessage (Transport.sock_options s)) as [f0|]; [|done].
  simpl in Hcb. apply app_inv_head in Hcb. injection Hcb as -> ->.
  destruct (handleMessage_shape c data ty Hty) as (c' & -> & _). done.
Qed.

(** A [cursor_update] arriving on [openedListening]. *)
Lemma delivered_payloads_never_throw_witness :
  Transport.callbacks
    (Transport.socket_onmessage 0 (Some cursorWithNumericUser)
       Transport.openedListening)
  = Transport.callbacks Transport.openedListening
    ++ [Transport.CbMessage 7 cursorWithNumericUser]
  ∧ is_normal (handleMessage cursorWithNumericUser listening) = true.
Proof.
  split; [reflexivity|].
  exact (proj1 (delivered_payloads_never_throw Transport.openedListening 0
                  (Some cursorWithNumericUser) 7 cursorWithNumericUser listening
                  eq_refl)).
Defined.

(** ** Outbound messages *)

(** X20. The session transmits a message exactly when
    [isConnectedState()] holds and the stored connection id is not the
    empty string, which is also exactly when [getConnectionState()]
    reports ['OPEN']: the message is then appended to what the tracked
    socket has sent, without a console line.  Otherwise the connection
    manager is not touched and one warning is printed.  In both cases
    the identity, the subscriptions and the flags of the session stay as
    they were, and no subscriber is called. *)
Theorem session_send_gating (c : Collab) (message : Envelope) :
  let c' := sendMessage message c in
  let live := isConnectedState c
              && negb (bool_decide (connectionId c = Some ""%string)) in
  (getConnectionState c = "OPEN"%string ↔ live = true)
  ∧ (live = true →
     ∃ cid h s,
       connectionId c = Some cid
       ∧ Transport.connections (service c) !! cid = Some h
       ∧ Transport.sockets (service c) !! h = Some s
       ∧ Transport.sockets (service c') !! h = Some (Transport.ws_send message s)
       ∧ console c' = console c)
  ∧ (live = false →
     service c' = service c
     ∧ console c' = console c
                    ++ [(LWarn, "WebSocket not connected or ready, message not sent:"%string)])
  ∧ connectionId c' = connectionId c ∧ currentUser c' = currentUser c
  ∧ schemaId c' = schemaId c ∧ eventHandlers c' = eventHandlers c
  ∧ isConnected c' = isConnected c
  ∧ isIntentionalDisconnect c' = isIntentionalDisconnect c
  ∧ calls c' = calls c.
Proof.
  intros c' live.
  assert (Hfields : connectionId c' = connectionId c ∧ currentUser c' = currentUser c
    ∧ schemaId c' = schemaId c ∧ eventHandlers c' = eventHandlers c
    ∧ isConnected c' = isConnected c
    ∧ isIntentionalDisconnect c' = isIntentionalDisconnect c
    ∧ calls c' = calls c).
  { assert (Hcases : (∃ f, c' = set_service f c)
                     ∨ c' = print LWarn
                              "WebSocket not connected or ready, message not sent:" c).
    { unfold c', sendMessage. destruct (connectionId c) as [cid|]; [|by right].
      destruct (negb (String.eqb cid "") && isConnected c
                && Transport.isConnected cid (service c)); [left|by right].
      by eexists. }
    by destruct Hcases as [[f ->]| ->]. }
  split_and!; try apply Hfields.
  - unfold getConnectionState, live, isConnectedState.
    destruct (connectionId c) as [cid|]; simpl.
    + destruct (String.eqb_spec cid "") as [->|Hne].
      * rewrite bool_decide_eq_true_2 by done. rewrite andb_false_r. done.
      * rewrite bool_decide_eq_false_2 by congruence. rewrite andb_true_r.
        by destruct (isConnected c && Transport.isConnected cid (service c)).
    + by rewrite andb_false_r.
  - unfold live, isConnectedState, c', sendMessage. intros Hlive.
    destruct (connectionId c) as [cid|]; [|by rewrite andb_false_r in Hlive].
    apply andb_true_iff in Hlive as [Hconn Hne].
    apply andb_true_iff in Hconn as [Hflag Hsvc].
    apply negb_true_iff, bool_decide_eq_false in Hne.
    destruct (String.eqb_spec cid "") as [->|_]; [done|].
    rewrite Hflag, Hsvc. simpl.
    unfold Transport.isConnected in Hsvc.
    destruct (Transport.connections (service c) !! cid) as [h|] eqn:Hh; [|done].
    destruct (Transport.sockets (service c) !! h) as [s|] eqn:Hs; [|done].
    apply bool_decide_eq_true in Hsvc.
    exists cid, h, s. split_and!; try done.
    unfold Transport.sendMessage. rewrite Hh, Hs, decide_True by done. simpl.
    apply list_lookup_insert_eq. by apply lookup_lt_is_Some.
  - unfold live, isConnectedState, c', sendMessage. intros Hdead.
    destruct (connectionId c) as [cid|]; [|done].
    destruct (String.eqb_spec cid "") as [->|Hne]; [done|].
    rewrite bool_decide_eq_false_2, andb_true_r in Hdead by congruence.
    simpl. by rewrite Hdead.
Qed.



End SessionLaws.

(** * Properties of the cursor list of the layout *)

Module LayoutLaws.
Import JS Layout.
Local Open Scope list_scope.

Lemma strictEq_sym (a b : JSValue) : strictEq a b = strictEq b a.
Proof.
  destruct a, b; simpl; try done.
  - by destruct b, b0.
  - apply Z.eqb_sym.
  - apply String.eqb_sym.
  - apply N.eqb_sym.
  - apply N.eqb_sym.
Qed.

Lemma strictEq_refl_truthy (v : JSValue) : truthy v = true → strictEq v v = true.
Proof.
  destruct v; simpl; try done.
  - by intros ->.
  - intros _. apply Z.eqb_refl.
  - intros _. apply String.eqb_refl.
  - intros _. apply N.eqb_refl.
  - intros _. apply N.eqb_refl.
Qed.

(** Strictly equal values are interchangeable in a comparison. *)
Lemma strictEq_congr (a b c : JSValue) :
  strictEq a b = true → strictEq c a = strictEq c b.
Proof.
  destruct a, b; simpl; try done; intros H.
  - apply Bool.eqb_prop in H. by subst.
  - apply Z.eqb_eq in H. by subst.
  - apply String.eqb_eq in H. by subst.
  - apply N.eqb_eq in H. subst. by destruct c.
  - apply N.eqb_eq in H. subst. by destruct c.
Qed.

Lemma distinctUsers_filter (P : CursorData → Prop) `{!∀ c, Decision (P c)}
    (l : list CursorData) :
  distinctUsers l → distinctUsers (filter P l).
Proof.
  induction l as [|c l IH]; simpl; [done|]. intros [Hc Hl].
  rewrite filter_cons. destruct (decide (P c)); [|by apply IH].
  simpl. split; [|by apply IH].
  apply Forall_forall. intros c' Hin. apply list_elem_of_filter in Hin as [_ Hin].
  by apply (proj1 (Forall_forall _ _) Hc).
Qed.

Lemma distinctUsers_snoc (l : list CursorData) (cd : CursorData) :
  distinctUsers l →
  Forall (λ c, strictEq (userId c) (userId cd) = false) l →
  distinctUsers (l ++ [cd]).
Proof.
  induction l as [|c l IH]; simpl; [done|]. intros [Hc Hl] Hall.
  apply Forall_cons in Hall as [Hc' Hall]. split; [|by apply IH].
  apply Forall_app. split; [done|]. by apply Forall_singleton.
Qed.

Lemma entriesOf_others_zero uid l : entriesOf uid (others uid l) = 0.
Proof.
  unfold entriesOf, others. induction l as [|c l IH]; simpl; [done|].
  rewrite filter_cons. destruct (decide (strictEq (userId c) uid = false)) as [E|E];
    [|done].
  rewrite filter_cons, decide_False by congruence. done.
Qed.

Lemma others_idemp uid l : others uid (others uid l) = others uid l.
Proof.
  unfold others. induction l as [|c l IH]; simpl; [done|].
  rewrite filter_cons. destruct (decide (strictEq (userId c) uid = false)) as [E|E];
    [|done].
  by rewrite filter_cons, decide_True, IH.
Qed.

Lemma others_all uid l :
  Forall (λ c, strictEq (userId c) uid = false) (others uid l).
Proof.
  apply Forall_forall. intros c Hin. unfold others in Hin.
  by apply list_elem_of_filter in Hin as [? _].
Qed.

(** X22. First revision.  A cursor update that passes the guard of the
    handler (a truthy payload with a truthy [userId]) leaves exactly one
    entry of that user in the list, at the end; the entries of all other
    users are kept in their order; a list without two entries of one
    user stays so; and the list grows by at most one. *)
Theorem cursor_update_one_entry_per_user
    (alloc : N) (now : string) (cursor uid : JSValue) (prev : list CursorData) :
  truthy cursor = true →
  get cursor "userId" = Normal uid →
  truthy uid = true →
  let next := handleCursorUpdate alloc now cursor prev in
  entriesOf uid next = 1
  ∧ userId <$> last next = Some uid
  ∧ others uid next = others uid prev
  ∧ (distinctUsers prev → distinctUsers next)
  ∧ (List.length next ≤ S (List.length prev))%nat.
Proof.
  intros Hc Hu Ht next.
  destruct (SessionLaws.get_total cursor "userId" uid "username" Hu) as [name Hname].
  destruct (SessionLaws.get_total cursor "userId" uid "position" Hu) as [pos Hpos].
  destruct (SessionLaws.get_total cursor "userId" uid "color" Hu) as [col Hcol].
  destruct (SessionLaws.get_total cursor "userId" uid "lastSeen" Hu) as [seen Hseen].
  set (cd := {| userId := uid; username := orElse name (JStr "Unknown");
                position := orElse pos
                  (JObj alloc (<["x" := JNum 0]> (<["y" := JNum 0]> ∅)));
                color := orElse col (JStr "#3B82F6");
                lastSeen := orElse seen (JStr now) |}).
  assert (Hnext : next = others uid prev ++ [cd]).
  { unfold next, handleCursorUpdate. by rewrite Hc, Hu, Hname, Hpos, Hcol, Hseen, Ht. }
  pose proof (strictEq_refl_truthy uid Ht) as Hrefl.
  rewrite Hnext. split_and!.
  - unfold entriesOf. rewrite filter_app, length_app.
    fold (entriesOf uid (others uid prev)). rewrite entriesOf_others_zero.
    rewrite filter_cons, decide_True by done. done.
  - by rewrite last_snoc.
  - unfold others at 1. rewrite filter_app.
    fold (others uid (others uid prev)). rewrite others_idemp.
    rewrite filter_cons, decide_False by (simpl; congruence).
    by rewrite app_nil_r.
  - intros Hd. apply distinctUsers_snoc.
    + by apply distinctUsers_filter.
    + apply others_all.
  - rewrite length_app. simpl. unfold others.
    pose proof (length_filter (λ c, strictEq (userId c) uid = false) prev). lia.
Qed.

(** A second position of [bob], whose first cursor is in the list. *)
Lemma cursor_update_one_entry_per_user_witness :
  let next := handleCursorUpdate 9 "t1" (cursorOf 5 "bob" 2) [bobCursor] in
  entriesOf (JStr "bob") next = 1 ∧ List.length next = 1.
Proof.
  pose proof (cursor_update_one_entry_per_user 9 "t1" (cursorOf 5 "bob" 2)
                (JStr "bob") [bobCursor] eq_refl eq_refl eq_refl) as H.
  cbv zeta in H. destruct H as (H1 & _).
  split; [exact H1|reflexivity].
Defined.

(** X23. [handleUserLeft] removes every entry of the user and keeps the
    entries of everybody else in their order; it keeps a list without
    two entries of one user so; applying it twice is applying it once;
    and applied after a cursor update of that same user it gives what it
    gives without the update. *)
Theorem user_left_removes_only_that_user (uid : JSValue) (prev : list CursorData) :
  let next := handleUserLeft uid prev in
  entriesOf uid next = 0
  ∧ others uid next = others uid prev
  ∧ (distinctUsers prev → distinctUsers next)
  ∧ handleUserLeft uid next = next
  ∧ (List.length next ≤ List.length prev)%nat
  ∧ ∀ alloc now cursor,
      truthy cursor = true → get cursor "userId" = Normal uid → truthy uid = true →
      handleUserLeft uid (handleCursorUpdate alloc now cursor prev) = next.
Proof.
  intros next. unfold next, handleUserLeft. fold (others uid prev).
  split_and!.
  - apply entriesOf_others_zero.
  - apply others_idemp.
  - apply distinctUsers_filter.
  - apply others_idemp.
  - apply length_filter.
  - intros alloc now cursor Hc Hu Ht.
    destruct (SessionLaws.get_total cursor "userId" uid "username" Hu) as [name Hname].
    destruct (SessionLaws.get_total cursor "userId" uid "position" Hu) as [pos Hpos].
    destruct (SessionLaws.get_total cursor "userId" uid "color" Hu) as [col Hcol].
    destruct (SessionLaws.get_total cursor "userId" uid "lastSeen" Hu) as [seen Hseen].
    unfold handleCursorUpdate. rewrite Hc, Hu, Hname, Hpos, Hcol, Hseen, Ht.
    rewrite filter_app. fold (others uid prev). fold (others uid (others uid prev)).
    rewrite others_idemp, filter_cons, decide_False.
    + by rewrite app_nil_r.
    + simpl. rewrite (strictEq_refl_truthy uid Ht). done.
Qed.

Lemma findIndex_Some uid l i :
  findIndex uid l = Some i →
  ∃ c, l !! i = Some c ∧ strictEq (userId c) uid = true.
Proof.
  revert i. induction l as [|c l IH]; simpl; [done|]. intros i.
  destruct (strictEq (userId c) uid) eqn:E.
  - intros [= <-]. by exists c.
  - destruct (findIndex uid l) as [i'|]; simpl; [|done].
    intros [= <-]. by apply IH.
Qed.

Lemma findIndex_None uid l :
  findIndex uid l = None ↔ entriesOf uid l = 0.
Proof.
  unfold entriesOf. induction l as [|c l IH]; simpl; [done|].
  rewrite filter_cons.
  destruct (strictEq (userId c) uid) eqn:E.
  - rewrite decide_True by done. simpl. split; intros; discriminate.
  - rewrite decide_False by done.
    destruct (findIndex uid l); simpl.
    + split; [done|]. intros H. apply IH in H. discriminate.
    + split; [|done]. intros _. by apply IH.
Qed.

Lemma entriesOf_zero_all uid l :
  entriesOf uid l = 0 → Forall (λ c, strictEq (userId c) uid = false) l.
Proof.
  unfold entriesOf. induction l as [|c l IH]; simpl; [done|].
  rewrite filter_cons. destruct (strictEq (userId c) uid) eqn:E.
  - rewrite decide_True by done. done.
  - rewrite decide_False by done. intros H. constructor; [done|by apply IH].
Qed.

Lemma all_others_zero uid l :
  Forall (λ c, strictEq (userId c) uid = false) l → entriesOf uid l = 0.
Proof.
  unfold entriesOf. induction 1 as [|c l Hc Hl IH]; [done|].
  rewrite filter_cons, decide_False by congruence. done.
Qed.

Lemma distinctUsers_insert (l : list CursorData) (i : nat) (c cd : CursorData) :
  distinctUsers l → l !! i = Some c →
  strictEq (userId c) (userId cd) = true →
  distinctUsers (<[i := cd]> l).
Proof.
  revert i. induction l as [|c0 l IH]; intros i; [done|].
  intros [Hc0 Hl] Hi Heq. destruct i as [|i]; simpl in *.
  - injection Hi as ->. split; [|done].
    eapply Forall_impl; [exact Hc0|]. simpl. intros c' H.
    rewrite strictEq_sym, <- (strictEq_congr _ _ (userId c') Heq).
    by rewrite strictEq_sym.
  - split; [|by apply (IH i)].
    apply Forall_insert; [done|].
    rewrite <- (strictEq_congr _ _ (userId c0) Heq).
    apply (proj1 (Forall_forall _ _) Hc0). by eapply list_elem_of_lookup_2.
Qed.

Lemma entriesOf_distinct_one uid (l : list CursorData) (c : CursorData) :
  distinctUsers l → c ∈ l → strictEq (userId c) uid = true →
  entriesOf uid l = 1.
Proof.
  intros Hd Hin Heq. induction l as [|c0 l IH]; [by apply elem_of_nil in Hin|].
  destruct Hd as [Hc0 Hl]. unfold entriesOf. rewrite filter_cons.
  apply elem_of_cons in Hin as [->|Hin].
  - rewrite decide_True by done. simpl. f_equal.
    apply all_others_zero. eapply Forall_impl; [exact Hc0|]. simpl.
    intros c' H. rewrite <- (strictEq_congr _ _ (userId c') Heq).
    by rewrite strictEq_sym.
  - rewrite decide_False.
    + by apply IH.
    + rewrite <- (strictEq_congr _ _ (userId c0) Heq).
      rewrite (proj1 (Forall_forall _ _) Hc0 c Hin). done.
Qed.

(** [findIndex] gives the first entry of the user. *)
Lemma findIndex_first uid l i c :
  l !! i = Some c → strictEq (userId c) uid = true →
  (∀ j c', (j < i)%nat → l !! j = Some c' → strictEq (userId c') uid = false) →
  findIndex uid l = Some i.
Proof.
  revert i. induction l as [|x l IH]; intros i Hi Hc Hbefore; [done|].
  destruct i as [|i]; simpl in *.
  - injection Hi as ->. by rewrite Hc.
  - rewrite (Hbefore 0%nat x); [|lia|done]. rewrite (IH i); [done|done|done|].
    intros j c' Hj Hl. apply (Hbefore (S j) c'); [lia|done].
Qed.

(** X24. Second revision.  For a payload whose [userId] can be read, the
    subscriber of [cursor_update] builds the entry of the payload: its
    [userId], [username], [position] and [color], and the date made of
    its [lastSeen].  When the user has an entry, the first such entry is
    replaced by the new one, in place, and the list is otherwise as it
    was; when the user has none, the new entry is appended.  So the
    length stays or grows by one, the entries of other users keep their
    positions, a list without two entries of one user stays so, and then
    holds exactly one entry of a truthy [userId]. *)
Theorem cursor_update_replaces_in_place
    (newDate : JSValue → JSValue) (cursor uid : JSValue) (prev : list CursorData) :
  get cursor "userId" = Normal uid →
  ∃ cd next, onCursorUpdate newDate cursor prev = Normal next
    ∧ userId cd = uid
    ∧ get cursor "username" = Normal (username cd)
    ∧ get cursor "position" = Normal (position cd)
    ∧ get cursor "color" = Normal (color cd)
    ∧ (∃ seen, get cursor "lastSeen" = Normal seen ∧ lastSeen cd = newDate seen)
    ∧ (∀ i c, prev !! i = Some c → strictEq (userId c) uid = true →
         (∀ j c', (j < i)%nat → prev !! j = Some c' →
                  strictEq (userId c') uid = false) →
         next = <[i := cd]> prev)
    ∧ (entriesOf uid prev = 0 → next = prev ++ [cd])
    ∧ List.length next
      = (if decide (entriesOf uid prev = 0) then S (List.length prev)
         else List.length prev)
    ∧ (∀ j c, prev !! j = Some c → strictEq (userId c) uid = false →
              next !! j = Some c)
    ∧ (distinctUsers prev → distinctUsers next)
    ∧ (distinctUsers prev → truthy uid = true → entriesOf uid next = 1).
Proof.
  intros Hu.
  destruct (SessionLaws.get_total cursor "userId" uid "username" Hu) as [name Hname].
  destruct (SessionLaws.get_total cursor "userId" uid "position" Hu) as [pos Hpos].
  destruct (SessionLaws.get_total cursor "userId" uid "color" Hu) as [col Hcol].
  destruct (SessionLaws.get_total cursor "userId" uid "lastSeen" Hu) as [seen Hseen].
  unfold onCursorUpdate. rewrite Hu, Hname, Hpos, Hcol, Hseen.
  set (cd := {| userId := uid; username := name; position := pos;
                color := col; lastSeen := newDate seen |}).
  exists cd.
  destruct (findIndex uid prev) as [i|] eqn:Hf.
  - destruct (findIndex_Some _ _ _ Hf) as (c & Hi & Heq).
    assert (Hne : entriesOf uid prev ≠ 0).
    { intros H0. apply findIndex_None in H0. congruence. }
    assert (Hd : distinctUsers prev → distinctUsers (<[i := cd]> prev)).
    { intros Hd. by apply (distinctUsers_insert prev i c cd). }
    eexists. split; [done|]. split_and!; try done.
    + by exists seen.
    + intros i' c' Hi' Hc' Hbefore.
      rewrite (findIndex_first uid prev i' c' Hi' Hc' Hbefore) in Hf.
      by injection Hf as ->.
    + rewrite decide_False by done. apply length_insert.
    + intros j c' Hj Hc'. rewrite list_lookup_insert_ne; [done|].
      intros ->. congruence.
    + intros Hdp Ht. apply (entriesOf_distinct_one uid _ cd); [by apply Hd| |].
      * apply list_elem_of_lookup. exists i. apply list_lookup_insert_eq.
        by eapply lookup_lt_Some.
      * by apply strictEq_refl_truthy.
  - pose proof (proj1 (findIndex_None _ _) Hf) as H0.
    pose proof (entriesOf_zero_all _ _ H0) as Hall.
    assert (Hd : distinctUsers prev → distinctUsers (prev ++ [cd])).
    { intros Hd. by apply distinctUsers_snoc. }
    eexists. split; [done|]. split_and!; try done.
    + by exists seen.
    + intros i' c' Hi' Hc' _.
      pose proof (proj1 (Forall_forall _ _) Hall c'
                    (list_elem_of_lookup_2 _ _ _ Hi')) as Hno.
      simpl in Hno. congruence.
    + rewrite decide_True by done. rewrite length_app. simpl. lia.
    + intros j c' Hj _. by apply lookup_app_l_Some.
    + intros Hdp Ht. apply (entriesOf_distinct_one uid _ cd); [by apply Hd| |].
      * apply elem_of_app. right. apply list_elem_of_singleton. done.
      * by apply strictEq_refl_truthy.
Qed.

(** A second position of [bob], whose first cursor is in the list: the
    entry is replaced. *)
Lemma cursor_update_replaces_in_place_witness :
  ∃ cd, onCursorUpdate (λ v, v) (cursorOf 5 "bob" 2) [bobCursor] = Normal [cd]
        ∧ userId cd = JStr "bob"
        ∧ get (cursorOf 5 "bob" 2) "position" = Normal (position cd).
Proof.
  destruct (cursor_update_replaces_in_place (λ v, v) (cursorOf 5 "bob" 2)
              (JStr "bob") [bobCursor] eq_refl)
    as (cd & next & H1 & H2 & _ & H4 & _ & _ & H7 & _).
  exists cd. rewrite H1. split; [|done].
  f_equal. apply (H7 0%nat bobCursor); [done|done|]. intros j c' Hj. lia.
Defined.

End LayoutLaws.

(** * Properties of the session on top of the connection manager *)

Module LifecycleLaws.
Import JS Wire Session Lifecycle.
Local Open Scope list_scope.

(** The binding of a session: its user, schema id and disconnect flag. *)
Lemma sameBinding_refl c : sameBinding c c.
Proof. done. Qed.

Lemma sameBinding_trans c1 c2 c3 :
  sameBinding c1 c2 → sameBinding c2 c3 → sameBinding c1 c3.
Proof. intros (?&?&?) (?&?&?). repeat split; congruence. Qed.

Lemma sameBinding_onlyReports c c' : onlyReports c c' → sameBinding c c'.
Proof. intros (?&?&?&?&?&?&?). by repeat split. Qed.

Lemma sameBinding_emit event data c : sameBinding c (emit event data c).
Proof. apply sameBinding_onlyReports, SessionLaws.onlyReports_emit. Qed.

Lemma sameBinding_sendMessage m c : sameBinding c (sendMessage m c).
Proof.
  unfold sendMessage. destruct (connectionId c); [|done].
  by destruct (_ && _).
Qed.

Lemma sameBinding_leaveCallback c : sameBinding c (leaveCallback c).
Proof. unfold leaveCallback. by destruct (heldId c). Qed.

Lemma sameBinding_joinCallback c c' : joinCallback c = Some c' → sameBinding c c'.
Proof.
  unfold joinCallback. destruct (_ && _); [|by intros [= <-]].
  destruct (currentUser c); [|by intros [= <-]].
  destruct (schemaId c); simpl; [|done]. intros [= <-].
  apply sameBinding_sendMessage.
Qed.

Lemma sameBinding_handleMessage message c c' :
  handleMessage message c = Normal c' → sameBinding c c'.
Proof.
  intros H. destruct (get message "type") as [ty|e] eqn:Hty.
  - destruct (SessionLaws.handleMessage_shape c message ty Hty) as (c0 & H0 & Hr & _).
    rewrite H in H0. injection H0 as <-. by apply sameBinding_onlyReports.
  - unfold handleMessage in H. rewrite Hty in H. done.
Qed.

Lemma sameBinding_senders c :
  (∀ position lastSeen c', sendCursorUpdate position lastSeen c = Normal c' →
     sameBinding c c')
  ∧ (∀ change ts c', sendSchemaChange change ts c = Normal c' → sameBinding c c')
  ∧ (∀ selection ts c', sendUserSelection selection ts c = Normal c' →
       sameBinding c c')
  ∧ (∀ status action ts c', updatePresence status action ts c = Normal c' →
       sameBinding c c').
Proof.
  unfold sendCursorUpdate, sendSchemaChange, sendUserSelection, updatePresence,
    currentUserId.
  destruct (currentUser c) eqn:Hu; simpl; split_and!; intros; simplify_eq;
    try done;
    try (eapply sameBinding_trans; [|apply sameBinding_sendMessage]; done);
    apply sameBinding_sendMessage.
Qed.

Lemma keeps_refl w : keeps w w.
Proof. done. Qed.

Lemma keeps_trans w1 w2 w3 : keeps w1 w2 → keeps w2 w3 → keeps w1 w3.
Proof. apply sameBinding_trans. Qed.

Lemma keeps_onOpen k w : keeps w (onOpen k w).
Proof.
  unfold keeps, onOpen. simpl.
  eapply sameBinding_trans; [|apply sameBinding_emit]. done.
Qed.

Lemma keeps_onMessage m w : keeps w (onMessage m w).
Proof.
  unfold keeps, onMessage. destruct (handleMessage m (session w)) eqn:H; [|done].
  simpl. by eapply sameBinding_handleMessage.
Qed.

Lemma keeps_onClose w : keeps w (onClose w).
Proof.
  unfold keeps, onClose. simpl.
  eapply sameBinding_trans; [|apply sameBinding_emit]. done.
Qed.

Lemma keeps_onError k e w : keeps w (onError k e w).
Proof.
  unfold keeps, onError. simpl.
  eapply sameBinding_trans; [|apply sameBinding_emit]. done.
Qed.

Lemma keeps_deliver e w cb : keeps w (deliver e w cb).
Proof.
  destruct cb; simpl; auto using keeps_onOpen, keeps_onMessage, keeps_onClose,
    keeps_onError.
Qed.

Lemma keeps_foldl_deliver e cbs w : keeps w (foldl (deliver e) w cbs).
Proof.
  revert w. induction cbs as [|cb cbs IH]; intros w; [done|]. simpl.
  eapply keeps_trans; [apply keeps_deliver|apply IH].
Qed.

Lemma keeps_handler e f w : keeps w (handler e f w).
Proof.
  unfold handler. eapply keeps_trans; [|apply keeps_foldl_deliver]. done.
Qed.

Lemma keeps_fire i w w' : fire i w = Some w' → keeps w w'.
Proof.
  unfold fire. destruct (timeouts w !! i) as [[kind [|]]|]; try by intros [= <-].
  destruct kind; simpl.
  - destruct (joinCallback (session w)) as [c|] eqn:Hj; simpl; [|done].
    intros [= <-]. by apply sameBinding_joinCallback.
  - intros [= <-]. apply sameBinding_leaveCallback.
Qed.

Lemma keeps_attempt r w :
  (∀ c', r = Normal c' → sameBinding (session w) c') → keeps w (attempt r w).
Proof. intros H. destruct r; [|done]. by apply H. Qed.

Lemma keeps_connect validUrl env now w : keeps w (connect validUrl env now w).
Proof.
  unfold keeps, connect. simpl.
  destruct (currentUser (session w)); [|done].
  destruct (schemaId (session w)) as [schema|]; [|done].
  destruct (String.eqb schema ""); [done|].
  destruct (_ && _); [done|].
  by destruct (Transport.connect _ _ _ _ _) as [st [cid|e]].
Qed.

Lemma disconnect_binding w :
  currentUser (session (disconnect w)) = currentUser (session w)
  ∧ schemaId (session (disconnect w)) = schemaId (session w)
  ∧ isIntentionalDisconnect (session (disconnect w)) = true
  ∧ isConnected (session (disconnect w)) = false.
Proof.
  unfold disconnect. cbv zeta.
  set (c := set_isIntentionalDisconnect true (session w)).
  change (session (with_session (set_isIntentionalDisconnect true) w)) with c.
  assert (Hb : ∀ c', sameBinding c c' →
            currentUser c' = currentUser (session w)
            ∧ schemaId c' = schemaId (session w)
            ∧ isIntentionalDisconnect c' = true).
  { intros c' (?&?&?). by repeat split. }
  assert (Hfin : ∀ c', sameBinding c c' →
            let c'' := print LLog "Disconnected from Collaboration WebSocket"
                         (set_isConnected false c') in
            currentUser c'' = currentUser (session w)
            ∧ schemaId c'' = schemaId (session w)
            ∧ isIntentionalDisconnect c'' = true
            ∧ isConnected c'' = false).
  { intros c' Hc'. destruct (Hb c' Hc') as (?&?&?). done. }
  destruct (heldId c) as [cid|]; [|exact (Hfin c (sameBinding_refl c))].
  destruct (currentUser c) as [user|] eqn:Hu.
  - destruct (isConnected c).
    + exact (Hfin _ (sameBinding_sendMessage (UserLeave (id user) (schemaId c)) c)).
    + exact (Hfin _ (sameBinding_leaveCallback c)).
  - exact (Hfin _ (sameBinding_leaveCallback c)).
Qed.

(** What a step does to the binding. *)
Lemma step_binding validUrl env a w w' :
  step validUrl env a w = Some w' →
  match a with
  | Initialize user schema =>
      currentUser (session w') = Some user ∧ schemaId (session w') = Some schema
      ∧ isIntentionalDisconnect (session w')
        = isIntentionalDisconnect (session w)
  | Disconnect =>
      currentUser (session w') = currentUser (session w)
      ∧ schemaId (session w') = schemaId (session w)
      ∧ isIntentionalDisconnect (session w') = true
  | _ => keeps w w'
  end.
Proof.
  destruct a; simpl; try (intros [= <-]).
  - done.
  - apply keeps_connect.
  - destruct (disconnect_binding w) as (?&?&?&?). done.
  - done.
  - unfold keeps, off. simpl. by destruct (eventHandlers (session w) !! event).
  - apply keeps_attempt. intros c'. apply sameBinding_senders.
  - apply keeps_attempt. intros c'. apply sameBinding_senders.
  - apply keeps_attempt. intros c'. apply sameBinding_senders.
  - apply keeps_attempt. intros c'. apply sameBinding_senders.
  - apply keeps_handler.
  - apply keeps_handler.
  - apply keeps_handler.
  - apply keeps_handler.
  - apply keeps_handler.
  - apply keeps_fire.
Qed.

Lemma step_flag validUrl env a w w' :
  step validUrl env a w = Some w' →
  isIntentionalDisconnect (session w) = true →
  isIntentionalDisconnect (session w') = true.
Proof.
  intros Hs Hf. apply step_binding in Hs.
  destruct a; try (destruct Hs as (_ & _ & ->); done).
Qed.

Lemma run_flag validUrl env acts w w' :
  run validUrl env acts w = Some w' →
  isIntentionalDisconnect (session w) = true →
  isIntentionalDisconnect (session w') = true.
Proof.
  revert w. induction acts as [|a acts IH]; intros w; simpl.
  - by intros [= <-].
  - destruct (step validUrl env a w) as [w1|] eqn:Hs; simpl; [|done].
    intros Hr Hf. apply (IH w1 Hr). by eapply step_flag.
Qed.

Lemma step_attached validUrl env a w w' :
  step validUrl env a w = Some w' →
  attached (session w) → attached (session w').
Proof.
  intros Hs [Hu Hsch]. apply step_binding in Hs. unfold attached.
  destruct a; destruct Hs as (-> & -> & _); done.
Qed.

(** Nothing happens on an idle session. *)
Lemma idle_sendMessage m c : idle c → idle (sendMessage m c).
Proof.
  intros (Hs & Ht & Hc). unfold sendMessage. destruct (connectionId c); [|done].
  rewrite Hc, andb_false_r. simpl. done.
Qed.

Lemma idle_disconnect_service cid c :
  idle c → idle (set_service (Transport.disconnect cid) c).
Proof.
  intros (Hs & Ht & Hc). split_and!; [| |done].
  - change (Transport.sockets (Transport.disconnect cid (service c)) = []).
    rewrite TransportLaws.disconnect_sockets, Hs.
    by destruct (Transport.connections (service c) !! cid).
  - change (Transport.timers (Transport.disconnect cid (service c)) = []).
    rewrite TransportLaws.disconnect_timers.
    destruct (Transport.reconnectTimeouts (service c) !! cid); [|done].
    unfold Transport.clearTimeout. simpl. by rewrite Ht.
Qed.

Lemma idle_leaveCallback c : idle c → idle (leaveCallback c).
Proof.
  intros H. unfold leaveCallback. destruct (heldId c) as [cid|]; [|done].
  by apply (idle_disconnect_service cid) in H.
Qed.

Lemma idle_joinCallback c : idle c → joinCallback c = Some c.
Proof. intros (_ & _ & Hc). unfold joinCallback. by rewrite Hc. Qed.

Lemma idle_senders c :
  idle c →
  (∀ position lastSeen c', sendCursorUpdate position lastSeen c = Normal c' → idle c')
  ∧ (∀ change ts c', sendSchemaChange change ts c = Normal c' → idle c')
  ∧ (∀ selection ts c', sendUserSelection selection ts c = Normal c' → idle c')
  ∧ (∀ status action ts c', updatePresence status action ts c = Normal c' → idle c').
Proof.
  intros Hi.
  unfold sendCursorUpdate, sendSchemaChange, sendUserSelection, updatePresence,
    currentUserId.
  destruct (currentUser c) eqn:Hu; simpl; split_and!; intros; simplify_eq;
    try done; by apply idle_sendMessage.
Qed.

Lemma idle_attempt r w :
  idle (session w) → (∀ c', r = Normal c' → idle c') → idle (session (attempt r w)).
Proof. intros Hi H. destruct r; [|done]. by apply H. Qed.

Lemma idle_handler e f w :
  idle (session w) → f (service (session w)) = service (session w) →
  idle (session (handler e f w)).
Proof.
  intros Hi Hf. unfold handler, invoked. rewrite Hf, drop_all. done.
Qed.

Lemma idle_disconnect w : idle (session w) → idle (session (disconnect w)).
Proof.
  intros Hi. unfold disconnect. cbv zeta.
  set (c := set_isIntentionalDisconnect true (session w)).
  change (session (with_session (set_isIntentionalDisconnect true) w)) with c.
  assert (Hc : idle c) by done.
  assert (Hfin : ∀ c', idle c' →
            idle (print LLog "Disconnected from Collaboration WebSocket"
                    (set_isConnected false c'))).
  { by intros c' (?&?&?). }
  destruct (heldId c) as [cid|]; [|exact (Hfin c Hc)].
  destruct (currentUser c) as [user|] eqn:Hu.
  - destruct Hc as (H1 & H2 & H3). rewrite H3.
    exact (Hfin _ (idle_leaveCallback c (conj H1 (conj H2 H3)))).
  - exact (Hfin _ (idle_leaveCallback c Hc)).
Qed.

Lemma idle_connect validUrl env now w :
  idle (session w) → ¬ attached (session w) →
  idle (session (connect validUrl env now w)).
Proof.
  intros Hi Hn. unfold connect. simpl.
  destruct (currentUser (session w)) eqn:Hu; [|done].
  destruct (schemaId (session w)) as [schema|] eqn:Hs; [|done].
  destruct Hn. unfold attached. by rewrite Hu, Hs.
Qed.

Lemma attached_dec c : attached c ∨ ¬ attached c.
Proof.
  unfold attached. destruct (currentUser c), (schemaId c);
    first [by left | right; intros [[? ?] [? ?]]; done].
Qed.

(** A step from a session that is attached or idle gives one. *)
Lemma step_settled validUrl env a w :
  attached (session w) ∨ idle (session w) →
  ∃ w', step validUrl env a w = Some w'
        ∧ (attached (session w') ∨ idle (session w')).
Proof.
  intros Hinv.
  destruct (attached_dec (session w)) as [Ha|Hn].
  { assert (Htot : is_Some (step validUrl env a w)).
    { destruct a; simpl; try by eexists.
      unfold fire. destruct (timeouts w !! i) as [[kind [|]]|]; try by eexists.
      destruct kind; [|by eexists].
      unfold joinCallback. destruct Ha as [[u Hu] [sch Hsch]].
      simpl. rewrite Hu, Hsch. destruct (_ && _); by eexists. }
    destruct Htot as [w' Hw']. exists w'. split; [done|]. left.
    by eapply step_attached. }
  destruct Hinv as [Ha|Hi]; [done|].
  destruct a; simpl.
  - eexists. split; [done|]. left. unfold attached. simpl. split; by eexists.
  - eexists. split; [done|]. right. by apply idle_connect.
  - eexists. split; [done|]. right. by apply idle_disconnect.
  - eexists. split; [done|]. by right.
  - eexists. split; [done|]. right. unfold off. simpl.
    by destruct (eventHandlers (session w) !! event).
  - eexists. split; [done|]. right. apply idle_attempt; [done|].
    intros c'. by apply idle_senders.
  - eexists. split; [done|]. right. apply idle_attempt; [done|].
    intros c'. by apply idle_senders.
  - eexists. split; [done|]. right. apply idle_attempt; [done|].
    intros c'. by apply idle_senders.
  - eexists. split; [done|]. right. apply idle_attempt; [done|].
    intros c'. by apply idle_senders.
  - eexists. split; [done|]. right. apply idle_handler; [done|].
    unfold Transport.socket_onopen. destruct Hi as (-> & _). done.
  - eexists. split; [done|]. right. apply idle_handler; [done|].
    unfold Transport.socket_onmessage. destruct Hi as (-> & _). done.
  - eexists. split; [done|]. right. apply idle_handler; [done|].
    unfold Transport.socket_onerror. destruct Hi as (-> & _). done.
  - eexists. split; [done|]. right. apply idle_handler; [done|].
    unfold Transport.socket_onclose. destruct Hi as (-> & _). done.
  - eexists. split; [done|]. right. apply idle_handler; [done|].
    unfold Transport.timer_fire. destruct Hi as (_ & -> & _). done.
  - unfold fire. destruct (timeouts w !! i) as [[kind [|]]|] eqn:Hti;
      try (eexists; split; [done|by right]).
    destruct kind; simpl.
    + rewrite (idle_joinCallback _ Hi). simpl. eexists. split; [done|by right].
    + eexists. split; [done|]. right. by apply idle_leaveCallback.
Qed.

Lemma run_settled validUrl env acts w :
  attached (session w) ∨ idle (session w) →
  ∃ w', run validUrl env acts w = Some w'
        ∧ (attached (session w') ∨ idle (session w')).
Proof.
  revert w. induction acts as [|a acts IH]; intros w Hinv; simpl.
  - by exists w.
  - destruct (step_settled validUrl env a w Hinv) as (w1 & -> & Hinv1). simpl.
    by apply IH.
Qed.

(** ** What [connect] of the connection manager returns *)

Lemma connect_result validUrl now url options st :
  let r := Transport.connect validUrl now url options st in
  let cid := Transport.mkConnectionId (Transport.urlPath url) now in
  let h := length (Transport.sockets st) in
  length (Transport.sockets r.1)
  = (if validUrl url then S h else h)
  ∧ (if validUrl url then
       r.2 = Normal cid
       ∧ Transport.connections r.1 !! cid = Some h
       ∧ Transport.sockets r.1 !! h = Some (Transport.newSocket url cid options)
     else r.2 = Throw SyntaxError).
Proof.
  unfold Transport.connect. cbv zeta.
  set (es := filter _ _).
  pose proof (TransportLaws.length_sockets_shrinks _ _
                (TransportProps.shrinks_foldl_closeExisting es st)) as Hlen.
  destruct (validUrl url); simpl; [|done].
  rewrite length_app, Hlen. simpl. split; [lia|]. split; [done|].
  split; [apply lookup_insert_eq|].
  rewrite lookup_app_r by lia. rewrite Hlen, Nat.sub_diag. done.
Qed.

(** The handler of a close event sets no timer for a socket whose
    options disable reconnection. *)
Lemma onclose_disabled h s code wasClean rnd st :
  Transport.sockets st !! h = Some s →
  Transport.enableReconnect (Transport.sock_options s) = Some false →
  Transport.newTimers st (Transport.socket_onclose h code wasClean rnd st) = [].
Proof.
  intros Hs Hopt. unfold Transport.newTimers.
  destruct (decide (Transport.readyState s = Transport.CLOSED)) as [Hc|Hc].
  - unfold Transport.socket_onclose. rewrite Hs, decide_True by done.
    apply drop_all.
  - rewrite (TransportProps.socket_onclose_unfold h code wasClean rnd st s Hs Hc).
    cbv zeta. unfold Transport.shouldReconnect. rewrite Hopt. simpl.
    apply drop_ge.
    destruct (TransportProps.afterCleanup_facts h s st) as (-> & _). done.
Qed.

(** [connect()] on a session that is connected and holds an id. *)
Lemma connect_already_connected
    (validUrl : string → bool) (env : Env) (now : N) (w : World) :
  bound (session w) → isConnected (session w) = true →
  is_Some (heldId (session w)) →
  connect validUrl env now w
  = settle (N.of_nat (promises w)) Resolve
      (with_session (print LLog "WebSocket already connected") (newPromise w)).
Proof.
  intros [[u Hu] (schema & Hs & Hne)] Hc Hh. unfold connect. cbv zeta. simpl.
  rewrite Hu, Hs. apply String.eqb_neq in Hne. rewrite Hne, Hc.
  by rewrite bool_decide_true.
Qed.

(** X25. [connect()] settles its promise at once, without a call of the
    connection manager, when no user or no schema id is bound (it
    rejects) and when the session is connected and holds a connection id
    (it resolves): connection manager, connection id, connected flag and
    timers are as before. *)
Theorem connect_settles_without_connecting
    (validUrl : string → bool) (env : Env) (now : N) (w : World) :
  ¬ bound (session w)
  ∨ (isConnected (session w) = true ∧ is_Some (heldId (session w))) →
  let w' := connect validUrl env now w in
  service (session w') = service (session w)
  ∧ connectionId (session w') = connectionId (session w)
  ∧ isConnected (session w') = isConnected (session w)
  ∧ timeouts w' = timeouts w
  ∧ promises w' = S (promises w)
  ∧ ∃ s, settled w' = settled w ++ [(N.of_nat (promises w), s)]
         ∧ (s = Resolve ↔ bound (session w)).
Proof.
  intros H w'. unfold w', connect, bound in *. cbv zeta. simpl.
  destruct (currentUser (session w)) as [user|] eqn:Hu.
  2:{ split_and!; try done. exists Reject. split; [done|].
      split; [done|]. by intros [[? ?] _]. }
  destruct (schemaId (session w)) as [schema|] eqn:Hs.
  2:{ split_and!; try done. exists Reject. split; [done|].
      split; [done|]. by intros (_ & ? & ? & _). }
  destruct (String.eqb schema "") eqn:He.
  { apply String.eqb_eq in He. subst schema.
    split_and!; try done. exists Reject. split; [done|].
    split; [done|]. intros (_ & ? & [= <-] & ?). done. }
  apply String.eqb_neq in He.
  destruct H as [Hn|[Hc Hh]].
  { destruct Hn. split; [by eexists|]. by exists schema. }
  rewrite Hc, bool_decide_true by done. simpl.
  split_and!; try done. exists Resolve. split; [done|]. split; [|done].
  intros _. split; [by eexists|]. by exists schema.
Qed.


(** A new session: no user is bound. *)
Lemma connect_settles_without_connecting_witness :
  let w' := connect Transport.wsScheme devHost 1000 fresh in
  service (session w') = service (session fresh)
  ∧ settled w' = [(0%N, Reject)].
Proof.
  assert (H : ¬ bound (session fresh)
              ∨ (isConnected (session fresh) = true
                 ∧ is_Some (heldId (session fresh)))).
  { left. intros [[u Hu] _]. discriminate Hu. }
  pose proof (connect_settles_without_connecting Transport.wsScheme devHost 1000
                fresh H) as Hthm.
  cbv zeta in Hthm. destruct Hthm as (H1 & _).
  split; [exact H1|reflexivity].
Defined.

(** X26. With a user and a non-empty schema id bound, and unless the
    session is connected and holds an id, [connect()] calls the
    connection manager on the URL of the schema.  When the host accepts
    the URL, the session holds the id made of the endpoint key and
    [now], the connection manager tracks under it a new socket that is
    still connecting and whose options enable reconnection exactly when
    [disconnect()] has not been called; the promise stays pending and
    the session sends nothing.  When the host refuses the URL the
    promise is rejected and the session keeps the id it held. *)
Theorem connect_opens_room
    (validUrl : string → bool) (env : Env) (now : N) (w : World)
    (user : CollaborationUser) (schema : string) :
  currentUser (session w) = Some user →
  schemaId (session w) = Some schema →
  schema ≠ ""%string →
  isConnected (session w) && bool_decide (is_Some (heldId (session w))) = false →
  let w' := connect validUrl env now w in
  let url := getWebSocketUrl env schema in
  let cid := Transport.mkConnectionId (Transport.urlPath url) now in
  let h := length (Transport.sockets (service (session w))) in
  let k := N.of_nat (promises w) in
  timeouts w' = timeouts w
  ∧ isConnected (session w') = isConnected (session w)
  ∧ if validUrl url then
      connectionId (session w') = Some cid
      ∧ Transport.connections (service (session w')) !! cid = Some h
      ∧ Transport.sockets (service (session w')) !! h
        = Some (Transport.newSocket url cid
                  {| Transport.onOpen := Some k; Transport.onMessage := Some k;
                     Transport.onClose := Some k; Transport.onError := Some k;
                     Transport.enableReconnect :=
                       Some (negb (isIntentionalDisconnect (session w))) |})
      ∧ settled w' = settled w
      ∧ isConnectedState (session w') = false
      ∧ ∀ m, service (sendMessage m (session w')) = service (session w')
    else
      connectionId (session w') = connectionId (session w)
      ∧ settled w' = settled w ++ [(k, Reject)]
      ∧ length (Transport.sockets (service (session w'))) = h.
Proof.
  intros Hu Hs Hne Hgate w' url cid h k.
  unfold w', connect. cbv zeta. simpl.
  rewrite Hu, Hs. apply String.eqb_neq in Hne. rewrite Hne, Hgate.
  fold url.
  set (c := print LLog "Connecting to WebSocket via SimpleWebSocketService:"
              (session w)).
  pose proof (connect_result validUrl now url (sessionOptions k c)
                (service (session w))) as Hr.
  cbv zeta in Hr. fold cid h in Hr.
  change (service c) with (service (session w)).
  change (N.of_nat (promises w)) with k.
  destruct (Transport.connect validUrl now url (sessionOptions k c)
              (service (session w))) as [st r].
  simpl in Hr. destruct Hr as [Hlen Hr].
  destruct (validUrl url).
  - destruct Hr as (-> & Hcon & Hsock). simpl.
    assert (Hnot : Transport.isConnected cid st = false).
    { unfold Transport.isConnected. by rewrite Hcon, Hsock. }
    split_and!; try done.
    + unfold isConnectedState. simpl. rewrite Hnot. apply andb_false_r.
    + intros m. unfold sendMessage. simpl. rewrite Hnot, andb_false_r. done.
  - rewrite Hr. simpl. done.
Qed.

(** [alice] opens room [r1] from a new session. *)
Lemma connect_opens_room_witness :
  let w := with_session (initialize alice "r1") fresh in
  connectionId (session (connect Transport.wsScheme devHost 1000 w))
  = Some "collaboration/r1_1000"%string.
Proof.
  pose proof (connect_opens_room Transport.wsScheme devHost 1000
                (with_session (initialize alice "r1") fresh) alice "r1"
                eq_refl eq_refl ltac:(discriminate) eq_refl) as H.
  cbv zeta in H. destruct H as (_ & _ & H).
  change (Transport.wsScheme (getWebSocketUrl devHost "r1")) with true in H.
  cbv iota in H. destruct H as (H & _). exact H.
Defined.

Lemma leaveCallback_releases c cid :
  heldId c = Some cid →
  connectionId (leaveCallback c) = None
  ∧ Transport.connections (service (leaveCallback c)) !! cid = None
  ∧ Transport.reconnectTimeouts (service (leaveCallback c)) !! cid = None
  ∧ Transport.reconnectAttempts (service (leaveCallback c)) !! cid = None.
Proof.
  intros H. unfold leaveCallback. rewrite H.
  change (service (set_connectionId None
            (set_service (Transport.disconnect cid) c)))
    with (Transport.disconnect cid (service c)).
  destruct (TransportLaws.disconnect_maps cid (service c)) as (-> & -> & -> & _).
  by rewrite !lookup_delete_eq.
Qed.

Lemma heldId_None_leaveCallback c : heldId c = None → leaveCallback c = c.
Proof. intros H. unfold leaveCallback. by rewrite H. Qed.

Lemma released_final c cid :
  heldId c = Some cid →
  let c2 := print LLog "Disconnected from Collaboration WebSocket"
              (set_isConnected false (leaveCallback c)) in
  heldId c2 = None
  ∧ (let c'' := leaveCallback c2 in
     connectionId c'' = None
     ∧ Transport.connections (service c'') !! cid = None
     ∧ Transport.reconnectTimeouts (service c'') !! cid = None
     ∧ Transport.reconnectAttempts (service c'') !! cid = None).
Proof.
  intros H c2. destruct (leaveCallback_releases c cid H) as (H1 & H2 & H3 & H4).
  assert (Hn : heldId c2 = None).
  { unfold heldId. change (connectionId c2) with (connectionId (leaveCallback c)).
    by rewrite H1. }
  split; [done|]. cbv zeta. rewrite (heldId_None_leaveCallback c2 Hn). done.
Qed.

(** X27. The leave timer lets go of the id that the session holds when
    the timer fires, and touches the record of no other id.  After
    [disconnect()] the session is marked disconnected on purpose,
    reports [CLOSED] and sends nothing.  If it was connected with a user
    bound it keeps its id, a leave message goes out on the open socket
    and one timer is set; otherwise it lets go at once and sets no
    timer.  When the leave timer runs on the state that [disconnect()]
    left (it does nothing when the session holds no id), the session
    then holds no id and the connection manager has no record, retry
    timer or counter under the id the session held. *)
Theorem disconnect_stops_session (w : World) :
  let w' := disconnect w in
  let c := session w in
  let c' := session w' in
  (∀ c0 cid0, heldId c0 = Some cid0 →
     connectionId (leaveCallback c0) = None
     ∧ Transport.connections (service (leaveCallback c0)) !! cid0 = None
     ∧ ∀ other, other ≠ cid0 →
         Transport.connections (service (leaveCallback c0)) !! other
         = Transport.connections (service c0) !! other)
  ∧ isConnected c' = false
  ∧ isIntentionalDisconnect c' = true
  ∧ isConnectedState c' = false
  ∧ getConnectionState c' = "CLOSED"%string
  ∧ (∀ m, service (sendMessage m c') = service c')
  ∧ promises w' = promises w ∧ settled w' = settled w
  ∧ (∀ cid, heldId c = Some cid →
       let c'' := leaveCallback c' in
       connectionId c'' = None
       ∧ Transport.connections (service c'') !! cid = None
       ∧ Transport.reconnectTimeouts (service c'') !! cid = None
       ∧ Transport.reconnectAttempts (service c'') !! cid = None)
  ∧ (isConnected c = false ∨ currentUser c = None ∨ heldId c = None →
       timeouts w' = timeouts w ∧ heldId c' = None)
  ∧ (∀ cid user, heldId c = Some cid → currentUser c = Some user →
       isConnected c = true →
       timeouts w' = timeouts w ++ [(LeaveTimer, false)]
       ∧ connectionId c' = connectionId c
       ∧ ∀ h s, Transport.connections (service c) !! cid = Some h →
           Transport.sockets (service c) !! h = Some s →
           Transport.readyState s = Transport.OPEN →
           Transport.connections (service c') !! cid = Some h
           ∧ Transport.sockets (service c') !! h
             = Some (Transport.ws_send (UserLeave (id user) (schemaId c)) s)).
Proof.
  intros w' c c'.
  split.
  { intros c0 cid0 H0.
    destruct (leaveCallback_releases c0 cid0 H0) as (H1 & H2 & _).
    split; [done|]. split; [done|]. intros other Hne.
    unfold leaveCallback. rewrite H0.
    change (service (set_connectionId None
              (set_service (Transport.disconnect cid0) c0)))
      with (Transport.disconnect cid0 (service c0)).
    destruct (TransportLaws.disconnect_maps cid0 (service c0)) as (-> & _).
    by apply lookup_delete_ne. }
  assert (Hbasic : isConnected c' = false ∧ isIntentionalDisconnect c' = true).
  { destruct (disconnect_binding w) as (_ & _ & ? & ?). done. }
  destruct Hbasic as [Hc' Hf'].
  assert (Hstate : isConnectedState c' = false).
  { unfold isConnectedState. by rewrite Hc'. }
  split; [done|]. split; [done|]. split; [done|].
  split.
  { unfold getConnectionState. rewrite Hstate.
    destruct (connectionId c'); [|done]. by destruct (String.eqb _ _). }
  split.
  { intros m. by destruct (SessionProps.sendMessage_disconnected c' m Hc'). }
  unfold c', w', disconnect. cbv zeta.
  set (c1 := set_isIntentionalDisconnect true (session w)).
  change (session (with_session (set_isIntentionalDisconnect true) w)) with c1.
  assert (Hheld : heldId c1 = heldId c) by done.
  assert (Huser : currentUser c1 = currentUser c) by done.
  assert (Hcon : isConnected c1 = isConnected c) by done.
  rewrite Hheld, Huser, Hcon.
  destruct (heldId c) as [cid|] eqn:Hh.
  2:{ split_and!; try done. }
  destruct (currentUser c) as [user|] eqn:Hu.
  - destruct (isConnected c) eqn:Hic.
    + split; [done|]. split; [done|]. split_and!.
      * intros cid0 [= <-]. cbv zeta.
        apply leaveCallback_releases. simpl.
        unfold heldId, sendMessage, c1 in *. simpl.
        destruct (connectionId (session w)); [|done].
        by destruct (_ && _).
      * intros [?|[?|?]]; done.
      * intros cid0 user0 [= <-] [= <-] _. split; [done|]. simpl. fold c1.
        assert (Hid : connectionId c1 = Some cid ∧ String.eqb cid "" = false).
        { unfold heldId in Hh. change (connectionId c1) with (connectionId c).
          destruct (connectionId c) as [x|]; [|done].
          destruct (String.eqb x "") eqn:E; [done|]. by injection Hh as ->. }
        destruct Hid as [Hid Hne].
        split.
        { unfold sendMessage. rewrite Hid. by destruct (_ && _). }
        intros h s Hcn Hs Hopen.
        unfold sendMessage. rewrite Hid, Hne, Hcon.
        change (service c1) with (service c).
        unfold Transport.isConnected. rewrite Hcn, Hs, bool_decide_true by done.
        simpl. fold c. unfold Transport.sendMessage. rewrite Hcn, Hs.
        rewrite decide_True by done. simpl. split; [done|].
        apply list_lookup_insert_eq. by eapply lookup_lt_Some.
    + split; [done|]. split; [done|].
      destruct (released_final c1 cid Hheld) as [Hn Hrel].
      split_and!.
      * intros cid0 [= <-]. exact Hrel.
      * intros _. split; [done|]. exact Hn.
      * intros cid0 user0 _ _ ?. done.
  - split; [done|]. split; [done|].
    destruct (released_final c1 cid Hheld) as [Hn Hrel].
    split_and!.
    + intros cid0 [= <-]. exact Hrel.
    + intros _. split; [done|]. exact Hn.
    + intros cid0 user0 _ ?. done.
Qed.

(** A session that changes room within the 100 ms of the leave timer:
    the timer closes the connection to the new room, and the record of
    the old room stays tracked with its socket open. *)
Example leave_timer_closes_new_connection :
  ∃ w, run Transport.wsScheme devHost changedRoomActs fresh = Some w
       ∧ connectionId (session w) = None
       ∧ Transport.connections (service (session w))
         = {[ "collaboration/r1_1000"%string := 0%nat ]}
       ∧ Transport.readyState <$> Transport.sockets (service (session w))
         = [Transport.OPEN; Transport.CLOSING].
Proof. eexists. split; [by vm_compute|]. by vm_compute. Qed.

(** X28. [disconnect()] is never taken back: whatever happens to the
    session afterwards, it stays marked disconnected on purpose, so the
    socket of a later [connect()] has reconnection disabled and its
    close event sets no retry timer, whatever the close code. *)
Theorem intentional_disconnect_is_permanent
    (validUrl : string → bool) (env : Env) (acts : list Act) (now : N)
    (w0 w : World) :
  run validUrl env acts (disconnect w0) = Some w →
  let w' := connect validUrl env now w in
  let st := service (session w) in
  let st' := service (session w') in
  isIntentionalDisconnect (session w) = true
  ∧ isIntentionalDisconnect (session w') = true
  ∧ ∀ h s, Transport.sockets st' !! h = Some s →
      (length (Transport.sockets st) ≤ h)%nat →
      Transport.enableReconnect (Transport.sock_options s) = Some false
      ∧ ∀ code wasClean rnd,
          Transport.newTimers st' (Transport.socket_onclose h code wasClean rnd st')
          = [].
Proof.
  intros Hrun w' st st'.
  assert (Hf : isIntentionalDisconnect (session w) = true).
  { apply (run_flag validUrl env acts _ _ Hrun).
    by destruct (disconnect_binding w0) as (_ & _ & ? & _). }
  split; [done|]. split.
  { destruct (keeps_connect validUrl env now w) as (_ & _ & Hk).
    unfold w'. by rewrite Hk. }
  intros h s Hs Hh.
  assert (Hopt : Transport.enableReconnect (Transport.sock_options s) = Some false).
  { revert Hs. unfold st', w', connect. cbv zeta. simpl.
    assert (Hold : ∀ st0, length (Transport.sockets st0)
                          = length (Transport.sockets st) →
              Transport.sockets st0 !! h = Some s → False).
    { intros st0 Hlen H0. apply lookup_lt_Some in H0. lia. }
    destruct (currentUser (session w)) as [u|]; [|by intros ?%(Hold st)].
    destruct (schemaId (session w)) as [schema|]; [|by intros ?%(Hold st)].
    destruct (String.eqb schema ""); [by intros ?%(Hold st)|].
    destruct (_ && _); [by intros ?%(Hold st)|].
    set (c := print LLog _ (session w)).
    set (k := N.of_nat (promises w)).
    pose proof (connect_result validUrl now (getWebSocketUrl env schema)
                  (sessionOptions k c) (service (session w))) as Hr.
    cbv zeta in Hr.
    destruct (Transport.connect validUrl now (getWebSocketUrl env schema)
                (sessionOptions k c) (service (session w))) as [st1 r].
    simpl in Hr. destruct Hr as [Hlen Hr]. fold st in Hlen, Hr.
    destruct (validUrl (getWebSocketUrl env schema)).
    - destruct Hr as (-> & _ & Hnew). simpl. intros H1.
      assert (h = length (Transport.sockets st)) as ->.
      { apply lookup_lt_Some in H1. lia. }
      rewrite Hnew in H1.
      injection H1 as <-. simpl. by rewrite Hf.
    - rewrite Hr. simpl. by intros ?%(Hold st1). }
  split; [done|]. intros code wasClean rnd. by eapply onclose_disabled.
Qed.

(** A session that is disconnected before it is bound and connected. *)
Lemma intentional_disconnect_is_permanent_witness :
  let w := with_session (initialize alice "r1") (disconnect fresh) in
  isIntentionalDisconnect (session w) = true
  ∧ isIntentionalDisconnect
      (session (connect Transport.wsScheme devHost 1000 w)) = true.
Proof.
  pose proof (intentional_disconnect_is_permanent Transport.wsScheme devHost
                [Initialize alice "r1"] 1000 fresh
                (with_session (initialize alice "r1") (disconnect fresh))
                eq_refl) as H.
  cbv zeta in H. destruct H as (H1 & H2 & _). split; [exact H1|exact H2].
Defined.

(** X29. Every sequence of calls and host events on a new session is
    handled: the join timer never meets a connected session without a
    user or without a schema id, which is what its non-null assertions
    take for granted. *)
Theorem join_timer_finds_binding
    (validUrl : string → bool) (env : Env) (acts : list Act) :
  ∃ w, run validUrl env acts fresh = Some w
       ∧ (isConnected (session w) = true → attached (session w))
       ∧ is_Some (joinCallback (session w)).
Proof.
  destruct (run_settled validUrl env acts fresh) as (w & Hrun & Hinv).
  { right. done. }
  exists w. split; [done|].
  assert (Hatt : isConnected (session w) = true → attached (session w)).
  { intros Hc. destruct Hinv as [Ha|(_ & _ & Hi)]; [done|congruence]. }
  split; [done|].
  unfold joinCallback. destruct (isConnected (session w)) eqn:Hc; [|by eexists].
  destruct (Hatt eq_refl) as [[u ->] [sch ->]]. simpl.
  destruct (bool_decide _); by eexists.
Qed.

(** X30. A session that is marked connected and holds an id under which
    the connection manager tracks nothing stays cut off: it reports
    [CLOSED], its messages and the join message are not sent, and
    [connect()] resolves at once without a new connection.  This is the
    state of a session after the connection manager has reconnected on
    its own, since the retry registers the new socket under a new id. *)
Theorem stale_id_cuts_session_off
    (validUrl : string → bool) (env : Env) (now : N) (w : World) (cid : string) :
  bound (session w) →
  isConnected (session w) = true →
  heldId (session w) = Some cid →
  Transport.connections (service (session w)) !! cid = None →
  let c := session w in
  let w' := connect validUrl env now w in
  isConnectedState c = false
  ∧ getConnectionState c = "CLOSED"%string
  ∧ (∀ m, service (sendMessage m c) = service c)
  ∧ (∃ c', joinCallback c = Some c' ∧ service c' = service c)
  ∧ service (session w') = service c
  ∧ connectionId (session w') = connectionId c
  ∧ settled w' = settled w ++ [(N.of_nat (promises w), Resolve)].
Proof.
  intros Hb Hc Hh Hnone c w'. fold c in Hb, Hc, Hh, Hnone.
  assert (Hid : connectionId c = Some cid ∧ String.eqb cid "" = false).
  { unfold heldId in Hh. destruct (connectionId c) as [x|]; [|done].
    destruct (String.eqb x "") eqn:E; [done|]. by injection Hh as ->. }
  destruct Hid as [Hid Hne].
  assert (Hnot : Transport.isConnected cid (service c) = false).
  { unfold Transport.isConnected. by rewrite Hnone. }
  assert (Hstate : isConnectedState c = false).
  { unfold isConnectedState. rewrite Hid, Hnot. apply andb_false_r. }
  assert (Hsend : ∀ m, service (sendMessage m c) = service c).
  { intros m. unfold sendMessage. rewrite Hid, Hnot, andb_false_r. done. }
  split; [done|]. split.
  { unfold getConnectionState. by rewrite Hid, Hne, Hstate. }
  split; [done|]. split.
  { unfold joinCallback. rewrite Hc.
    rewrite bool_decide_true by (rewrite Hh; by eexists). simpl.
    destruct Hb as [[u Hu] (sch & Hs & _)].
    rewrite Hu, Hs. simpl. eexists. split; [done|]. apply Hsend. }
  unfold w'. by rewrite (connect_already_connected validUrl env now w).
Qed.

(** The session after a retry of the connection manager. *)
Lemma stale_id_cuts_session_off_witness :
  run Transport.wsScheme devHost retriedActs fresh = Some retried
  ∧ Transport.isConnected "collaboration/r1_5000" (service (session retried)) = true
  ∧ isConnectedState (session retried) = false.
Proof.
  split; [by vm_compute|]. split; [by vm_compute|].
  assert (Hb : bound (session retried)).
  { split; [by eexists|]. exists "r1"%string. split; [by vm_compute|discriminate]. }
  assert (Hc : isConnected (session retried) = true) by (by vm_compute).
  assert (Hh : heldId (session retried) = Some "collaboration/r1_1000"%string)
    by (by vm_compute).
  assert (Hn : Transport.connections (service (session retried))
               !! "collaboration/r1_1000"%string = None) by (by vm_compute).
  pose proof (stale_id_cuts_session_off Transport.wsScheme devHost 9000 retried
                "collaboration/r1_1000" Hb Hc Hh Hn) as H.
  cbv zeta in H. destruct H as (H & _). exact H.
Defined.

End LifecycleLaws.
